(** * timelms sampler: period generation and the fetch loop

    A shallow embedding of [scripts/utils.py] (the period generator
    [get_periods] with [check_invalid_date]) and of [scripts/sampler_api.py]
    ([build_query], the query length guard and the fetch loop), with the
    properties of the design document proved or refuted on it.

    Conventions of the embedding.
    - A Python [datetime] is a record of its seven fields.  Arithmetic on
      datetimes goes through the proleptic Gregorian ordinal, as the standard
      library does; instants are counted in microseconds ([to_us]).
    - The datetimes of the source are naive.  [timestamp()] interprets them in
      the local zone; the zone is taken to have a constant offset, so that a
      difference of two timestamps is the difference of the two naive values.
      The timestamps are floats in the source and exact integers here.  A
      float keeps the microsecond of a timestamp below 2^34 seconds, that is
      up to the year 2513: a statement that depends on the comparison of
      [check_invalid_date] to the microsecond bounds the year of [now].
    - The integers of the source are unbounded and so are those here, but
      [datetime()] takes C integers, [pd.Period] reads the years 1000 to
      9999 and [timestamp()] raises on the first day of the year 1: a
      statement that the generator returns its windows bounds the years,
      and one about a combination that is no date bounds its integers.
    - [args.sleep_duration] is an integer and, after the first failure, a
      float; it is an exact rational here.  [time.sleep] raises
      [ValueError] on a negative length, which is modelled, and
      [OverflowError] beyond 2^63 nanoseconds, which is not: a statement
      that depends on the value of the sum or on the sleep of the handler
      being taken bounds the lengths by 10^8 seconds.
    - [datetime.now()] is read from a parameter [now], fixed over a run.
    - A raised, uncaught exception is [None] in the [option] monad.
    - A character of a Python string is one [ascii] of a Rocq [string]. *)

From Stdlib Require Import ZArith Lia QArith Lqa String Ascii List.
From stdpp Require Import base option list gmap strings.

Local Open Scope Z_scope.

(** ** The calendar of [datetime] *)

Module Calendar.

Definition MINYEAR : Z := 1.
Definition MAXYEAR : Z := 9999.
Definition MAXORDINAL : Z := 3652059.

Definition is_leap (year : Z) : bool :=
  (year mod 4 =? 0) && (negb (year mod 100 =? 0) || (year mod 400 =? 0)).

(** Length of month [m] in a common ([leap = false]) or leap year; 0 when
    [m] is not a month. *)
Definition month_length (leap : bool) (m : Z) : Z :=
  match m with
  | 1 => 31 | 2 => if leap then 29 else 28 | 3 => 31 | 4 => 30
  | 5 => 31 | 6 => 30 | 7 => 31 | 8 => 31
  | 9 => 30 | 10 => 31 | 11 => 30 | 12 => 31
  | _ => 0
  end.

(** Number of days of the year that precede the first day of month [m]. *)
Definition month_offset (leap : bool) (m : Z) : Z :=
  let l := if leap then 1 else 0 in
  match m with
  | 1 => 0 | 2 => 31 | 3 => 59 + l | 4 => 90 + l
  | 5 => 120 + l | 6 => 151 + l | 7 => 181 + l | 8 => 212 + l
  | 9 => 243 + l | 10 => 273 + l | 11 => 304 + l | 12 => 334 + l
  | _ => 365 + l
  end.

Definition days_in_month (year month : Z) : Z :=
  month_length (is_leap year) month.

Definition days_before_month (year month : Z) : Z :=
  month_offset (is_leap year) month.

Definition days_before_year (year : Z) : Z :=
  let y := year - 1 in y * 365 + y / 4 - y / 100 + y / 400.

(** Ordinal of a date, 0001-01-01 being day 1. *)
Definition ymd2ord (year month day : Z) : Z :=
  days_before_year year + days_before_month year month + day.

(** The inverse of [ymd2ord], by the 400/100/4/1-year cycles. *)
Definition month_day (leap : bool) (n : Z) : Z * Z :=
  let month := Z.shiftr (n + 50) 5 in
  let preceding := month_offset leap month in
  if n <? preceding
  then (month - 1, n - (preceding - month_length leap (month - 1)) + 1)
  else (month, n - preceding + 1).

Definition ord2ymd (ordinal : Z) : Z * Z * Z :=
  let n := ordinal - 1 in
  let n400 := n / 146097 in
  let n := n mod 146097 in
  let n100 := n / 36524 in
  let n := n mod 36524 in
  let n4 := n / 1461 in
  let n := n mod 1461 in
  let n1 := n / 365 in
  let n := n mod 365 in
  let year := n400 * 400 + 1 + n100 * 100 + n4 * 4 + n1 in
  if (n1 =? 4) || (n100 =? 4) then (year - 1, 12, 31)
  else
    let leapyear := (n1 =? 3) && (negb (n4 =? 24) || (n100 =? 3)) in
    let '(month, day) := month_day leapyear n in
    (year, month, day).

Record datetime : Type := mk_datetime {
  year : Z; month : Z; day : Z;
  hour : Z; minute : Z; second : Z; microsecond : Z
}.

Definition valid_date (y m d : Z) : bool :=
  (MINYEAR <=? y) && (y <=? MAXYEAR) && (1 <=? m) && (m <=? 12) &&
  (1 <=? d) && (d <=? days_in_month y m).

Definition valid_time (h mi s us : Z) : bool :=
  (0 <=? h) && (h <=? 23) && (0 <=? mi) && (mi <=? 59) &&
  (0 <=? s) && (s <=? 59) && (0 <=? us) && (us <=? 999999).

Definition valid_datetime (dt : datetime) : bool :=
  valid_date (year dt) (month dt) (day dt) &&
  valid_time (hour dt) (minute dt) (second dt) (microsecond dt).

(** [datetime(year, month, day, hour)]: [ValueError] on fields out of
    range. *)
Definition datetime_new (y m d h : Z) : option datetime :=
  if valid_date y m d && valid_time h 0 0 0
  then Some (mk_datetime y m d h 0 0 0)
  else None.

(** Durations ([timedelta]) are counted in microseconds. *)
Definition us_per_second : Z := 1000000.
Definition us_per_hour : Z := 3600 * us_per_second.
Definition us_per_day : Z := 24 * us_per_hour.

Definition timedelta_seconds (n : Z) : Z := n * us_per_second.
Definition timedelta_hours (n : Z) : Z := n * us_per_hour.
Definition timedelta_days (n : Z) : Z := n * us_per_day.

(** Microseconds from the start of ordinal day 0 to [dt]. *)
Definition to_us (dt : datetime) : Z :=
  (((ymd2ord (year dt) (month dt) (day dt) * 24 + hour dt) * 60
    + minute dt) * 60 + second dt) * us_per_second + microsecond dt.

Definition of_us (z : Z) : datetime :=
  let '(y, m, d) := ord2ymd (z / us_per_day) in
  let r := z mod us_per_day in
  mk_datetime y m d
    (r / us_per_hour)
    (r mod us_per_hour / (60 * us_per_second))
    (r mod (60 * us_per_second) / us_per_second)
    (r mod us_per_second).

(** [dt + delta] and [dt - delta]: [OverflowError] when the day leaves
    [1 .. MAXORDINAL]. *)
Definition add (dt : datetime) (delta : Z) : option datetime :=
  let z := to_us dt + delta in
  let days := z / us_per_day in
  if (0 <? days) && (days <=? MAXORDINAL) then Some (of_us z) else None.

Definition sub (dt : datetime) (delta : Z) : option datetime :=
  add dt (- delta).

(** [(a - b)], a [timedelta], in microseconds. *)
Definition diff (a b : datetime) : Z := to_us a - to_us b.

(** [dt.timestamp()], in microseconds since 1970-01-01T00:00:00: the exact
    value, of which the float of the source is the rounding. *)
Definition timestamp (dt : datetime) : Z :=
  to_us dt - ymd2ord 1970 1 1 * us_per_day.

(** The second that [strftime] prints: the fields down to [second]. *)
Definition instant (dt : datetime) : Z := to_us dt / us_per_second.

(** *** [strftime("%Y-%m-%dT%H:%M:%SZ")] *)

Definition digit (n : Z) : string :=
  String (ascii_of_nat (48 + Z.to_nat (n mod 10))) EmptyString.

Definition pad2 (n : Z) : string := (digit (n / 10) ++ digit n)%string.

Definition pad4 (n : Z) : string := (pad2 (n / 100) ++ pad2 n)%string.

Definition strftime (dt : datetime) : string :=
  (pad4 (year dt) ++ "-" ++ pad2 (month dt) ++ "-" ++ pad2 (day dt) ++ "T" ++
   pad2 (hour dt) ++ ":" ++ pad2 (minute dt) ++ ":" ++ pad2 (second dt) ++ "Z")%string.

End Calendar.


(** ** [scripts/utils.py]: the period generator *)

Module Utils.
Import Calendar.

(** A window as [get_periods] builds it: the two datetimes that are then
    printed by [strftime]. *)
Abbreviation window := (datetime * datetime)%type.

(** [range(a, b)] and [range(a, b, step)] for a positive [step]. *)
Definition range (a b : Z) : list Z := seqZ a (b - a).

Definition range_step (a b step : Z) : list Z :=
  (λ i, a + step * i) <$> seqZ 0 ((b - a + step - 1) / step).

(** A [for] loop over [xs] whose body may [break]; [continue] and falling
    off the end of the body are both [Next]. *)
Inductive flow (S : Type) : Type :=
  | Next (s : S)
  | Break (s : S).
Arguments Next {S} s.
Arguments Break {S} s.

Fixpoint for_each {A S : Type} (body : A → S → option (flow S))
    (xs : list A) (s : S) : option S :=
  match xs with
  | [] => Some s
  | x :: xs' =>
      match body x s with
      | None => None
      | Some (Next s') => for_each body xs' s'
      | Some (Break s') => Some s'
      end
  end.

(** An inner loop seen from the loop around it: its [break] is its own. *)
Definition inner {S : Type} (loop : S → option S) (s : S) : option (flow S) :=
  Next <$> loop s.

(** The two locals of [get_periods] that the loops share. *)
Record locals : Type := mk_locals {
  day_periods : list window;
  stop : bool
}.

Definition append (st : locals) (w : window) : locals :=
  mk_locals (day_periods st ++ [w]) (stop st).

Definition leave (st : locals) : flow locals :=
  if stop st then Break st else Next st.

(** [pd.Period(f'{year}-{i}-1').daysinmonth] is the length of month [i] for
    the years that pandas reads as such, 1000 to 9999. *)
Definition get_number_of_days (start_year stop_year : Z) : Z :=
  foldl (λ total_days year,
           total_days + foldr Z.add 0 (days_in_month year <$> range 1 13))
        0 (range start_year (stop_year + 1)).

(** The [ValueError] of [datetime()] is the one exception caught; the
    difference of the timestamps is the exact one. *)
Definition check_invalid_date (now : datetime) (year month day hour : Z) : bool :=
  match datetime_new year month day hour with
  | None => true
  | Some dt =>
      let dt_diff := timestamp now - timestamp dt in
      if dt_diff <? timedelta_seconds (90 * 60) then true else false
  end.

(** The clipping that the daily, weekly, monthly and yearly branches share:
    [if (date_today - end_time).total_seconds() < 0: end_time = clipped;
    stop = True]. *)
Definition clip (now : datetime) (clipped : option datetime)
    (end_time : datetime) (st : locals) : option (datetime * locals) :=
  if diff now end_time <? 0
  then e ← clipped; Some (e, mk_locals (day_periods st) true)
  else Some (end_time, st).

Definition hourly_body (now : datetime) (year month day hour : Z)
    (st : locals) : option (flow locals) :=
  if check_invalid_date now year month day hour then Some (Next st)
  else
    start_time ← datetime_new year month day hour;
    end_time ← add start_time (timedelta_hours 1);
    Some (Next (append st (start_time, end_time))).

Definition hourly (now : datetime) (start_year stop_year : Z) : locals → option locals :=
  for_each (λ year, inner (
    for_each (λ month, inner (
      for_each (λ day, inner (
        for_each (hourly_body now year month day) (range 0 (23 + 1))))
      (range 1 (31 + 1))))
    (range 1 (12 + 1))))
  (range start_year (stop_year + 1)).

Definition daily_body (now : datetime) (year month day : Z)
    (st : locals) : option (flow locals) :=
  if check_invalid_date now year month day 0 then Some (Next st)
  else
    start_time ← datetime_new year month day 0;
    end_time ← add start_time (timedelta_days 1);
    '(end_time, st) ← clip now (sub now (timedelta_hours 1)) end_time st;
    Some (leave (append st (start_time, end_time))).

Definition daily (now : datetime) (start_year stop_year : Z) : locals → option locals :=
  for_each (λ year, inner (
    for_each (λ month, inner (
      for_each (daily_body now year month) (range 1 (31 + 1))))
    (range 1 (12 + 1))))
  (range start_year (stop_year + 1)).

(** The weekly loop carries [start_time] from one iteration to the next. *)
Definition weekly_body (now : datetime) (_ : Z)
    (s : datetime * locals) : option (flow (datetime * locals)) :=
  let '(start_time, st) := s in
  if check_invalid_date now (year start_time) (month start_time) (day start_time) 0
  then Some (Next s)
  else
    end_time ← add start_time (timedelta_days 7);
    '(end_time, st) ← clip now (Some now) end_time st;
    let st := append st (start_time, end_time) in
    Some (if stop st then Break (start_time, st) else Next (end_time, st)).

Definition weekly (now : datetime) (start_year stop_year : Z)
    (st : locals) : option locals :=
  start_time ← datetime_new start_year 1 1 0;
  snd <$> for_each (weekly_body now)
            (range_step 1 (get_number_of_days start_year stop_year) 7)
            (start_time, st).

Definition monthly_body (now : datetime) (year month : Z)
    (st : locals) : option (flow locals) :=
  if check_invalid_date now year month 1 0 then Some (Next st)
  else
    start_time ← datetime_new year month 1 0;
    let next_month := month + 1 in
    let next_year := year in
    let '(next_year, next_month) :=
      if 12 <? next_month then (next_year + 1, 1) else (next_year, next_month) in
    first_of_next ← datetime_new next_year next_month 1 0;
    end_time ← sub first_of_next (timedelta_seconds 1);
    '(end_time, st) ← clip now (Some now) end_time st;
    Some (leave (append st (start_time, end_time))).

Definition monthly (now : datetime) (start_year stop_year : Z) : locals → option locals :=
  for_each (λ year, inner (
    for_each (monthly_body now year) (range 1 (12 + 1))))
  (range start_year (stop_year + 1)).

Definition yearly_body (now : datetime) (year : Z)
    (st : locals) : option (flow locals) :=
  if check_invalid_date now year 1 1 0 then Some (Next st)
  else
    start_time ← datetime_new year 1 1 0;
    first_of_next ← datetime_new (year + 1) 1 1 0;
    end_time ← sub first_of_next (timedelta_seconds 1);
    '(end_time, st) ← clip now (Some now) end_time st;
    Some (leave (append st (start_time, end_time))).

Definition yearly (now : datetime) (start_year stop_year : Z) : locals → option locals :=
  for_each (yearly_body now) (range start_year (stop_year + 1)).

(** One branch of [get_periods]: [if time_range == name: ...]. *)
Definition branch (time_range name : string) (loop : locals → option locals)
    (st : locals) : option locals :=
  if String.eqb time_range name then loop st else Some st.

(** [get_periods], before its windows are printed. *)
Definition get_periods_dt (now : datetime) (time_range : string)
    (start_year stop_year : Z) : option (list (list window)) :=
  let all_periods := [] in
  st ← branch time_range "hourly" (hourly now start_year stop_year)
         (mk_locals [] false);
  st ← branch time_range "daily" (daily now start_year stop_year) st;
  st ← branch time_range "weekly" (weekly now start_year stop_year) st;
  st ← branch time_range "monthly" (monthly now start_year stop_year) st;
  st ← branch time_range "yearly" (yearly now start_year stop_year) st;
  Some (if 0 <? Z.of_nat (length (day_periods st))
        then all_periods ++ [day_periods st]
        else all_periods).

(** [get_periods]: every bound printed as ["%Y-%m-%dT%H:%M:%SZ"]. *)
Definition get_periods (now : datetime) (time_range : string)
    (start_year stop_year : Z) : option (list (list (string * string))) :=
  fmap (M := list) (fmap (M := list) (prod_map strftime strftime)) <$>
    get_periods_dt now time_range start_year stop_year.

Definition granularities : list string :=
  ["hourly"; "daily"; "weekly"; "monthly"; "yearly"]%string.

End Utils.


(** ** [scripts/sampler_api.py]: the query, the store and the fetch loop *)

Module Sampler.
Import Calendar Utils.

Definition dquote : string := String (ascii_of_nat 34) EmptyString.

(** Truth value of an optional string in an [if]: [None] and the empty
    string are false. *)
Definition truthy (o : option string) : bool :=
  match o with
  | Some (String _ _) => true
  | _ => false
  end.

Definition str (o : option string) : string := default EmptyString o.

Definition build_query (stop_words : list string)
    (lang place country point_radius coords : option string)
    (query_options : string) : string :=
  let sep := " "%string in
  let '(stop_word_string, end_string) :=
    match stop_words with
    | _ :: _ => ("("%string, (")" ++ sep)%string)
    | [] => (EmptyString, sep)
    end in
  let end_string :=
    if truthy lang then (end_string ++ str lang ++ sep)%string else end_string in
  let end_string :=
    if truthy place then (end_string ++ str place ++ sep)%string else end_string in
  let end_string :=
    if truthy country then (end_string ++ str country ++ sep)%string else end_string in
  let end_string :=
    if truthy point_radius
    then (end_string ++ str point_radius ++ sep)%string else end_string in
  let end_string :=
    if truthy coords then (end_string ++ str coords ++ sep)%string else end_string in
  let stop_word_string :=
    foldl (λ stop_word_string '(n, word),
             let stop_word_string :=
               (stop_word_string ++ dquote ++ word ++ dquote)%string in
             let n := (n + 1)%nat in
             if (n <? length stop_words)%nat
             then (stop_word_string ++ " OR ")%string
             else stop_word_string)
          stop_word_string (imap pair stop_words) in
  let stop_word_string := (stop_word_string ++ end_string)%string in
  (stop_word_string ++ query_options)%string.

(** *** The response store *)

(** [s.replace(':', '')] *)
Fixpoint remove_colons (s : string) : string :=
  match s with
  | EmptyString => EmptyString
  | String c s' =>
      if Ascii.eqb c ":"%char then remove_colons s' else String c (remove_colons s')
  end.

Definition response_suffix : string := ".response.json".

Definition response_fn (start_time end_time : string) : string :=
  (remove_colons start_time ++ "_" ++ remove_colons end_time ++ response_suffix)%string.

Definition endswith (s suffix : string) : bool :=
  (String.length suffix <=? String.length s)%nat &&
  String.eqb
    (substring (String.length s - String.length suffix) (String.length suffix) s)
    suffix.

(** The output directory: file name to content. *)
Abbreviation directory := (gmap string string).

(** The scan at startup: the names in the directory that end in
    [.response.json]. *)
Definition responses_collected (dir : directory) : gset string :=
  filter (λ fn, endswith fn response_suffix = true) (dom dir).

(** [open(fn, 'w')] creates or truncates the file under its name; every
    chunk of [json.dump] is then appended to it. *)
Definition open_w (fn : string) (dir : directory) : directory :=
  <[fn := EmptyString]> dir.

Definition write (fn chunk : string) (dir : directory) : directory :=
  alter (λ content, (content ++ chunk)%string) fn dir.

(** The first [k] chunks written, the state of the directory if the write
    is cut there. *)
Definition persist_upto (k : nat) (fn : string) (chunks : list string)
    (dir : directory) : directory :=
  foldl (λ d chunk, write fn chunk d) (open_w fn dir) (take k chunks).

Definition persist (fn : string) (chunks : list string) (dir : directory) : directory :=
  persist_upto (length chunks) fn chunks dir.

(** The text that a list of chunks adds up to. *)
Definition text_of (chunks : list string) : string :=
  foldl String.append EmptyString chunks.

(** *** The remote collaborator and the disk, as seen by one attempt *)

(** The JSON payload: its text as [json.dump] re-emits it and the value of
    [['meta']['result_count']], [None] when the payload has none. *)
Record response : Type := mk_response {
  result_count : option Z;
  json : string
}.

Inductive reply : Type :=
  | Refused                   (* transport failure or status other than 200 *)
  | Answered (r : response).

Inductive disk : Type :=
  | DiskOk
  | OpenFails
  | WriteFails (k : nat).     (* an error after [k] chunks *)

Record attempt : Type := mk_attempt {
  remote : reply;
  storage : disk
}.

(** The chunks that [json.dump(wrapped_response, jl_f, indent=4)] writes. *)
Definition nl : string := String (ascii_of_nat 10) EmptyString.

Definition json_chunks (start_time end_time : string) (r : response) : list string :=
  [ ("{" ++ nl ++ "    ")%string;
    (dquote ++ "start_time" ++ dquote)%string; ": "%string;
    (dquote ++ start_time ++ dquote)%string;
    ("," ++ nl ++ "    ")%string;
    (dquote ++ "end_time" ++ dquote)%string; ": "%string;
    (dquote ++ end_time ++ dquote)%string;
    ("," ++ nl ++ "    ")%string;
    (dquote ++ "response" ++ dquote)%string; ": "%string;
    json r;
    (nl ++ "}")%string ].

(** *** The fetch loop *)

Inductive event : Type :=
  | Print (line : string)
  | Request (start_time end_time : string)
  | Failed
  | Sleep (seconds : Q).

(** The mutable state of a run. *)
Record run : Type := mk_run {
  sleep_duration : Q;
  n_requests_until_fail : Z;
  dir : directory;
  trace : list event
}.

Definition log (ev : event) (st : run) : run :=
  mk_run (sleep_duration st) (n_requests_until_fail st) (dir st) (trace st ++ [ev]).

Definition set_dir (d : directory) (st : run) : run :=
  mk_run (sleep_duration st) (n_requests_until_fail st) d (trace st).

Inductive status : Type :=
  | Finished      (* the statement ran to its end *)
  | Running       (* the attempts supplied are used up: still in the loop *)
  | Crashed.      (* an exception escaped *)

(** [time.sleep(d)]: [ValueError] on a negative length.  The
    [OverflowError] of a length beyond 2^63 nanoseconds has no counterpart
    here. *)
Definition sleepable (d : Q) : bool := Qle_bool 0 d.

(** The [except] clause: lines 241-247.  The sum is the exact one; the
    source adds the float [0.01]. *)
Definition on_exception (retry_duration : Z) (st : run) : status * run :=
  let st := log Failed st in
  if sleepable (inject_Z retry_duration)
  then
    let st := log (Sleep (inject_Z retry_duration)) st in
    (Running,
     mk_run (sleep_duration st + (1 # 100))%Q 0 (dir st) (trace st))
  else (Crashed, st).

(** The [try] body: lines 223-239.  [Finished] is the [break]. *)
Definition try_body (retry_duration : Z) (start_time end_time response_fn : string)
    (a : attempt) (st : run) : status * run :=
  let st := log (Request start_time end_time) st in
  match remote a with
  | Refused => on_exception retry_duration st
  | Answered twitter_response =>
      match result_count twitter_response with
      | None => on_exception retry_duration st
      | Some _ =>
          let chunks := json_chunks start_time end_time twitter_response in
          match storage a with
          | OpenFails => on_exception retry_duration st
          | WriteFails k =>
              on_exception retry_duration
                (set_dir (persist_upto k response_fn chunks (dir st)) st)
          | DiskOk =>
              let st := set_dir (persist response_fn chunks (dir st)) st in
              if sleepable (sleep_duration st)
              then
                let st := log (Sleep (sleep_duration st)) st in
                (Finished,
                 mk_run (sleep_duration st) (n_requests_until_fail st + 1)
                        (dir st) (trace st))
              else on_exception retry_duration st
          end
      end
  end.

Definition found_line (response_fn : string) : string :=
  ("Found " ++ response_fn ++ " ...")%string.

(** [while True]: one attempt per element of [attempts]. *)
Fixpoint while_true (retry_duration : Z) (start_time end_time response_fn : string)
    (attempts : list attempt) (st : run) : status * list attempt * run :=
  match attempts with
  | [] => (Running, [], st)
  | a :: attempts' =>
      match try_body retry_duration start_time end_time response_fn a st with
      | (Running, st') =>
          while_true retry_duration start_time end_time response_fn attempts' st'
      | (s, st') => (s, attempts', st')
      end
  end.

(** [for start_time, end_time in day_periods]: lines 213-247. *)
Fixpoint for_windows (retry_duration : Z) (collected : gset string)
    (day_periods : list (string * string)) (attempts : list attempt)
    (st : run) : status * list attempt * run :=
  match day_periods with
  | [] => (Finished, attempts, st)
  | (start_time, end_time) :: rest =>
      let response_fn := response_fn start_time end_time in
      if decide (response_fn ∈ collected)
      then
        for_windows retry_duration collected rest attempts
          (log (Print (found_line response_fn)) st)
      else
        match while_true retry_duration start_time end_time response_fn attempts st with
        | (Finished, attempts', st') =>
            for_windows retry_duration collected rest attempts' st'
        | other => other
        end
  end.

(** [for day_periods in all_periods]: lines 211-247. *)
Fixpoint for_periods (retry_duration : Z) (collected : gset string)
    (all_periods : list (list (string * string))) (attempts : list attempt)
    (st : run) : status * list attempt * run :=
  match all_periods with
  | [] => (Finished, attempts, st)
  | day_periods :: rest =>
      match for_windows retry_duration collected day_periods attempts st with
      | (Finished, attempts', st') =>
          for_periods retry_duration collected rest attempts' st'
      | other => other
      end
  end.

(** The command line, after [argparse] and the loading of the stop words. *)
Record args : Type := mk_args {
  stop_words : list string;
  lang : option string;
  place : option string;
  country : option string;
  point_radius : option string;
  coords : option string;
  query_options : string;
  time_range : string;
  start_year : Z;
  stop_year : Z;
  arg_sleep_duration : Z;
  retry_duration : Z
}.

Definition too_long : string :=
  "Query length exceeds 1024 characters, the limit for Academic API. Reduce the number of stopwords.".

Definition query_string (a : args) : string :=
  build_query (stop_words a) (lang a) (place a) (country a)
              (point_radius a) (coords a) (query_options a).

(** Lines 196-247: the length guard and, under it, the whole fetch. *)
Definition main (now : datetime) (a : args) (files : directory)
    (attempts : list attempt) : status * run :=
  let st := mk_run (inject_Z (arg_sleep_duration a)) 0 files [] in
  if (1024 <? String.length (query_string a))%nat
  then (Finished, log (Print too_long) st)
  else
    match get_periods now (time_range a) (start_year a) (stop_year a) with
    | None => (Crashed, st)
    | Some all_periods =>
        let responses_collected := responses_collected files in
        let '(s, _, st') :=
          for_periods (retry_duration a) responses_collected all_periods attempts st in
        (s, st')
    end.

(** What a trace shows: the requests issued and the files reported found. *)
Definition requests (t : list event) : list (string * string) :=
  omap (λ ev, match ev with Request s e => Some (s, e) | _ => None end) t.

Definition failures (t : list event) : nat :=
  length (omap (λ ev, match ev with Failed => Some tt | _ => None end) t).

Definition printed (t : list event) : list string :=
  omap (λ ev, match ev with Print line => Some line | _ => None end) t.

End Sampler.


(** ** The vocabulary of the properties *)

Module Spec.
Import Calendar Utils.

(** Two windows that follow each other in a list stand in [R]. *)
Definition adjacent {A : Type} (R : A → A → Prop) (l : list A) : Prop :=
  ∀ (i : nat) a b, l !! i = Some a → l !! S i = Some b → R a b.

(** Strictly increasing and non-overlapping, on the printed seconds: a later
    window starts after the start, and not before the end, of an earlier one. *)
Definition increasing (l : list window) : Prop :=
  ∀ (i j : nat) w1 w2, (i < j)%nat → l !! i = Some w1 → l !! j = Some w2 →
    instant (fst w1) < instant (fst w2) ∧ instant (snd w1) ≤ instant (fst w2).

(** The instant [t] lies in the half-open window. *)
Definition covers (w : window) (t : Z) : Prop :=
  instant (fst w) ≤ t < instant (snd w).

(** The period that follows month [m] of year [y], as the monthly branch
    computes it. *)
Definition month_after (y m : Z) : Z * Z :=
  if 12 <? m + 1 then (y + 1, 1) else (y, m + 1).

(** What the loops keep true of the windows collected so far.  [wf]: the
    bounds are datetimes, the start is a whole second at least 90 minutes
    old, the end is at least a second later and not in the future. *)
Definition wf (now : datetime) (w : window) : Prop :=
  valid_datetime (fst w) = true ∧ valid_datetime (snd w) = true ∧
  to_us (fst w) mod us_per_second = 0 ∧
  to_us (fst w) + timedelta_seconds (90 * 60) ≤ to_us now ∧
  to_us (fst w) + us_per_second ≤ to_us (snd w) ∧
  to_us (snd w) ≤ to_us now.

Definition chained (gap : Z) : list window → Prop :=
  adjacent (λ w1 w2, to_us (fst w2) = to_us (snd w1) + gap).

(** Every candidate that starts at [F] or later is too recent. *)
Definition dead (now : datetime) (F : Z) : Prop :=
  to_us now < F + timedelta_seconds (90 * 60).

(** The invariant at frontier [F], the instant at which the next candidate
    of the calendar starts. *)
Record inv (shape : window → Prop) (gap : Z) (now : datetime) (F : Z)
    (st : locals) : Prop := mk_inv {
  inv_wf : Forall (wf now) (day_periods st);
  inv_shape : Forall shape (day_periods st);
  inv_chained : chained gap (day_periods st);
  inv_last : ∀ w, last (day_periods st) = Some w →
             to_us (snd w) + gap = F ∨ dead now F;
  inv_stop : stop st = true → dead now F
}.

(** The shapes of the windows of each granularity. *)
Definition hour_shape (w : window) : Prop :=
  ∃ y m d h, datetime_new y m d h = Some (fst w) ∧
             add (fst w) (timedelta_hours 1) = Some (snd w).

Definition day_shape (now : datetime) (w : window) : Prop :=
  ∃ y m d, datetime_new y m d 0 = Some (fst w) ∧
           (add (fst w) (timedelta_days 1) = Some (snd w) ∨
            sub now (timedelta_hours 1) = Some (snd w)).

Definition week_shape (now : datetime) (w : window) : Prop :=
  add (fst w) (timedelta_days 7) = Some (snd w) ∨ snd w = now.

Definition month_shape (now : datetime) (w : window) : Prop :=
  ∃ y m nxt, datetime_new y m 1 0 = Some (fst w) ∧
    datetime_new (month_after y m).1 (month_after y m).2 1 0 = Some nxt ∧
    (sub nxt (timedelta_seconds 1) = Some (snd w) ∨ snd w = now).

Definition year_shape (now : datetime) (w : window) : Prop :=
  ∃ y nxt, datetime_new y 1 1 0 = Some (fst w) ∧
    datetime_new (y + 1) 1 1 0 = Some nxt ∧
    (sub nxt (timedelta_seconds 1) = Some (snd w) ∨ snd w = now).

(** The step of a loop body at a frontier: [P] holds of the new state at
    the new frontier, and [D] of a state on which the loop breaks. *)
Definition step (P : Z → locals → Prop) (D : locals → Prop) (F' : Z)
    (r : flow locals) : Prop :=
  match r with
  | Next s' => P F' s'
  | Break s' => P F' s' ∧ D s'
  end.

Definition state_of {S : Type} (r : flow S) : S :=
  match r with Next s | Break s => s end.

(** Start of a day, of a month, of a year; years are clamped to the range
    in which dates exist. *)
Definition day_start (y m d : Z) : Z := ymd2ord y m d * us_per_day.
Definition month_start (y m : Z) : Z := day_start y m 1.
Definition year_start (y : Z) : Z :=
  (days_before_year (Z.min (Z.max y 1) 10000) + 1) * us_per_day.

Definition stopped (st : locals) : Prop := stop st = true.

Definition midnight (dt : datetime) : Prop :=
  hour dt = 0 ∧ minute dt = 0 ∧ second dt = 0 ∧ microsecond dt = 0.

Definition weekly_inv_state (now : datetime) (s : datetime * locals) : Prop :=
  valid_datetime s.1 = true ∧ midnight s.1 ∧ inv (week_shape now) 0 now (to_us s.1) s.2.

(** The gap between consecutive windows of a granularity. *)
Definition gap_of (time_range : string) : Z :=
  if String.eqb time_range "monthly" || String.eqb time_range "yearly"
  then timedelta_seconds 1 else 0.

Definition shape_of (now : datetime) (time_range : string) : window → Prop :=
  if String.eqb time_range "hourly" then hour_shape
  else if String.eqb time_range "daily" then day_shape now
  else if String.eqb time_range "weekly" then week_shape now
  else if String.eqb time_range "monthly" then month_shape now
  else year_shape now.

(** [month_day] is right on day [n] of a year. *)
Definition month_day_ok (leap : bool) (n : Z) : Prop :=
  let '(m, d) := month_day leap n in
  1 ≤ m ≤ 12 ∧ 1 ≤ d ≤ month_length leap m ∧ month_offset leap m + d = n + 1.

#[export] Instance month_day_ok_dec (leap : bool) (n : Z) : Decision (month_day_ok leap n).
Proof. unfold month_day_ok. destruct (month_day leap n). apply _. Defined.

End Spec.

(** ** Statements about the generator *)

Module Claims.
Import Calendar Utils Spec.

(** The first instant of the period after the one that starts at [start]. *)
Definition next_period (time_range : string) (start : datetime) : option datetime :=
  if String.eqb time_range "monthly"
  then datetime_new (month_after (year start) (month start)).1
                    (month_after (year start) (month start)).2 1 0
  else datetime_new (year start + 1) 1 1 0.

(** A window that ends with the last second, 23:59:59, of its period. *)
Definition ends_before_next (time_range : string) (w : window) : Prop :=
  hour (snd w) = 23 ∧ minute (snd w) = 59 ∧ second (snd w) = 59 ∧
  ∃ nxt, next_period time_range (fst w) = Some nxt ∧
         instant (snd w) + 1 = instant nxt.


Definition a_now : datetime := mk_datetime 2022 1 20 10 30 15 123456.

End Claims.

(** ** Statements about the fetch loop *)

Module FetchClaims.
Import Calendar Utils Sampler.

(** The name under which a window is stored. *)
Definition fn_of (w : string * string) : string := response_fn w.1 w.2.

(** The windows that a run must fetch, and those it must skip. *)
Definition to_fetch (collected : gset string) (ws : list (string * string)) :
    list (string * string) :=
  filter (λ w, fn_of w ∉ collected) ws.

Definition to_skip (collected : gset string) (ws : list (string * string)) :
    list (string * string) :=
  filter (λ w, fn_of w ∈ collected) ws.

(** The requests of a run that tries the [i]-th window of [ws] the [i]-th
    number of [ks] times. *)
Definition tries (ks : list nat) (ws : list (string * string)) :
    list (string * string) :=
  concat (zip_with replicate ks ws).

(** An attempt in which the remote answers with a result count and the
    disk takes the file. *)
Definition succeeds (a : attempt) : Prop :=
  ∃ r n, remote a = Answered r ∧ result_count r = Some n ∧ storage a = DiskOk.

(** A later scan collects [fn], but the file does not hold [text]. *)
Definition taken_for_complete (d : directory) (fn text : string) : Prop :=
  fn ∈ responses_collected d ∧ d !! fn ≠ Some text.

(** The sleep has grown by a hundredth of a second per failure logged. *)
Definition grown (st st' : run) : Prop :=
  (failures (trace st) ≤ failures (trace st'))%nat ∧
  (sleep_duration st' ==
   sleep_duration st +
   inject_Z (Z.of_nat (failures (trace st') - failures (trace st))) * (1 # 100))%Q.

(** What one pass through the [try] statement does to the state: it
    succeeds, it fails and the loop goes on, or the sleep of the handler
    raises. *)
Inductive attempted (start_time end_time : string) (retry_duration : Z)
    (st : run) : status → run → Prop :=
  | attempt_ok st' :
      sleep_duration st' = sleep_duration st →
      n_requests_until_fail st' = n_requests_until_fail st + 1 →
      trace st' = trace st ++ [Request start_time end_time; Sleep (sleep_duration st)] →
      attempted start_time end_time retry_duration st Finished st'
  | attempt_retry st' :
      sleep_duration st' = (sleep_duration st + (1 # 100))%Q →
      n_requests_until_fail st' = 0 →
      trace st' = trace st ++ [Request start_time end_time; Failed;
                               Sleep (inject_Z retry_duration)] →
      attempted start_time end_time retry_duration st Running st'
  | attempt_crash st' :
      sleep_duration st' = sleep_duration st →
      trace st' = trace st ++ [Request start_time end_time; Failed] →
      attempted start_time end_time retry_duration st Crashed st'.

(** The lines printed for the windows that are skipped. *)
Definition found_lines (collected : gset string) (ws : list (string * string)) :
    list string :=
  (λ w, found_line (fn_of w)) <$> to_skip collected ws.

(** What a run over the windows [ws] shows, from state [st] to [st']. *)
Record resumed (collected : gset string) (ws : list (string * string))
    (st : run) (s' : status) (st' : run) : Prop := mk_resumed {
  resumed_requests : ∃ ks : list nat,
    Forall (λ k, 0 < k)%nat ks ∧
    (length ks ≤ length (to_fetch collected ws))%nat ∧
    requests (trace st') = requests (trace st) ++ tries ks (to_fetch collected ws) ∧
    (s' = Finished → length ks = length (to_fetch collected ws));
  resumed_found : ∃ ls : list string,
    printed (trace st') = printed (trace st) ++ ls ∧
    ls `prefix_of` found_lines collected ws ∧
    (s' = Finished → ls = found_lines collected ws);
  resumed_sleep : (sleep_duration st <= sleep_duration st')%Q;
  resumed_grown : s' ≠ Crashed → grown st st'
}.

(** Concrete runs. *)
Definition a_start : string := "2022-01-01T00:00:00Z".
Definition a_end : string := "2022-01-08T00:00:00Z".
Definition a_fn : string := response_fn a_start a_end.

Definition a_response : response := mk_response (Some 3) "{}".
Definition success : attempt := mk_attempt (Answered a_response) DiskOk.
Definition failure : attempt := mk_attempt Refused DiskOk.

Definition fresh : run := mk_run (inject_Z 5) 0 ∅ [].

Definition three_failures_then_success : status * list attempt * run :=
  while_true 61 a_start a_end a_fn [failure; failure; failure; success] fresh.

Definition long_args : args :=
  mk_args (replicate 100 "stopword"%string) None None None None None "has:media"
          "daily" 2022 2022 5 61.

Definition a_directory : directory :=
  {[ "2022-01-08T000000Z_2022-01-15T000000Z.response.json"%string := "{}"%string ]}.

Definition short_args : args :=
  mk_args ["a"; "b"]%string (Some "lang:en"%string) None None None None "opt"
          "weekly" 2022 2022 5 61.

End FetchClaims.

(** ** Further statements about the generator *)

Module Coverage.
Import Calendar Utils Spec.

(** The first instant of a year. *)
Definition new_year (y : Z) : datetime := mk_datetime y 1 1 0 0 0 0.

(** The loops only ever append to [day_periods]. *)
Definition grows (st st' : locals) : Prop :=
  day_periods st `prefix_of` day_periods st'.

(** The windows [ws] tile the time from [a] to [b]: the first starts at
    [a], each next one starts [gap] after the end of the one before it, and
    the last ends [gap] before [b]. *)
Definition tiles (gap a b : Z) (ws : list window) : Prop :=
  (∃ w, head ws = Some w ∧ to_us (fst w) = a) ∧
  chained gap ws ∧
  (∃ w, last ws = Some w ∧ to_us (snd w) + gap = b).

(** Every window is [len] microseconds long. *)
Definition all_long (len : Z) (ws : list window) : Prop :=
  Forall (λ w, to_us (snd w) = to_us (fst w) + len) ws.

(** The loop that [get_periods] runs for [time_range], none for a name that
    it does not know. *)
Definition loop_of (now : datetime) (time_range : string)
    (start_year stop_year : Z) : locals → option locals :=
  if String.eqb time_range "hourly" then hourly now start_year stop_year
  else if String.eqb time_range "daily" then daily now start_year stop_year
  else if String.eqb time_range "weekly" then weekly now start_year stop_year
  else if String.eqb time_range "monthly" then monthly now start_year stop_year
  else if String.eqb time_range "yearly" then yearly now start_year stop_year
  else Some.

(** A window that spans its whole period: it is not cut at [now]. *)
Definition whole (time_range : string) (w : window) : Prop :=
  if String.eqb time_range "hourly"
  then add (fst w) (timedelta_hours 1) = Some (snd w)
  else if String.eqb time_range "daily"
  then add (fst w) (timedelta_days 1) = Some (snd w)
  else if String.eqb time_range "weekly"
  then add (fst w) (timedelta_days 7) = Some (snd w)
  else ∃ nxt, Claims.next_period time_range (fst w) = Some nxt ∧
              sub nxt (timedelta_seconds 1) = Some (snd w).

(** The dates and hours that are candidates of a granularity that follows
    the calendar: every hour, the first hour of every day, of every month,
    of every year. *)
Definition candidate (time_range : string) (m d h : Z) : Prop :=
  if String.eqb time_range "hourly" then True
  else if String.eqb time_range "daily" then h = 0
  else if String.eqb time_range "monthly" then d = 1 ∧ h = 0
  else m = 1 ∧ d = 1 ∧ h = 0.

(** Every candidate from [lo] up to the frontier [F] that
    [check_invalid_date] accepts has its window. *)
Definition gathered (cand : Z → Z → Z → Prop) (now : datetime) (lo F : Z)
    (st : locals) : Prop :=
  ∀ y m d h dt, cand m d h → datetime_new y m d h = Some dt →
    lo ≤ to_us dt < F → check_invalid_date now y m d h = false →
    ∃ e, (dt, e) ∈ day_periods st.

(** The [i]-th week counted from the start of [start_year]. *)
Definition week_from (start_year : Z) (i : nat) (w : window) : Prop :=
  to_us (fst w) = to_us (new_year start_year) + timedelta_days (7 * Z.of_nat i) ∧
  to_us (snd w) = to_us (new_year start_year) + timedelta_days (7 * (Z.of_nat i + 1)).

End Coverage.

(** ** Further statements about the query and the store *)

Module Resume.
Import Calendar Utils Sampler Claims FetchClaims.

(** [sep.join(parts)] *)
Fixpoint join (sep : string) (parts : list string) : string :=
  match parts with
  | [] => EmptyString
  | [part] => part
  | part :: rest => (part ++ sep ++ join sep rest)%string
  end.

Definition quoted (word : string) : string := (dquote ++ word ++ dquote)%string.

(** The filters that are set, a space after each. *)
Definition filters (fs : list (option string)) : string :=
  foldr (λ f rest, if truthy f then (str f ++ " " ++ rest)%string else rest)
        EmptyString fs.

(** The file of the window holds the whole dump of a response to it. *)
Definition complete (d : directory) (w : string * string) : Prop :=
  ∃ r, d !! fn_of w = Some (text_of (json_chunks w.1 w.2 r)).

(** The character of the last decimal digit of [n]. *)
Definition digit_char (n : Z) : ascii := ascii_of_nat (48 + Z.to_nat (n mod 10)).

(** The names under which the windows of [get_periods] are stored. *)
Definition names (all_periods : list (list (string * string))) : list string :=
  fn_of <$> concat all_periods.

(** Concrete runs. *)
Definition many_args : args :=
  mk_args (replicate 171 EmptyString) None None None None None EmptyString
          "daily" 2022 2022 5 61.

Definition yearly_args : args :=
  mk_args ["a"; "b"]%string (Some "lang:en"%string) None None None None "opt"
          "yearly" 2020 2021 5 61.

Definition a_run : status * run :=
  main a_now yearly_args a_directory [failure; success; success].

Definition hasty_args : args :=
  mk_args ["a"; "b"]%string (Some "lang:en"%string) None None None None "opt"
          "yearly" 2020 2021 5 (-1).

(** The fields that [strftime] prints are those of a datetime. *)
Definition printable (dt : datetime) : Prop :=
  0 ≤ year dt ≤ 9999 ∧ 0 ≤ month dt ≤ 99 ∧ 0 ≤ day dt ≤ 99 ∧
  0 ≤ hour dt ≤ 99 ∧ 0 ≤ minute dt ≤ 99 ∧ 0 ≤ second dt ≤ 99.

(** Two datetimes that [strftime] prints alike. *)
Definition same_second (a b : datetime) : Prop :=
  year a = year b ∧ month a = month b ∧ day a = day b ∧
  hour a = hour b ∧ minute a = minute b ∧ second a = second b.

End Resume.

(** ** [scripts/utils.py]: the validators, and the location of the query

    The interpreter is taken to run with assertions enabled, as it does
    unless it is given [-O]. *)

Module Validators.
Import Utils Sampler.

(** How a call ends: it returns, or an exception leaves it.  [sys.exit]
    raises [SystemExit]; the line printed before it is kept with it. *)
Inductive exn : Type :=
  | ArgumentTypeError (message : string)
  | AssertionError (message : string)
  | TypeError
  | SystemExit (printed : string) (code : Z).

Inductive outcome (A : Type) : Type :=
  | Return (a : A)
  | Raise (e : exn).
Arguments Return {A} a.
Arguments Raise {A} e.

#[export] Instance outcome_bind : MBind outcome := λ A B f m,
  match m with
  | Return a => f a
  | Raise e => Raise e
  end.

(** The values that the comparisons of the validators meet. *)
Inductive value : Type :=
  | Str (s : string)
  | Int (n : Z).

(** [a >= b] and [a <= b]: defined between two numbers and between two
    strings, a [TypeError] between a string and a number. *)
Definition ge (a b : value) : outcome bool :=
  match a, b with
  | Int x, Int y => Return (y <=? x)
  | Str x, Str y => Return (String.leb y x)
  | _, _ => Raise TypeError
  end.

Definition le (a b : value) : outcome bool :=
  match a, b with
  | Int x, Int y => Return (x <=? y)
  | Str x, Str y => Return (String.leb x y)
  | _, _ => Raise TypeError
  end.

(** [a and b]: [b] counts only when [a] is true. *)
Definition and_then (a b : outcome bool) : outcome bool :=
  x ← a; if x : bool then b else Return false.

(** [assert cond, message] *)
Definition assert (cond : outcome bool) (message : string) : outcome unit :=
  c ← cond; if c : bool then Return tt else Raise (AssertionError message).

Definition validate_stopwords_file (astring : string) : outcome string :=
  if negb (endswith astring ".tsv" || endswith astring ".csv")
  then Raise (ArgumentTypeError
                (astring ++ ": is an invalid file, provide a csv or tsv."))
  else Return astring.


(** What [\s] matches among the characters below 256. *)
Definition is_space (c : ascii) : bool :=
  let n := nat_of_ascii c in
  ((9 <=? n) && (n <=? 13) || (28 <=? n) && (n <=? 32) || (n =? 133) || (n =? 160))%nat.

Definition flush (word : string) : list string :=
  if word is EmptyString then [] else [word].

(** [re.findall(r'\s|,|[^,\s]+', s)]: every blank and every comma is a
    match of its own, and so is every longest run of other characters;
    [word] is the run that is being read. *)
Fixpoint matches (s : string) (word : string) : list string :=
  match s with
  | EmptyString => flush word
  | String c s' =>
      if is_space c || Ascii.eqb c ","
      then flush word ++ String c EmptyString :: matches s' EmptyString
      else matches s' (word ++ String c EmptyString)
  end.

Definition findall (astring : string) : list string := matches astring EmptyString.

(** [[l for l in re.findall(...) if l not in [',', ' ']]] *)
Definition inp_loc (astring : string) : list string :=
  filter (λ l, l ∉ [","; " "]%string) (findall astring).

Definition wrong_point : string :=
  ("Coordinates wrong format. Provide as " ++ dquote ++ "long. lat. radius" ++
   dquote ++ " or " ++ dquote ++ "long.,lat.,radius" ++ dquote ++ ".")%string.

Definition wrong_box : string :=
  ("Coordinates wrong format. Provide as " ++ dquote ++
   "west_long south_lat east_long north_lat" ++ dquote ++ " or " ++ dquote ++
   "west_long,south_lat,east_long,north_lat" ++ dquote ++ ".")%string.

(** The elements of [inp_loc] are strings, and [str] of a string is the
    string. *)
Definition validate_point_radius (astring : string) : outcome string :=
  match inp_loc astring with
  | [lon; rad] =>
      _ ← assert (and_then (ge (Str lon) (Int (-180))) (le (Str lon) (Int 180)))
                 "Invalid longitude range.";
      Return ("point_radius:[" ++ lon ++ " " ++ rad ++ "]")%string
  | [lon; lat; rad] =>
      _ ← assert (and_then (ge (Str lon) (Int (-180))) (le (Str lon) (Int 180)))
                 "Invalid longitude range.";
      _ ← assert (and_then (ge (Str lat) (Int (-90))) (le (Str lat) (Int 90)))
                 "Invalid latitude range.";
      Return ("point_radius:[" ++ lon ++ " " ++ lat ++ " " ++ rad ++ "]")%string
  | _ => Raise (SystemExit wrong_point (-1))
  end.

Definition validate_coords (astring : string) : outcome string :=
  match inp_loc astring with
  | [w_lon; s_lat; e_lon; n_lat] =>
      _ ← assert (and_then (ge (Str w_lon) (Int (-180)))
                 (and_then (le (Str w_lon) (Int 180))
                 (and_then (ge (Str e_lon) (Int (-180)))
                           (le (Str e_lon) (Int 180)))))
                 "Invalid longitude range.";
      _ ← assert (and_then (ge (Str s_lat) (Int (-90)))
                 (and_then (le (Str s_lat) (Int 90))
                 (and_then (ge (Str n_lat) (Int (-90)))
                           (le (Str n_lat) (Int 90)))))
                 "Invalid latitude range.";
      Return ("bounding_box:[" ++ w_lon ++ " " ++ s_lat ++ " " ++ e_lon ++ " " ++
              n_lat ++ "]")%string
  | _ => Raise (SystemExit wrong_box (-1))
  end.

(** *** [scripts/sampler_api.py], lines 119 to 154 *)

(** [lang]: lines 121 to 124. *)
Definition lang_filter (arg_lang : option string) : option string :=
  if truthy arg_lang then Some ("lang:" ++ str arg_lang)%string else None.

(** [assert x is not None, message], and [x] after it. *)
Definition assert_given (x : option string) (message : string) : outcome string :=
  match x with
  | Some v => Return v
  | None => Raise (AssertionError message)
  end.

(** The four filters [place], [country], [point_radius] and [coords] as the
    chain over [location_type] sets them: lines 126 to 154. *)
Definition location (lt arg_place arg_country arg_point_radius arg_coords :
    option string) :
    outcome (option string * option string * option string * option string) :=
  if decide (lt = Some "place"%string) then
    v ← assert_given arg_place "place option was selected, provide place name";
    Return (Some ("place:" ++ v)%string, None, None, None)
  else if decide (lt = Some "place_country"%string) then
    v ← assert_given arg_country
          "place_country option was selected, provide country code";
    Return (None, Some ("place_country:" ++ v)%string, None, None)
  else if decide (lt = Some "point_radius"%string) then
    v ← assert_given arg_point_radius
          ("point_radius was selected but no point and radius is provided in the format "
           ++ dquote ++ "long. lat. radius" ++ dquote ++ " or " ++ dquote ++
           "long.,lat.,radius" ++ dquote);
    point_radius ← validate_point_radius v;
    Return (None, None, Some point_radius, None)
  else if decide (lt = Some "bounding_box"%string) then
    v ← assert_given arg_coords
          ("bounding_box was selected but no coordinates are provided in the format "
           ++ dquote ++ "west_long south_lat east_long north_lat" ++ dquote ++
           " or " ++ dquote ++ "west_long,south_lat,east_long,north_lat" ++ dquote);
    coords ← validate_coords v;
    Return (None, None, None, Some coords)
  else Return (None, None, None, None).

End Validators.

(** * Proofs

    ** The calendar *)

Module CalendarFacts.
Import Calendar Utils Spec.

Ltac divmod := Z.div_mod_to_equations; lia.

Lemma is_leap_spec y :
  is_leap y = true ↔ y mod 4 = 0 ∧ (y mod 100 ≠ 0 ∨ y mod 400 = 0).
Proof.
  unfold is_leap.
  rewrite andb_true_iff, orb_true_iff, negb_true_iff, !Z.eqb_eq, Z.eqb_neq.
  reflexivity.
Qed.

Lemma days_before_year_succ y :
  days_before_year (y + 1) =
  days_before_year y + 365 + (if is_leap y then 1 else 0).
Proof.
  unfold days_before_year.
  destruct (is_leap y) eqn:L.
  - apply is_leap_spec in L. replace (y + 1 - 1) with y by lia. divmod.
  - assert (¬ (y mod 4 = 0 ∧ (y mod 100 ≠ 0 ∨ y mod 400 = 0))) as N.
    { rewrite <- is_leap_spec, L. discriminate. }
    replace (y + 1 - 1) with y by lia. divmod.
Qed.

Lemma month_day_spec (leap : bool) n :
  0 ≤ n < 365 + (if leap then 1 else 0) → month_day_ok leap n.
Proof.
  intros Hn.
  assert (Forall (month_day_ok true) (seqZ 0 366)) as Ht
    by (apply (bool_decide_eq_true_1 _); vm_compute; reflexivity).
  assert (Forall (month_day_ok false) (seqZ 0 365)) as Hf
    by (apply (bool_decide_eq_true_1 _); vm_compute; reflexivity).
  rewrite Forall_forall in Ht, Hf.
  destruct leap; [apply Ht | apply Hf]; apply elem_of_seqZ; lia.
Qed.

Lemma month_offset_succ leap m :
  1 ≤ m ≤ 12 → month_offset leap (m + 1) = month_offset leap m + month_length leap m.
Proof.
  intros Hm.
  assert (m = 1 ∨ m = 2 ∨ m = 3 ∨ m = 4 ∨ m = 5 ∨ m = 6 ∨ m = 7 ∨ m = 8 ∨
          m = 9 ∨ m = 10 ∨ m = 11 ∨ m = 12) as Hc by lia.
  destruct leap; repeat (destruct Hc as [-> | Hc]; [reflexivity |]); subst; reflexivity.
Qed.

Lemma month_length_pos leap m : 1 ≤ m ≤ 12 → 28 ≤ month_length leap m ≤ 31.
Proof.
  intros Hm.
  assert (m = 1 ∨ m = 2 ∨ m = 3 ∨ m = 4 ∨ m = 5 ∨ m = 6 ∨ m = 7 ∨ m = 8 ∨
          m = 9 ∨ m = 10 ∨ m = 11 ∨ m = 12) as Hc by lia.
  destruct leap; repeat (destruct Hc as [-> | Hc]; [simpl; lia |]); subst; simpl; lia.
Qed.

Lemma month_offset_bounds (leap : bool) m :
  1 ≤ m ≤ 12 →
  0 ≤ month_offset leap m ∧
  month_offset leap m + month_length leap m ≤ 365 + (if leap then 1 else 0).
Proof.
  intros Hm.
  assert (m = 1 ∨ m = 2 ∨ m = 3 ∨ m = 4 ∨ m = 5 ∨ m = 6 ∨ m = 7 ∨ m = 8 ∨
          m = 9 ∨ m = 10 ∨ m = 11 ∨ m = 12) as Hc by lia.
  destruct leap; repeat (destruct Hc as [-> | Hc]; [simpl; lia |]); subst; simpl; lia.
Qed.

Lemma valid_date_spec y m d :
  valid_date y m d = true ↔
  1 ≤ y ≤ 9999 ∧ 1 ≤ m ≤ 12 ∧ 1 ≤ d ≤ days_in_month y m.
Proof.
  unfold valid_date, MINYEAR, MAXYEAR.
  rewrite !andb_true_iff, !Z.leb_le. lia.
Qed.

Lemma valid_time_spec h mi s us :
  valid_time h mi s us = true ↔
  0 ≤ h ≤ 23 ∧ 0 ≤ mi ≤ 59 ∧ 0 ≤ s ≤ 59 ∧ 0 ≤ us ≤ 999999.
Proof.
  unfold valid_time. rewrite !andb_true_iff, !Z.leb_le. lia.
Qed.

Lemma days_before_year_mono y y' :
  y ≤ y' → days_before_year y ≤ days_before_year y'.
Proof. unfold days_before_year. intros. divmod. Qed.

Lemma ord2ymd_spec n :
  1 ≤ n ≤ MAXORDINAL →
  let '(y, m, d) := ord2ymd n in
  valid_date y m d = true ∧ ymd2ord y m d = n.
Proof.
  unfold MAXORDINAL. intros Hn. unfold ord2ymd.
  set (N := n - 1).
  set (n400 := N / 146097). set (r1 := N mod 146097).
  set (n100 := r1 / 36524). set (r2 := r1 mod 36524).
  set (n4 := r2 / 1461). set (r3 := r2 mod 1461).
  set (n1 := r3 / 365). set (r4 := r3 mod 365).
  assert (0 ≤ N ≤ 3652058 ∧ n = N + 1) as [HN EN] by (subst N; lia).
  assert (N = 146097 * n400 + r1 ∧ 0 ≤ r1 < 146097 ∧ 0 ≤ n400 ≤ 24) as (E1 & B1 & Q1)
    by (subst n400 r1; divmod).
  assert (r1 = 36524 * n100 + r2 ∧ 0 ≤ r2 < 36524 ∧ 0 ≤ n100 ≤ 4) as (E2 & B2 & Q2)
    by (subst n100 r2; divmod).
  assert (r2 = 1461 * n4 + r3 ∧ 0 ≤ r3 < 1461 ∧ 0 ≤ n4 ≤ 24) as (E3 & B3 & Q3)
    by (subst n4 r3; divmod).
  assert (r3 = 365 * n1 + r4 ∧ 0 ≤ r4 < 365 ∧ 0 ≤ n1 ≤ 4) as (E4 & B4 & Q4)
    by (subst n1 r4; divmod).
  clearbody n400 r1 n100 r2 n4 r3 n1 r4 N.
  destruct ((n1 =? 4) || (n100 =? 4)) eqn:Edge.
  - apply orb_true_iff in Edge. rewrite !Z.eqb_eq in Edge.
    set (Y := n400 * 400 + 1 + n100 * 100 + n4 * 4 + n1 - 1).
    assert (is_leap Y = true) as L.
    { apply is_leap_spec. subst Y. divmod. }
    split.
    + apply valid_date_spec. unfold days_in_month. rewrite L. simpl. subst Y. lia.
    + unfold ymd2ord, days_before_month. rewrite L.
      change (month_offset true 12) with 335.
      assert (days_before_year Y + 366 = N + 1); [| lia].
      unfold days_before_year. subst Y. destruct Edge as [-> | ->].
      * assert (r4 = 0) as -> by lia. divmod.
      * assert (r2 = 0) as -> by lia. divmod.
  - apply orb_false_iff in Edge. rewrite !Z.eqb_neq in Edge.
    set (Y := n400 * 400 + 1 + n100 * 100 + n4 * 4 + n1).
    set (leapyear := (n1 =? 3) && (negb (n4 =? 24) || (n100 =? 3))).
    assert (is_leap Y = leapyear) as L.
    { subst leapyear. destruct (is_leap Y) eqn:L.
      - apply is_leap_spec in L. symmetry.
        rewrite andb_true_iff, orb_true_iff, negb_true_iff, !Z.eqb_eq, Z.eqb_neq.
        subst Y. divmod.
      - symmetry. apply not_true_is_false. intros C.
        rewrite andb_true_iff, orb_true_iff, negb_true_iff, !Z.eqb_eq, Z.eqb_neq in C.
        assert (is_leap Y = true); [| congruence].
        apply is_leap_spec. subst Y. divmod. }
    assert (0 ≤ r4 < 365 + (if leapyear then 1 else 0)) as Hr
      by (destruct leapyear; lia).
    pose proof (month_day_spec leapyear r4 Hr) as Hmd.
    unfold month_day_ok in Hmd.
    destruct (month_day leapyear r4) as [m d].
    destruct Hmd as (Hm & Hd & Hsum).
    split.
    + apply valid_date_spec. unfold days_in_month. rewrite L. subst Y. lia.
    + unfold ymd2ord, days_before_month. rewrite L.
      assert (days_before_year Y = 146097 * n400 + 36524 * n100 + 1461 * n4 + 365 * n1)
        as -> by (unfold days_before_year; subst Y; divmod).
      lia.
Qed.

Lemma days_before_year_1 : days_before_year 1 = 0.
Proof. reflexivity. Qed.

Lemma days_before_year_10000 : days_before_year 10000 = MAXORDINAL.
Proof. reflexivity. Qed.

Lemma ymd2ord_bounds y m d :
  valid_date y m d = true →
  days_before_year y < ymd2ord y m d ≤ days_before_year (y + 1).
Proof.
  rewrite valid_date_spec. unfold days_in_month. intros (Hy & Hm & Hd).
  rewrite days_before_year_succ. unfold ymd2ord, days_before_month.
  pose proof (month_offset_bounds (is_leap y) m Hm). lia.
Qed.

Lemma ymd2ord_range y m d :
  valid_date y m d = true → 1 ≤ ymd2ord y m d ≤ MAXORDINAL.
Proof.
  intros V. pose proof (ymd2ord_bounds y m d V) as B.
  apply valid_date_spec in V as (Hy & _).
  pose proof (days_before_year_mono 1 y ltac:(lia)).
  pose proof (days_before_year_mono (y + 1) 10000 ltac:(lia)).
  rewrite days_before_year_1 in *. rewrite days_before_year_10000 in *. lia.
Qed.

(** The instant of a datetime, split into its day and the time in it. *)
Lemma to_us_split dt :
  to_us dt =
  ymd2ord (year dt) (month dt) (day dt) * us_per_day +
  (((hour dt * 60 + minute dt) * 60 + second dt) * us_per_second + microsecond dt).
Proof. unfold to_us, us_per_day, us_per_hour, us_per_second. lia. Qed.

Lemma valid_datetime_spec dt :
  valid_datetime dt = true ↔
  valid_date (year dt) (month dt) (day dt) = true ∧
  0 ≤ hour dt ≤ 23 ∧ 0 ≤ minute dt ≤ 59 ∧ 0 ≤ second dt ≤ 59 ∧
  0 ≤ microsecond dt ≤ 999999.
Proof. unfold valid_datetime. rewrite andb_true_iff, valid_time_spec. tauto. Qed.

Lemma to_us_day dt :
  valid_datetime dt = true →
  to_us dt / us_per_day = ymd2ord (year dt) (month dt) (day dt).
Proof.
  rewrite valid_datetime_spec. intros (_ & Hh & Hm & Hs & Hu).
  rewrite to_us_split. unfold us_per_day, us_per_hour, us_per_second in *.
  divmod.
Qed.

Lemma to_us_range dt :
  valid_datetime dt = true →
  us_per_day ≤ to_us dt < (MAXORDINAL + 1) * us_per_day.
Proof.
  intros V. pose proof (to_us_day dt V) as D.
  apply valid_datetime_spec in V as (V & Hh & Hm & Hs & Hu).
  pose proof (ymd2ord_range _ _ _ V) as R.
  rewrite to_us_split. unfold us_per_day, us_per_hour, us_per_second in *. lia.
Qed.

Lemma of_us_spec z :
  1 ≤ z / us_per_day ≤ MAXORDINAL →
  valid_datetime (of_us z) = true ∧ to_us (of_us z) = z.
Proof.
  intros Hz. unfold of_us.
  pose proof (ord2ymd_spec (z / us_per_day) Hz) as Ho.
  destruct (ord2ymd (z / us_per_day)) as [[y m] d]. destruct Ho as [V E].
  split.
  - apply valid_datetime_spec. simpl. split; [exact V |].
    unfold us_per_day, us_per_hour, us_per_second. divmod.
  - rewrite to_us_split. simpl. rewrite E.
    unfold us_per_day, us_per_hour, us_per_second. divmod.
Qed.

Lemma add_Some dt delta dt' :
  add dt delta = Some dt' →
  valid_datetime dt' = true ∧ to_us dt' = to_us dt + delta.
Proof.
  unfold add. destruct (_ && _) eqn:R; [| discriminate].
  intros [= <-]. apply andb_true_iff in R as [R1 R2].
  apply Z.ltb_lt in R1. apply Z.leb_le in R2.
  apply of_us_spec. lia.
Qed.

Lemma add_is_Some dt delta :
  us_per_day ≤ to_us dt + delta < (MAXORDINAL + 1) * us_per_day →
  is_Some (add dt delta).
Proof.
  intros R. unfold add.
  assert (1 ≤ (to_us dt + delta) / us_per_day ≤ MAXORDINAL) as D
    by (unfold us_per_day, us_per_hour, us_per_second, MAXORDINAL in *; divmod).
  replace ((0 <? _) && _) with true; [eauto |].
  symmetry. apply andb_true_iff. rewrite Z.ltb_lt, Z.leb_le. lia.
Qed.

Lemma sub_Some dt delta dt' :
  sub dt delta = Some dt' →
  valid_datetime dt' = true ∧ to_us dt' = to_us dt - delta.
Proof. unfold sub. intros H. apply add_Some in H. intuition lia. Qed.

Lemma datetime_new_Some y m d h dt :
  datetime_new y m d h = Some dt ↔
  valid_date y m d = true ∧ 0 ≤ h ≤ 23 ∧ dt = mk_datetime y m d h 0 0 0.
Proof.
  unfold datetime_new. destruct (_ && _) eqn:V.
  - apply andb_true_iff in V as [V T]. apply valid_time_spec in T.
    split; [intros [= <-] | intros (_ & _ & ->)]; intuition.
  - split; [discriminate |]. intros (V' & T & _).
    rewrite V' in V. simpl in V.
    assert (valid_time h 0 0 0 = true); [| congruence].
    apply valid_time_spec. lia.
Qed.

Lemma datetime_new_None y m d h :
  datetime_new y m d h = None ↔ valid_date y m d = false ∨ ¬ 0 ≤ h ≤ 23.
Proof.
  unfold datetime_new. destruct (valid_date y m d); simpl.
  - destruct (valid_time h 0 0 0) eqn:T.
    + apply valid_time_spec in T. split; [discriminate |]. intros [| N]; [discriminate | lia].
    + split; [| reflexivity]. intros _. right. intros N.
      assert (valid_time h 0 0 0 = true); [| congruence]. apply valid_time_spec. lia.
  - split; [auto | reflexivity].
Qed.

Lemma datetime_new_valid y m d h dt :
  datetime_new y m d h = Some dt → valid_datetime dt = true.
Proof.
  intros (V & T & ->)%datetime_new_Some. apply valid_datetime_spec. simpl.
  intuition lia.
Qed.

Lemma datetime_new_to_us y m d h dt :
  datetime_new y m d h = Some dt →
  to_us dt = ymd2ord y m d * us_per_day + h * us_per_hour.
Proof.
  intros (V & T & ->)%datetime_new_Some. unfold to_us. simpl.
  unfold us_per_day, us_per_hour, us_per_second. lia.
Qed.

Lemma instant_mono a b : to_us a ≤ to_us b → instant a ≤ instant b.
Proof. unfold instant, us_per_second. intros. divmod. Qed.

Lemma instant_lt a b :
  to_us a mod us_per_second = 0 → to_us a + us_per_second ≤ to_us b →
  instant a < instant b.
Proof. unfold instant, us_per_second. intros. divmod. Qed.

Lemma instant_eq a b : to_us a = to_us b → instant a = instant b.
Proof. unfold instant. congruence. Qed.

Lemma instant_shift a b k :
  to_us b = to_us a + timedelta_seconds k → instant b = instant a + k.
Proof. unfold instant, timedelta_seconds, us_per_second. intros. divmod. Qed.
End CalendarFacts.

(** ** Loops and the invariant *)

Module UtilsFacts.
Import Calendar Utils Spec CalendarFacts.

Lemma range_cons a b : a < b → range a b = a :: range (a + 1) b.
Proof.
  intros H. unfold range. rewrite seqZ_cons by lia.
  f_equal. f_equal; lia.
Qed.

Lemma range_nil a b : b ≤ a → range a b = [].
Proof. intros H. unfold range. apply seqZ_nil. lia. Qed.

Lemma elem_of_range a b i : i ∈ range a b ↔ a ≤ i < b.
Proof. unfold range. rewrite elem_of_seqZ. lia. Qed.

Section loops.
Context {S : Type}.
Implicit Types (body : Z → S → option (flow S)).

(** A loop over [range a b] that moves a frontier [f i] along. *)
Lemma for_each_range_inv (P : Z → S → Prop) (D : S → Prop) body (f : Z → Z) :
  (∀ F F' s, D s → P F s → F ≤ F' → P F' s) →
  ∀ (n : nat) a b, b - a = Z.of_nat n →
  (∀ i, a ≤ i < b → f i ≤ f (i + 1)) →
  (∀ i s r, a ≤ i < b → P (f i) s → body i s = Some r →
     match r with
     | Next s' => P (f (i + 1)) s'
     | Break s' => P (f (i + 1)) s' ∧ D s'
     end) →
  ∀ s s', P (f a) s → for_each body (range a b) s = Some s' → P (f b) s'.
Proof.
  intros Hdead n. induction n as [| n IH]; intros a b Hn Hmono Hbody s s' HP Hrun.
  - rewrite range_nil in Hrun by lia. simpl in Hrun.
    replace b with a by lia. congruence.
  - rewrite range_cons in Hrun by lia. simpl in Hrun.
    destruct (body a s) as [r |] eqn:Hr; [| discriminate].
    pose proof (Hbody a s r ltac:(lia) HP Hr) as Hstep.
    destruct r as [s1 | s1].
    + apply (IH (a + 1) b ltac:(lia)) with (s := s1); auto.
      * intros i Hi. apply Hmono. lia.
      * intros i s2 r Hi. apply Hbody. lia.
    + injection Hrun as <-. destruct Hstep as [HP1 HD].
      apply (Hdead (f (a + 1))); auto.
      assert (∀ k : nat, a + 1 + Z.of_nat k ≤ b → f (a + 1) ≤ f (a + 1 + Z.of_nat k)) as Hk.
      { induction k as [| k IHk]; intros Hle.
        - replace (a + 1 + Z.of_nat 0%nat) with (a + 1) by lia. lia.
        - etrans; [apply IHk; lia |].
          replace (a + 1 + Z.of_nat (Datatypes.S k)) with (a + 1 + Z.of_nat k + 1) by lia.
          apply Hmono. lia. }
      specialize (Hk n ltac:(lia)).
      replace (a + 1 + Z.of_nat n) with b in Hk by lia. exact Hk.
Qed.

(** A loop whose body leaves the state alone. *)
Lemma for_each_idle {A : Type} (body : A → S → option (flow S)) xs s :
  (∀ x, x ∈ xs → body x s = Some (Next s)) → for_each body xs s = Some s.
Proof.
  induction xs as [| x xs IH]; intros H; simpl; [reflexivity |].
  rewrite (H x) by left. apply IH. intros y Hy. apply H. by right.
Qed.

(** A loop whose body always returns, under an invariant [I]. *)
Lemma for_each_total {A : Type} (I : S → Prop) (body : A → S → option (flow S)) xs :
  (∀ x s, x ∈ xs → I s → ∃ r, body x s = Some r ∧ I (state_of r)) →
  ∀ s, I s → ∃ s', for_each body xs s = Some s' ∧ I s'.
Proof.
  induction xs as [| x xs IH]; intros H s Hs; simpl; [eauto |].
  destruct (H x s ltac:(left) Hs) as (r & -> & Hr).
  destruct r as [s1 | s1]; simpl in Hr; [| eauto].
  apply IH; auto. intros y s2 Hy. apply H. by right.
Qed.

Lemma bind_Some_eq {A B : Type} (f : A → option B) (x : A) : Some x ≫= f = f x.
Proof. reflexivity. Qed.

Lemma bind_None_eq {A B : Type} (f : A → option B) : None ≫= f = None.
Proof. reflexivity. Qed.

Lemma inner_Some (loop : S → option S) s r :
  inner loop s = Some r → ∃ s', r = Next s' ∧ loop s = Some s'.
Proof.
  unfold inner. destruct (loop s) as [s' |]; simpl; [| discriminate].
  intros [= <-]. eauto.
Qed.
End loops.

(** *** Lists of windows *)

Lemma adjacent_nil {A} (R : A → A → Prop) : adjacent R [].
Proof. intros i a b H. rewrite lookup_nil in H. discriminate. Qed.

Lemma adjacent_snoc {A} (R : A → A → Prop) l x :
  adjacent R l → (∀ y, last l = Some y → R y x) → adjacent R (l ++ [x]).
Proof.
  intros Hl Hx i a b Ha Hb.
  destruct (decide (S i < length l)%nat) as [Hlt | Hge].
  - rewrite lookup_app_l in Ha by lia. rewrite lookup_app_l in Hb by lia. eauto.
  - assert (S i = length l) as Hi.
    { apply lookup_lt_Some in Hb. rewrite length_app in Hb. simpl in Hb. lia. }
    rewrite lookup_app_l in Ha by lia.
    rewrite lookup_app_r in Hb by lia.
    replace (S i - length l)%nat with 0%nat in Hb by lia. injection Hb as <-.
    apply Hx. rewrite last_lookup. rewrite <- Hi. simpl. exact Ha.
Qed.

Section invariant.
Context (shape : window → Prop) (gap : Z) (now : datetime).
Hypothesis gap_nonneg : 0 ≤ gap.

Lemma inv_empty F : inv shape gap now F (mk_locals [] false).
Proof.
  split; simpl; auto using adjacent_nil; discriminate.
Qed.

Lemma inv_dead F F' st :
  dead now F → inv shape gap now F st → F ≤ F' → inv shape gap now F' st.
Proof.
  intros HD [] HF.
  assert (dead now F') by (unfold dead in *; lia).
  split; auto.
Qed.

Lemma inv_stopped F F' st :
  stop st = true → inv shape gap now F st → F ≤ F' → inv shape gap now F' st.
Proof. intros Hs Hi. apply inv_dead; auto. by apply (inv_stop _ _ _ _ _ Hi). Qed.

Lemma inv_append F F' st flag w :
  inv shape gap now F st →
  wf now w → shape w → to_us (fst w) = F →
  (to_us (snd w) + gap = F' ∨ dead now F') →
  (flag = true → dead now F') →
  inv shape gap now F' (append (mk_locals (day_periods st) flag) w).
Proof.
  intros [Hwf Hsh Hch Hlast Hstop] Hw Hs HF HF' Hflag.
  assert (¬ dead now F) as Hlive.
  { destruct Hw as (_ & _ & _ & Hold & _). unfold dead. lia. }
  split; simpl.
  - apply Forall_app. split; [exact Hwf | by constructor].
  - apply Forall_app. split; [exact Hsh | by constructor].
  - apply adjacent_snoc; [exact Hch |].
    intros y Hy. destruct (Hlast y Hy) as [E | E]; [lia | contradiction].
  - intros w'. rewrite last_snoc. intros [= <-]. exact HF'.
  - exact Hflag.
Qed.
End invariant.

Lemma check_invalid_date_false now y m d h :
  check_invalid_date now y m d h = false ↔
  ∃ dt, datetime_new y m d h = Some dt ∧
        to_us dt + timedelta_seconds (90 * 60) ≤ to_us now.
Proof.
  unfold check_invalid_date, timestamp.
  destruct (datetime_new y m d h) as [dt |].
  - destruct (_ <? _) eqn:C.
    + apply Z.ltb_lt in C. split; [discriminate |].
      intros (dt' & [= <-] & H). lia.
    + apply Z.ltb_ge in C. split; [| reflexivity].
      intros _. exists dt. split; [reflexivity | lia].
  - split; [discriminate |]. intros (dt & [=] & _).
Qed.

Lemma check_invalid_date_invalid now y m d h :
  valid_date y m d = false → check_invalid_date now y m d h = true.
Proof.
  intros V. unfold check_invalid_date.
  replace (datetime_new y m d h) with (@None datetime); [reflexivity |].
  symmetry. apply datetime_new_None. by left.
Qed.

Lemma check_invalid_date_dead now y m d h dt :
  datetime_new y m d h = Some dt → dead now (to_us dt) →
  check_invalid_date now y m d h = true.
Proof.
  intros E D. apply not_false_iff_true. intros C.
  apply check_invalid_date_false in C as (dt' & E' & H).
  unfold dead in D. assert (dt' = dt) as -> by congruence. lia.
Qed.

Lemma clip_Some now clipped e st e' st' :
  clip now clipped e st = Some (e', st') →
  (e' = e ∧ st' = st ∧ to_us e ≤ to_us now) ∨
  (clipped = Some e' ∧ st' = mk_locals (day_periods st) true ∧ to_us now < to_us e).
Proof.
  unfold clip, diff. destruct (_ <? _) eqn:C.
  - apply Z.ltb_lt in C. destruct clipped as [c |]; simpl; [| discriminate].
    intros [= <- <-]. right. repeat split; auto. lia.
  - apply Z.ltb_ge in C. intros [= <- <-]. left. repeat split; auto. lia.
Qed.


(** *** The frontier along the calendar *)

Lemma month_start_succ y m :
  1 ≤ m ≤ 12 → month_start y (m + 1) = day_start y m (days_in_month y m + 1).
Proof.
  intros Hm. unfold month_start, day_start, ymd2ord, days_before_month, days_in_month.
  rewrite month_offset_succ by lia.
  unfold us_per_day, us_per_hour, us_per_second. lia.
Qed.

Lemma month_start_1 y : 1 ≤ y ≤ 9999 → month_start y 1 = year_start y.
Proof.
  intros Hy. unfold month_start, day_start, year_start, ymd2ord, days_before_month.
  replace (Z.min (Z.max y 1) 10000) with y by lia.
  change (month_offset (is_leap y) 1) with 0.
  unfold us_per_day, us_per_hour, us_per_second. lia.
Qed.

Lemma month_start_13 y : 1 ≤ y ≤ 9999 → month_start y 13 = year_start (y + 1).
Proof.
  intros Hy. unfold month_start, day_start, year_start, ymd2ord, days_before_month.
  replace (Z.min (Z.max (y + 1) 1) 10000) with (y + 1) by lia.
  rewrite days_before_year_succ.
  change (month_offset (is_leap y) 13) with (365 + (if is_leap y then 1 else 0)).
  unfold us_per_day, us_per_hour, us_per_second. lia.
Qed.

Lemma year_start_outside y : ¬ 1 ≤ y ≤ 9999 → year_start (y + 1) = year_start y.
Proof.
  intros Hy. unfold year_start.
  by replace (Z.min (Z.max (y + 1) 1) 10000) with (Z.min (Z.max y 1) 10000) by lia.
Qed.

Lemma year_start_mono y y' : y ≤ y' → year_start y ≤ year_start y'.
Proof.
  intros H. unfold year_start.
  pose proof (days_before_year_mono (Z.min (Z.max y 1) 10000)
                (Z.min (Z.max y' 1) 10000) ltac:(lia)).
  unfold us_per_day, us_per_hour, us_per_second. lia.
Qed.

Lemma valid_date_outside y m d : ¬ 1 ≤ y ≤ 9999 → valid_date y m d = false.
Proof.
  intros Hy. apply not_true_is_false. rewrite valid_date_spec. lia.
Qed.

Lemma valid_date_late y m d : days_in_month y m < d → valid_date y m d = false.
Proof.
  intros Hd. apply not_true_is_false. rewrite valid_date_spec. lia.
Qed.

Section calendar.
Context (P : Z → locals → Prop) (D : locals → Prop).
Hypothesis P_dead : ∀ F F' s, D s → P F s → F ≤ F' → P F' s.

Lemma for_each_range (body : Z → locals → option (flow locals)) (f : Z → Z) a b :
  a ≤ b →
  (∀ i, a ≤ i < b → f i ≤ f (i + 1)) →
  (∀ i s r, a ≤ i < b → P (f i) s → body i s = Some r → step P D (f (i + 1)) r) →
  ∀ s s', P (f a) s → for_each body (range a b) s = Some s' → P (f b) s'.
Proof.
  intros Hab. apply (for_each_range_inv P D body f P_dead (Z.to_nat (b - a))). lia.
Qed.

(** Days 1 to 31 of a month: the days that exist move the frontier by a
    day each, the others are skipped. *)
Lemma days_loop (body : Z → locals → option (flow locals)) y m :
  1 ≤ y ≤ 9999 → 1 ≤ m ≤ 12 →
  (∀ d s r, 1 ≤ d ≤ days_in_month y m → P (day_start y m d) s →
     body d s = Some r → step P D (day_start y m (d + 1)) r) →
  (∀ d s, days_in_month y m < d → body d s = Some (Next s)) →
  ∀ s s', P (month_start y m) s →
    for_each body (range 1 (31 + 1)) s = Some s' → P (month_start y (m + 1)) s'.
Proof.
  intros Hy Hm Hin Hout s s' HP Hrun.
  pose proof (month_length_pos (is_leap y) m Hm) as Hlen.
  fold (days_in_month y m) in Hlen.
  set (f := λ d, day_start y m (Z.min d (days_in_month y m + 1))).
  rewrite month_start_succ by lia.
  replace (day_start y m (days_in_month y m + 1)) with (f (31 + 1))
    by (unfold f; f_equal; lia).
  assert (P (f 1) s) as HP1.
  { unfold f. replace (Z.min 1 _) with 1 by lia. exact HP. }
  refine (for_each_range body f 1 (31 + 1) ltac:(lia) _ _ s s' HP1 Hrun).
  - intros i Hi. unfold f, day_start, ymd2ord, us_per_day, us_per_hour, us_per_second. lia.
  - intros d s1 r Hd HPd Hr. unfold f in *.
    destruct (decide (d ≤ days_in_month y m)) as [Hle | Hgt].
    + replace (Z.min (d + 1) _) with (d + 1) by lia.
      replace (Z.min d _) with d in HPd by lia. apply (Hin d s1); auto. lia.
    + rewrite Hout in Hr by lia. injection Hr as <-. simpl.
      replace (Z.min (d + 1) _) with (Z.min d (days_in_month y m + 1)) by lia.
      exact HPd.
Qed.

Lemma months_loop (body : Z → locals → option (flow locals)) y :
  1 ≤ y ≤ 9999 →
  (∀ m s r, 1 ≤ m ≤ 12 → P (month_start y m) s →
     body m s = Some r → step P D (month_start y (m + 1)) r) →
  ∀ s s', P (year_start y) s →
    for_each body (range 1 (12 + 1)) s = Some s' → P (year_start (y + 1)) s'.
Proof.
  intros Hy Hin s s' HP Hrun.
  rewrite <- month_start_13 by lia. rewrite <- month_start_1 in HP by lia.
  refine (for_each_range body (month_start y) 1 (12 + 1) ltac:(lia) _ _ s s' HP Hrun).
  - intros m Hm. rewrite month_start_succ by lia.
    pose proof (month_length_pos (is_leap y) m ltac:(lia)) as Hlen.
    fold (days_in_month y m) in Hlen.
    unfold month_start, day_start, ymd2ord, us_per_day, us_per_hour, us_per_second. lia.
  - intros m s1 r Hm. apply Hin. lia.
Qed.

Lemma years_loop (body : Z → locals → option (flow locals)) a b :
  a ≤ b →
  (∀ y s r, 1 ≤ y ≤ 9999 → P (year_start y) s →
     body y s = Some r → step P D (year_start (y + 1)) r) →
  (∀ y s, ¬ 1 ≤ y ≤ 9999 → body y s = Some (Next s)) →
  ∀ s s', P (year_start a) s →
    for_each body (range a b) s = Some s' → P (year_start b) s'.
Proof.
  intros Hab Hin Hout s s' HP Hrun.
  refine (for_each_range body year_start a b Hab _ _ s s' HP Hrun).
  - intros y Hy. apply year_start_mono. lia.
  - intros y s1 r Hy HP1 Hr.
    destruct (decide (1 ≤ y ≤ 9999)) as [Hv | Hv]; [by apply (Hin y s1) |].
    rewrite Hout in Hr by done. injection Hr as <-. simpl.
    by rewrite year_start_outside.
Qed.
End calendar.

End UtilsFacts.

(** ** The five branches of [get_periods] *)

Module PeriodFacts.
Import Calendar Utils Spec CalendarFacts UtilsFacts.


Lemma check_invalid_date_true now y m d h dt :
  check_invalid_date now y m d h = true → datetime_new y m d h = Some dt →
  dead now (to_us dt).
Proof.
  unfold check_invalid_date, timestamp, dead. intros C E. rewrite E in C.
  destruct (_ <? _) eqn:L; [| discriminate]. apply Z.ltb_lt in L. lia.
Qed.

Lemma datetime_new_aligned y m d h dt :
  datetime_new y m d h = Some dt → to_us dt mod us_per_second = 0.
Proof.
  intros E. rewrite (datetime_new_to_us _ _ _ _ _ E).
  unfold us_per_day, us_per_hour, us_per_second. divmod.
Qed.

Section emit.
Context (shape : window → Prop) (gap : Z) (now : datetime).
Hypothesis gap_nonneg : 0 ≤ gap.
Hypothesis now_valid : valid_datetime now = true.

Lemma inv_reject F F' st :
  inv shape gap now F st → dead now F → F ≤ F' →
  step (inv shape gap now) stopped F' (Next st).
Proof. intros Hi Hd HF. simpl. by apply (inv_dead shape gap now F F'). Qed.

(** A window is appended unclipped. *)
Lemma inv_emit_plain F F' st start e :
  inv shape gap now F st →
  valid_datetime start = true → to_us start mod us_per_second = 0 →
  to_us start = F →
  to_us start + timedelta_seconds (90 * 60) ≤ to_us now →
  valid_datetime e = true → to_us start + us_per_second ≤ to_us e →
  to_us e + gap = F' → to_us e ≤ to_us now →
  shape (start, e) →
  inv shape gap now F' (append st (start, e)).
Proof.
  intros Hi Vs Al HF Old Ve Len HF' Past Sh.
  destruct st as [acc flag].
  apply (inv_append shape gap now F F' (mk_locals acc flag) flag (start, e)); auto.
  - repeat split; simpl; auto.
  - intros ->. pose proof (inv_stop _ _ _ _ _ Hi eq_refl) as Hd.
    unfold dead in Hd. lia.
Qed.

(** A window is appended after the clipping against [now]. *)
Lemma inv_emit F F' st start e clipped e' st1 :
  inv shape gap now F st →
  valid_datetime start = true → to_us start mod us_per_second = 0 →
  to_us start = F →
  to_us start + timedelta_seconds (90 * 60) ≤ to_us now →
  valid_datetime e = true → to_us start + us_per_second ≤ to_us e →
  to_us e + gap = F' →
  clipped = Some now ∨ clipped = sub now (timedelta_hours 1) →
  clip now clipped e st = Some (e', st1) →
  shape (start, e') →
  inv shape gap now F' (append st1 (start, e')).
Proof.
  intros Hi Vs Al HF Old Ve Len HF' Hc Hclip Sh.
  apply clip_Some in Hclip as [(-> & -> & Past) | (-> & -> & Fut)].
  - by apply (inv_emit_plain F).
  - assert (valid_datetime e' = true ∧ to_us start + us_per_second ≤ to_us e'
            ∧ to_us e' ≤ to_us now) as (Ve' & Len' & Past').
    { destruct Hc as [[= ->] | Hsub].
      - unfold timedelta_seconds, us_per_second in *. repeat split; auto; lia.
      - symmetry in Hsub. apply sub_Some in Hsub as [V E].
        unfold timedelta_seconds, timedelta_hours, us_per_hour, us_per_second in *.
        repeat split; auto; lia. }
    assert (dead now F') as Hd.
    { unfold dead, timedelta_seconds, us_per_second. lia. }
    apply (inv_append shape gap now F F' st true (start, e')); auto.
    repeat split; simpl; auto.
Qed.

Lemma leave_step F st :
  inv shape gap now F st → step (inv shape gap now) stopped F (leave st).
Proof.
  intros Hi. unfold leave. destruct (stop st) eqn:E; simpl; [split |]; auto.
Qed.
End emit.

(** *** Hourly *)

Section hourly.
Context (now : datetime).
Hypothesis now_valid : valid_datetime now = true.

Local Abbreviation P := (inv hour_shape 0 now).

Lemma hourly_body_step y m d h st r :
  valid_date y m d = true → 0 ≤ h ≤ 23 →
  P (day_start y m d + h * us_per_hour) st →
  hourly_body now y m d h st = Some r →
  step P stopped (day_start y m d + (h + 1) * us_per_hour) r.
Proof.
  intros V Hh Hi. unfold hourly_body.
  assert (∃ dt, datetime_new y m d h = Some dt) as [dt Hdt]
    by (eexists; apply datetime_new_Some; eauto).
  pose proof (datetime_new_to_us _ _ _ _ _ Hdt) as Hus.
  fold (day_start y m d) in Hus.
  destruct (check_invalid_date now y m d h) eqn:C.
  - intros [= <-]. apply (inv_reject _ _ _ (day_start y m d + h * us_per_hour)); auto.
    + rewrite <- Hus. by apply (check_invalid_date_true now y m d h).
    + unfold us_per_hour, us_per_second. lia.
  - apply check_invalid_date_false in C as (dt' & Hdt' & Old).
    assert (dt' = dt) as -> by congruence.
    rewrite Hdt, bind_Some_eq.
    destruct (add dt (timedelta_hours 1)) as [e |] eqn:Ha;
      [rewrite bind_Some_eq | rewrite bind_None_eq; discriminate].
    intros [= <-]. simpl.
    pose proof (add_Some _ _ _ Ha) as [Ve He].
    apply (inv_emit_plain hour_shape 0 now
             (day_start y m d + h * us_per_hour)); auto.
    + by apply (datetime_new_valid y m d h).
    + by apply (datetime_new_aligned y m d h).
    + unfold timedelta_hours, us_per_hour, us_per_second in *. lia.
    + unfold timedelta_hours, us_per_hour, us_per_second in *. lia.
    + unfold timedelta_hours, timedelta_seconds, us_per_hour, us_per_second in *. lia.
    + exists y, m, d, h. auto.
Qed.

Lemma hourly_body_idle y m d h st :
  valid_date y m d = false → hourly_body now y m d h st = Some (Next st).
Proof.
  intros V. unfold hourly_body. by rewrite check_invalid_date_invalid.
Qed.

Lemma inv_stopped_mono F F' st :
  stopped st → P F st → F ≤ F' → P F' st.
Proof. apply inv_stopped. Qed.

Lemma hourly_day y m d st r :
  valid_date y m d = true →
  P (day_start y m d) st →
  inner (for_each (hourly_body now y m d) (range 0 (23 + 1))) st = Some r →
  step P stopped (day_start y m (d + 1)) r.
Proof.
  intros V Hi (st' & -> & Hrun)%inner_Some. simpl.
  set (f := λ h, day_start y m d + h * us_per_hour).
  replace (day_start y m (d + 1)) with (f (23 + 1))
    by (unfold f, day_start, ymd2ord, us_per_day; lia).
  assert (P (f 0) st) as Hi0 by (unfold f; by rewrite Z.add_0_r).
  refine (for_each_range P stopped inv_stopped_mono _ f 0 (23 + 1) ltac:(lia)
            _ _ st st' Hi0 Hrun).
  - intros h Hh. unfold f, us_per_hour, us_per_second. lia.
  - intros h s r Hh HP Hr. apply (hourly_body_step y m d h s); auto. lia.
Qed.

(** The frontier at the end of the loop is the start of the year after
    [stop_year]. *)
Lemma hourly_frontier start_year stop_year st :
  start_year ≤ stop_year + 1 →
  hourly now start_year stop_year (mk_locals [] false) = Some st →
  P (year_start (stop_year + 1)) st.
Proof.
  unfold hourly. intros Hle Hrun.
  refine (years_loop P stopped inv_stopped_mono _ start_year (stop_year + 1) Hle
            _ _ _ st (inv_empty _ _ _ _) Hrun).
  - intros y s r Hy HP (s' & -> & Hr)%inner_Some. simpl.
    refine (months_loop P stopped inv_stopped_mono _ y Hy _ s s' HP Hr).
    intros m s1 r1 Hm HP1 (s1' & -> & Hr1)%inner_Some. simpl.
    refine (days_loop P stopped inv_stopped_mono _ y m Hy Hm _ _ s1 s1' HP1 Hr1).
    + intros d s2 r2 Hd HP2 Hr2. apply (hourly_day y m d s2); auto.
      apply valid_date_spec. lia.
    + intros d s2 Hd. unfold inner. rewrite for_each_idle; [reflexivity |].
      intros h _. apply hourly_body_idle. by apply valid_date_late.
  - intros y s Hy. unfold inner. rewrite for_each_idle; [reflexivity |].
    intros m _. unfold inner. rewrite for_each_idle; [reflexivity |].
    intros d _. unfold inner. rewrite for_each_idle; [reflexivity |].
    intros h _. apply hourly_body_idle. by apply valid_date_outside.
Qed.

Lemma hourly_inv start_year stop_year st :
  hourly now start_year stop_year (mk_locals [] false) = Some st →
  ∃ F, P F st.
Proof.
  intros Hrun.
  destruct (decide (start_year ≤ stop_year + 1)) as [Hle | Hgt].
  - exists (year_start (stop_year + 1)). by apply (hourly_frontier start_year).
  - unfold hourly in Hrun.
    rewrite (range_nil start_year (stop_year + 1)) in Hrun by lia. simpl in Hrun.
    injection Hrun as <-. exists 0. apply inv_empty.
Qed.
End hourly.


Lemma clip_shape now clipped e st e' st1 :
  clip now clipped e st = Some (e', st1) → e' = e ∨ clipped = Some e'.
Proof. intros [(-> & _) | (-> & _)]%clip_Some; auto. Qed.

(** *** Daily *)

Section daily.
Context (now : datetime).
Hypothesis now_valid : valid_datetime now = true.

Local Abbreviation P := (inv (day_shape now) 0 now).

Lemma daily_body_step y m d st r :
  valid_date y m d = true →
  P (day_start y m d) st →
  daily_body now y m d st = Some r →
  step P stopped (day_start y m (d + 1)) r.
Proof.
  intros V Hi. unfold daily_body.
  assert (∃ dt, datetime_new y m d 0 = Some dt) as [dt Hdt]
    by (eexists; apply datetime_new_Some; eauto with lia).
  pose proof (datetime_new_to_us _ _ _ _ _ Hdt) as Hus.
  fold (day_start y m d) in Hus. rewrite Z.mul_0_l, Z.add_0_r in Hus.
  assert (day_start y m (d + 1) = day_start y m d + us_per_day) as HF
    by (unfold day_start, ymd2ord; lia).
  destruct (check_invalid_date now y m d 0) eqn:C.
  - intros [= <-]. apply (inv_reject _ _ _ (day_start y m d)); auto.
    + rewrite <- Hus. by apply (check_invalid_date_true now y m d 0).
    + unfold us_per_day, us_per_hour, us_per_second in *. lia.
  - apply check_invalid_date_false in C as (dt' & Hdt' & Old).
    assert (dt' = dt) as -> by congruence.
    rewrite Hdt, bind_Some_eq.
    destruct (add dt (timedelta_days 1)) as [e |] eqn:Ha;
      [rewrite bind_Some_eq | rewrite bind_None_eq; discriminate].
    destruct (clip now _ e st) as [[e' st1] |] eqn:Hc;
      [rewrite bind_Some_eq | rewrite bind_None_eq; discriminate].
    intros [= <-]. apply leave_step.
    pose proof (add_Some _ _ _ Ha) as [Ve He].
    unfold timedelta_days in He.
    apply (inv_emit (day_shape now) 0 now ltac:(lia) now_valid
             (day_start y m d) (day_start y m (d + 1)) st dt e
             (sub now (timedelta_hours 1)) e' st1); auto.
    + by apply (datetime_new_valid y m d 0).
    + by apply (datetime_new_aligned y m d 0).
    + unfold us_per_day, us_per_hour, us_per_second in *. lia.
    + lia.
    + exists y, m, d. split; [exact Hdt |]. simpl.
      apply clip_shape in Hc as [-> | ->]; auto.
Qed.

Lemma daily_body_idle y m d st :
  valid_date y m d = false → daily_body now y m d st = Some (Next st).
Proof. intros V. unfold daily_body. by rewrite check_invalid_date_invalid. Qed.

(** The frontier at the end of the loop is the start of the year after
    [stop_year]. *)
Lemma daily_frontier start_year stop_year st :
  start_year ≤ stop_year + 1 →
  daily now start_year stop_year (mk_locals [] false) = Some st →
  P (year_start (stop_year + 1)) st.
Proof.
  unfold daily. intros Hle Hrun.
  refine (years_loop P stopped (inv_stopped _ _ _) _ start_year (stop_year + 1) Hle
            _ _ _ st (inv_empty _ _ _ _) Hrun).
  - intros y s r Hy HP (s' & -> & Hr)%inner_Some. simpl.
    refine (months_loop P stopped (inv_stopped _ _ _) _ y Hy _ s s' HP Hr).
    intros m s1 r1 Hm HP1 (s1' & -> & Hr1)%inner_Some. simpl.
    refine (days_loop P stopped (inv_stopped _ _ _) _ y m Hy Hm _ _ s1 s1' HP1 Hr1).
    + intros d s2 r2 Hd HP2 Hr2. apply (daily_body_step y m d s2); auto.
      apply valid_date_spec. lia.
    + intros d s2 Hd. apply daily_body_idle. by apply valid_date_late.
  - intros y s Hy. unfold inner. rewrite for_each_idle; [reflexivity |].
    intros m _. unfold inner. rewrite for_each_idle; [reflexivity |].
    intros d _. apply daily_body_idle. by apply valid_date_outside.
Qed.

Lemma daily_inv start_year stop_year st :
  daily now start_year stop_year (mk_locals [] false) = Some st →
  ∃ F, P F st.
Proof.
  intros Hrun.
  destruct (decide (start_year ≤ stop_year + 1)) as [Hle | Hgt].
  - exists (year_start (stop_year + 1)). by apply (daily_frontier start_year).
  - unfold daily in Hrun.
    rewrite (range_nil start_year (stop_year + 1)) in Hrun by lia. simpl in Hrun.
    injection Hrun as <-. exists 0. apply inv_empty.
Qed.
End daily.

(** *** Monthly *)

Lemma month_after_start y m nxt :
  1 ≤ y ≤ 9999 → 1 ≤ m ≤ 12 →
  datetime_new (month_after y m).1 (month_after y m).2 1 0 = Some nxt →
  to_us nxt = month_start y (m + 1).
Proof.
  intros Hy Hm Hn. rewrite (datetime_new_to_us _ _ _ _ _ Hn).
  unfold month_after in *. destruct (12 <? m + 1) eqn:L; simpl in *.
  - apply Z.ltb_lt in L. assert (m = 12) as -> by lia.
    apply datetime_new_Some in Hn as (V & _). apply valid_date_spec in V.
    change (12 + 1) with 13. rewrite month_start_13 by lia.
    rewrite <- month_start_1 by lia. unfold month_start, day_start. lia.
  - unfold month_start, day_start. lia.
Qed.

Lemma month_start_gap y m :
  1 ≤ m ≤ 12 → month_start y m + 28 * us_per_day ≤ month_start y (m + 1).
Proof.
  intros Hm. rewrite month_start_succ by lia.
  pose proof (month_length_pos (is_leap y) m Hm) as Hlen.
  fold (days_in_month y m) in Hlen.
  unfold month_start, day_start, ymd2ord, us_per_day, us_per_hour, us_per_second. lia.
Qed.

Section monthly.
Context (now : datetime).
Hypothesis now_valid : valid_datetime now = true.

Local Abbreviation P := (inv (month_shape now) (timedelta_seconds 1) now).

Lemma monthly_body_step y m st r :
  1 ≤ y ≤ 9999 → 1 ≤ m ≤ 12 →
  P (month_start y m) st →
  monthly_body now y m st = Some r →
  step P stopped (month_start y (m + 1)) r.
Proof.
  intros Hy Hm Hi. unfold monthly_body.
  pose proof (month_length_pos (is_leap y) m Hm) as Hlen.
  assert (∃ dt, datetime_new y m 1 0 = Some dt) as [dt Hdt].
  { eexists. apply datetime_new_Some. split; [| eauto with lia].
    apply valid_date_spec. unfold days_in_month. lia. }
  pose proof (datetime_new_to_us _ _ _ _ _ Hdt) as Hus.
  fold (day_start y m 1) in Hus. fold (month_start y m) in Hus.
  rewrite Z.mul_0_l, Z.add_0_r in Hus.
  pose proof (month_start_gap y m Hm) as Hgap.
  destruct (check_invalid_date now y m 1 0) eqn:C.
  - intros [= <-]. apply (inv_reject _ _ _ (month_start y m)); auto.
    + rewrite <- Hus. by apply (check_invalid_date_true now y m 1 0).
    + unfold us_per_day, us_per_hour, us_per_second in *. lia.
  - apply check_invalid_date_false in C as (dt' & Hdt' & Old).
    assert (dt' = dt) as -> by congruence.
    rewrite Hdt, bind_Some_eq.
    fold (month_after y m).
    replace (if 12 <? m + 1 then (y + 1, 1) else (y, m + 1)) with (month_after y m)
      by reflexivity.
    destruct (month_after y m) as [ny nm] eqn:Hma.
    destruct (datetime_new ny nm 1 0) as [nxt |] eqn:Hn;
      [rewrite bind_Some_eq | rewrite bind_None_eq; discriminate].
    destruct (sub nxt (timedelta_seconds 1)) as [e |] eqn:Hs;
      [rewrite bind_Some_eq | rewrite bind_None_eq; discriminate].
    destruct (clip now _ e st) as [[e' st1] |] eqn:Hc;
      [rewrite bind_Some_eq | rewrite bind_None_eq; discriminate].
    intros [= <-]. apply leave_step.
    pose proof (sub_Some _ _ _ Hs) as [Ve He].
    assert (to_us nxt = month_start y (m + 1)) as Hnxt.
    { apply month_after_start; auto. by rewrite Hma. }
    unfold timedelta_seconds in *.
    apply (inv_emit (month_shape now) (1 * us_per_second) now
             ltac:(unfold us_per_second; lia) now_valid
             (month_start y m) (month_start y (m + 1)) st dt e (Some now) e' st1); auto.
    + by apply (datetime_new_valid y m 1 0).
    + by apply (datetime_new_aligned y m 1 0).
    + unfold us_per_day, us_per_hour, us_per_second in *. lia.
    + lia.
    + exists y, m, nxt. rewrite Hma. simpl. split; [exact Hdt |]. split; [exact Hn |].
      apply clip_shape in Hc as [-> | [= ->]]; auto.
Qed.

Lemma monthly_body_idle y m st :
  ¬ 1 ≤ y ≤ 9999 → monthly_body now y m st = Some (Next st).
Proof.
  intros V. unfold monthly_body.
  rewrite check_invalid_date_invalid; [done | by apply valid_date_outside].
Qed.

(** The frontier at the end of the loop is the start of the year after
    [stop_year]. *)
Lemma monthly_frontier start_year stop_year st :
  start_year ≤ stop_year + 1 →
  monthly now start_year stop_year (mk_locals [] false) = Some st →
  P (year_start (stop_year + 1)) st.
Proof.
  unfold monthly. intros Hle Hrun.
  refine (years_loop P stopped (inv_stopped _ _ _) _ start_year (stop_year + 1) Hle
            _ _ _ st (inv_empty _ _ _ _) Hrun).
  - intros y s r Hy HP (s' & -> & Hr)%inner_Some. simpl.
    refine (months_loop P stopped (inv_stopped _ _ _) _ y Hy _ s s' HP Hr).
    intros m s1 r1 Hm HP1 Hr1. by apply (monthly_body_step y m s1).
  - intros y s Hy. unfold inner. rewrite for_each_idle; [reflexivity |].
    intros m _. by apply monthly_body_idle.
Qed.

Lemma monthly_inv start_year stop_year st :
  monthly now start_year stop_year (mk_locals [] false) = Some st →
  ∃ F, P F st.
Proof.
  intros Hrun.
  destruct (decide (start_year ≤ stop_year + 1)) as [Hle | Hgt].
  - exists (year_start (stop_year + 1)). by apply (monthly_frontier start_year).
  - unfold monthly in Hrun.
    rewrite (range_nil start_year (stop_year + 1)) in Hrun by lia. simpl in Hrun.
    injection Hrun as <-. exists 0. apply inv_empty.
Qed.
End monthly.


(** *** Yearly *)

Lemma year_start_new y dt :
  datetime_new y 1 1 0 = Some dt → to_us dt = year_start y.
Proof.
  intros Hn. rewrite (datetime_new_to_us _ _ _ _ _ Hn).
  apply datetime_new_Some in Hn as (V & _). apply valid_date_spec in V.
  rewrite <- month_start_1 by lia. unfold month_start, day_start. lia.
Qed.

Lemma year_start_gap y :
  1 ≤ y ≤ 9999 → year_start y + 365 * us_per_day ≤ year_start (y + 1).
Proof.
  intros Hy. unfold year_start.
  replace (Z.min (Z.max y 1) 10000) with y by lia.
  replace (Z.min (Z.max (y + 1) 1) 10000) with (y + 1) by lia.
  rewrite days_before_year_succ.
  unfold us_per_day, us_per_hour, us_per_second. destruct (is_leap y); lia.
Qed.

Section yearly.
Context (now : datetime).
Hypothesis now_valid : valid_datetime now = true.

Local Abbreviation P := (inv (year_shape now) (timedelta_seconds 1) now).

Lemma yearly_body_step y st r :
  1 ≤ y ≤ 9999 →
  P (year_start y) st →
  yearly_body now y st = Some r →
  step P stopped (year_start (y + 1)) r.
Proof.
  intros Hy Hi. unfold yearly_body.
  assert (∃ dt, datetime_new y 1 1 0 = Some dt) as [dt Hdt].
  { eexists. apply datetime_new_Some. split; [| eauto with lia].
    apply valid_date_spec. unfold days_in_month. simpl. lia. }
  pose proof (year_start_new _ _ Hdt) as Hus.
  pose proof (year_start_gap y Hy) as Hgap.
  destruct (check_invalid_date now y 1 1 0) eqn:C.
  - intros [= <-]. apply (inv_reject _ _ _ (year_start y)); auto.
    + rewrite <- Hus. by apply (check_invalid_date_true now y 1 1 0).
    + unfold us_per_day, us_per_hour, us_per_second in *. lia.
  - apply check_invalid_date_false in C as (dt' & Hdt' & Old).
    assert (dt' = dt) as -> by congruence.
    rewrite Hdt, bind_Some_eq.
    destruct (datetime_new (y + 1) 1 1 0) as [nxt |] eqn:Hn;
      [rewrite bind_Some_eq | rewrite bind_None_eq; discriminate].
    destruct (sub nxt (timedelta_seconds 1)) as [e |] eqn:Hs;
      [rewrite bind_Some_eq | rewrite bind_None_eq; discriminate].
    destruct (clip now _ e st) as [[e' st1] |] eqn:Hc;
      [rewrite bind_Some_eq | rewrite bind_None_eq; discriminate].
    intros [= <-]. apply leave_step.
    pose proof (sub_Some _ _ _ Hs) as [Ve He].
    pose proof (year_start_new _ _ Hn) as Hnxt.
    unfold timedelta_seconds in *.
    apply (inv_emit (year_shape now) (1 * us_per_second) now
             ltac:(unfold us_per_second; lia) now_valid
             (year_start y) (year_start (y + 1)) st dt e (Some now) e' st1); auto.
    + by apply (datetime_new_valid y 1 1 0).
    + by apply (datetime_new_aligned y 1 1 0).
    + unfold us_per_day, us_per_hour, us_per_second in *. lia.
    + lia.
    + exists y, nxt. simpl. split; [exact Hdt |]. split; [exact Hn |].
      apply clip_shape in Hc as [-> | [= ->]]; auto.
Qed.

(** The frontier at the end of the loop is the start of the year after
    [stop_year]. *)
Lemma yearly_frontier start_year stop_year st :
  start_year ≤ stop_year + 1 →
  yearly now start_year stop_year (mk_locals [] false) = Some st →
  P (year_start (stop_year + 1)) st.
Proof.
  unfold yearly. intros Hle Hrun.
  refine (years_loop P stopped (inv_stopped _ _ _) _ start_year (stop_year + 1) Hle
            _ _ _ st (inv_empty _ _ _ _) Hrun).
  - intros y s r Hy HP Hr. by apply (yearly_body_step y s).
  - intros y s Hy. unfold yearly_body.
    rewrite check_invalid_date_invalid; [done | by apply valid_date_outside].
Qed.

Lemma yearly_inv start_year stop_year st :
  yearly now start_year stop_year (mk_locals [] false) = Some st →
  ∃ F, P F st.
Proof.
  intros Hrun.
  destruct (decide (start_year ≤ stop_year + 1)) as [Hle | Hgt].
  - exists (year_start (stop_year + 1)). by apply (yearly_frontier start_year).
  - unfold yearly in Hrun.
    rewrite (range_nil start_year (stop_year + 1)) in Hrun by lia. simpl in Hrun.
    injection Hrun as <-. exists 0. apply inv_empty.
Qed.
End yearly.

(** *** Weekly *)

Lemma midnight_to_us dt : midnight dt → to_us dt mod us_per_day = 0.
Proof.
  intros (Hh & Hm & Hs & Hu). rewrite to_us_split, Hh, Hm, Hs, Hu. simpl.
  rewrite Z.add_0_r. apply Z_mod_mult.
Qed.

Lemma of_us_midnight z : z mod us_per_day = 0 → midnight (of_us z).
Proof.
  intros Hz. unfold of_us, midnight. destruct (ord2ymd _) as [[y m] d]. simpl.
  rewrite Hz. repeat split; reflexivity.
Qed.

Lemma add_Some_eq dt delta dt' :
  add dt delta = Some dt' → dt' = of_us (to_us dt + delta).
Proof. unfold add. destruct (_ && _); [| discriminate]. by intros [= <-]. Qed.

Lemma midnight_new dt :
  valid_datetime dt = true → midnight dt →
  datetime_new (year dt) (month dt) (day dt) 0 = Some dt.
Proof.
  intros V (Hh & Hm & Hs & Hu). apply datetime_new_Some.
  apply valid_datetime_spec in V as (V & _).
  destruct dt; simpl in *; subst. repeat split; auto; lia.
Qed.

Lemma for_each_inv {A S : Type} (I R : S → Prop)
    (body : A → S → option (flow S)) xs :
  (∀ s, I s → R s) →
  (∀ x s r, x ∈ xs → I s → body x s = Some r →
     match r with Next s' => I s' | Break s' => R s' end) →
  ∀ s s', I s → for_each body xs s = Some s' → R s'.
Proof.
  intros HR. induction xs as [| x xs IH]; intros Hbody s s' Hs; simpl.
  - intros [= <-]. auto.
  - destruct (body x s) as [r |] eqn:Hr; [| discriminate].
    pose proof (Hbody x s r ltac:(left) Hs Hr) as Hstep.
    destruct r as [s1 | s1].
    + apply IH; auto. intros y s2 r2 Hy. apply Hbody. by right.
    + intros [= <-]. exact Hstep.
Qed.

Section weekly.
Context (now : datetime).
Hypothesis now_valid : valid_datetime now = true.

Local Abbreviation P := (inv (week_shape now) 0 now).

Lemma weekly_body_step i s r :
  weekly_inv_state now s → weekly_body now i s = Some r →
  match r with
  | Next s' => weekly_inv_state now s'
  | Break s' => ∃ F, P F s'.2
  end.
Proof.
  destruct s as [start st]. intros (V & M & Hi). simpl in *.
  pose proof (midnight_new start V M) as Hnew.
  destruct (check_invalid_date now (year start) (month start) (day start) 0) eqn:C.
  - intros [= <-]. split; [exact V |]. split; [exact M | exact Hi].
  - apply check_invalid_date_false in C as (dt' & Hdt' & Old).
    assert (dt' = start) as -> by congruence.
    destruct (add start (timedelta_days 7)) as [e |] eqn:Ha;
      [rewrite bind_Some_eq | rewrite bind_None_eq; discriminate].
    destruct (clip now _ e st) as [[e' st1] |] eqn:Hc;
      [rewrite bind_Some_eq | rewrite bind_None_eq; discriminate].
    pose proof (add_Some _ _ _ Ha) as [Ve He].
    pose proof (midnight_to_us start M) as Hmid.
    assert (midnight e) as Me.
    { rewrite (add_Some_eq _ _ _ Ha). apply of_us_midnight.
      unfold timedelta_days, us_per_day, us_per_hour, us_per_second in *. divmod. }
    unfold timedelta_days in He.
    assert (P (to_us e) (append st1 (start, e'))) as Hi'.
    { apply (inv_emit (week_shape now) 0 now ltac:(lia) now_valid
               (to_us start) (to_us e) st start e (Some now) e' st1); auto.
      - unfold us_per_day, us_per_hour, us_per_second in *. divmod.
      - unfold us_per_day, us_per_hour, us_per_second in *. lia.
      - lia.
      - unfold week_shape. simpl.
        apply clip_shape in Hc as [-> | [= ->]]; auto. }
    destruct (stop st1) eqn:Hstop; intros [= <-]; simpl.
    + exists (to_us e). exact Hi'.
    + apply clip_Some in Hc as [(-> & -> & _) | (_ & -> & _)]; [| discriminate].
      split; [exact Ve |]. split; [exact Me | exact Hi'].
Qed.

Lemma weekly_inv start_year stop_year st :
  weekly now start_year stop_year (mk_locals [] false) = Some st →
  ∃ F, P F st.
Proof.
  unfold weekly. destruct (datetime_new start_year 1 1 0) as [start |] eqn:Hn;
    simpl; [| discriminate].
  destruct (for_each _ _ _) as [[s' st'] |] eqn:Hrun; simpl; [| discriminate].
  intros [= <-].
  refine (for_each_inv (weekly_inv_state now) (λ s, ∃ F, P F s.2) (weekly_body now) _ _ _
            (start, mk_locals [] false) (s', st') _ Hrun).
  - intros s (_ & _ & Hi). eauto.
  - intros i s r _. apply weekly_body_step.
  - split; [by apply (datetime_new_valid start_year 1 1 0) |]. split.
    + apply datetime_new_Some in Hn as (_ & _ & ->). repeat split.
    + apply inv_empty.
Qed.
End weekly.

End PeriodFacts.

(** ** The generator as a whole *)

Module GeneratorFacts.
Import Calendar Utils Spec CalendarFacts UtilsFacts PeriodFacts.

Lemma concat_periods (l : list window) :
  concat (if 0 <? Z.of_nat (length l) then [] ++ [l] else []) = l.
Proof.
  destruct l as [| w l]; [reflexivity |].
  replace (0 <? _) with true by (symmetry; apply Z.ltb_lt; simpl; lia).
  simpl. by rewrite app_nil_r.
Qed.

Lemma get_periods_dt_inv now time_range start_year stop_year ps :
  valid_datetime now = true → time_range ∈ granularities →
  get_periods_dt now time_range start_year stop_year = Some ps →
  ∃ F st, concat ps = day_periods st ∧
          inv (shape_of now time_range) (gap_of time_range) now F st.
Proof.
  intros Hnow Htr. unfold granularities in Htr.
  repeat (apply elem_of_cons in Htr as [-> | Htr]);
    [.. | by apply elem_of_nil in Htr];
    unfold get_periods_dt, branch; simpl.
  - destruct (hourly now start_year stop_year _) as [st |] eqn:H; simpl; [| discriminate].
    intros [= <-]. destruct (hourly_inv now _ _ _ H) as [F HF].
    exists F, st. split; [apply concat_periods | exact HF].
  - destruct (daily now start_year stop_year _) as [st |] eqn:H; simpl; [| discriminate].
    intros [= <-]. destruct (daily_inv now Hnow _ _ _ H) as [F HF].
    exists F, st. split; [apply concat_periods | exact HF].
  - destruct (weekly now start_year stop_year _) as [st |] eqn:H; simpl; [| discriminate].
    intros [= <-]. destruct (weekly_inv now Hnow _ _ _ H) as [F HF].
    exists F, st. split; [apply concat_periods | exact HF].
  - destruct (monthly now start_year stop_year _) as [st |] eqn:H; simpl; [| discriminate].
    intros [= <-]. destruct (monthly_inv now Hnow _ _ _ H) as [F HF].
    exists F, st. split; [apply concat_periods | exact HF].
  - destruct (yearly now start_year stop_year _) as [st |] eqn:H; simpl; [| discriminate].
    intros [= <-]. destruct (yearly_inv now Hnow _ _ _ H) as [F HF].
    exists F, st. split; [apply concat_periods | exact HF].
Qed.

Lemma gap_of_nonneg time_range : 0 ≤ gap_of time_range.
Proof. unfold gap_of. destruct (_ || _); [unfold timedelta_seconds, us_per_second |]; lia. Qed.

(** From neighbours to any two windows of a chained list. *)
Lemma chained_far now gap (l : list window) :
  0 ≤ gap → Forall (wf now) l → chained gap l →
  ∀ (k i : nat) w1 w2, l !! i = Some w1 → l !! (i + S k)%nat = Some w2 →
    to_us (snd w1) + gap ≤ to_us (fst w2).
Proof.
  intros Hg Hwf Hch. induction k as [| k IH]; intros i w1 w2 H1 H2.
  - replace (i + 1)%nat with (S i) in H2 by lia.
    rewrite (Hch i w1 w2 H1 H2). lia.
  - assert (is_Some (l !! (i + S k)%nat)) as [w Hw].
    { apply lookup_lt_is_Some_2. apply lookup_lt_Some in H2. lia. }
    pose proof (IH i w1 w H1 Hw) as Hle.
    replace (i + S (S k))%nat with (S (i + S k)) in H2 by lia.
    rewrite (Hch _ w w2 Hw H2).
    rewrite Forall_forall in Hwf.
    destruct (Hwf w) as (_ & _ & _ & _ & Hlen & _).
    { by eapply list_elem_of_lookup_2. }
    unfold us_per_second in *. lia.
Qed.

Lemma chained_increasing now gap (l : list window) :
  0 ≤ gap → Forall (wf now) l → chained gap l → increasing l.
Proof.
  intros Hg Hwf Hch i j w1 w2 Hij H1 H2.
  replace j with (i + S (j - i - 1))%nat in H2 by lia.
  pose proof (chained_far now gap l Hg Hwf Hch _ _ _ _ H1 H2) as Hle.
  rewrite Forall_forall in Hwf.
  destruct (Hwf w1) as (_ & _ & Hal & _ & Hlen & _).
  { by eapply list_elem_of_lookup_2. }
  assert (instant (fst w1) < instant (snd w1)) by (by apply instant_lt).
  assert (instant (snd w1) ≤ instant (fst w2)) by (apply instant_mono; lia).
  lia.
Qed.

Lemma wf_start_lt_end now w : wf now w → instant (fst w) < instant (snd w).
Proof. intros (_ & _ & Hal & _ & Hlen & _). by apply instant_lt. Qed.

End GeneratorFacts.

(** ** The generator returns *)

Module TotalFacts.
Import Calendar Utils Spec CalendarFacts UtilsFacts PeriodFacts GeneratorFacts.

Lemma for_each_is_Some {A S : Type} (body : A → S → option (flow S)) xs :
  (∀ x s, x ∈ xs → is_Some (body x s)) → ∀ s, is_Some (for_each body xs s).
Proof.
  intros H s.
  destruct (for_each_total (λ _, True) body xs) with (s := s) as (s' & -> & _); eauto.
  intros x s1 Hx _. destruct (H x s1 Hx) as [r ->]. eauto.
Qed.

Lemma inner_is_Some {S : Type} (loop : S → option S) s :
  is_Some (loop s) → is_Some (inner loop s).
Proof. intros [s' H]. unfold inner. rewrite H. simpl. eauto. Qed.

(** No later year starts before a given datetime. *)
Lemma datetime_new_year_le now y m d h dt :
  valid_datetime now = true → datetime_new y m d h = Some dt →
  to_us dt ≤ to_us now → y ≤ year now.
Proof.
  intros Vn Hn Hle. pose proof (datetime_new_valid _ _ _ _ _ Hn) as Vd.
  pose proof (to_us_day _ Vn) as Dn. pose proof (to_us_day _ Vd) as Dd.
  apply datetime_new_Some in Hn as (V & _ & ->). simpl in *.
  apply valid_datetime_spec in Vn as (Vn & _).
  pose proof (ymd2ord_bounds _ _ _ V) as B1.
  pose proof (ymd2ord_bounds _ _ _ Vn) as B2.
  destruct (decide (y ≤ year now)) as [| Hgt]; [done | exfalso].
  pose proof (days_before_year_mono (year now + 1) y ltac:(lia)).
  assert (to_us (mk_datetime y m d h 0 0 0) / us_per_day ≤ to_us now / us_per_day)
    by (apply Z.div_le_mono; [reflexivity | lia]).
  lia.
Qed.

Section total.
Context (now : datetime).
Hypothesis now_valid : valid_datetime now = true.
Hypothesis now_early : year now ≤ 9998.

Lemma now_room : to_us now + 365 * us_per_day < (MAXORDINAL + 1) * us_per_day.
Proof.
  pose proof (to_us_day _ now_valid) as Dn.
  pose proof now_valid as V. apply valid_datetime_spec in V as (V & Hh & Hm & Hs & Hu).
  pose proof (ymd2ord_bounds _ _ _ V) as B.
  pose proof (days_before_year_mono (year now + 1) 9999 ltac:(lia)) as M.
  change (days_before_year 9999) with 3651694 in M.
  rewrite to_us_split. unfold MAXORDINAL, us_per_day, us_per_hour, us_per_second. lia.
Qed.

Lemma add_total dt delta :
  valid_datetime dt = true → 0 ≤ delta ≤ 365 * us_per_day →
  to_us dt ≤ to_us now → is_Some (add dt delta).
Proof.
  intros V Hd Hle. apply add_is_Some.
  pose proof (to_us_range _ V). pose proof now_room. lia.
Qed.

Lemma clip_total clipped e st :
  is_Some clipped → is_Some (clip now clipped e st).
Proof. intros [c ->]. unfold clip. destruct (_ <? _); simpl; eauto. Qed.

Lemma sub_hour_total dt :
  valid_datetime dt = true →
  to_us dt + timedelta_seconds (90 * 60) ≤ to_us now →
  is_Some (sub now (timedelta_hours 1)).
Proof.
  intros V Hle. apply add_is_Some.
  pose proof (to_us_range _ V). pose proof (to_us_range _ now_valid).
  unfold timedelta_seconds, timedelta_hours, us_per_hour, us_per_second in *. lia.
Qed.

Lemma hourly_body_total y m d h st : is_Some (hourly_body now y m d h st).
Proof.
  unfold hourly_body. destruct (check_invalid_date now y m d h) eqn:C; [eauto |].
  apply check_invalid_date_false in C as (dt & Hdt & Old). rewrite Hdt, bind_Some_eq.
  destruct (add_total dt (timedelta_hours 1)) as [e ->]; rewrite ?bind_Some_eq; eauto.
  - by apply (datetime_new_valid y m d h).
  - unfold timedelta_hours, us_per_day, us_per_hour, us_per_second. lia.
  - unfold timedelta_seconds, us_per_second in Old. lia.
Qed.

Lemma daily_body_total y m d st : is_Some (daily_body now y m d st).
Proof.
  unfold daily_body. destruct (check_invalid_date now y m d 0) eqn:C; [eauto |].
  apply check_invalid_date_false in C as (dt & Hdt & Old). rewrite Hdt, bind_Some_eq.
  pose proof (datetime_new_valid _ _ _ _ _ Hdt) as V.
  destruct (add_total dt (timedelta_days 1)) as [e ->]; rewrite ?bind_Some_eq; auto.
  - unfold timedelta_days, us_per_day, us_per_hour, us_per_second. lia.
  - unfold timedelta_seconds, us_per_second in Old. lia.
  - destruct (clip_total (sub now (timedelta_hours 1)) e st) as [[e' st1] ->];
      rewrite ?bind_Some_eq; eauto.
    by apply (sub_hour_total dt).
Qed.

Lemma end_of_period_total nxt dt :
  valid_datetime dt = true → valid_datetime nxt = true →
  to_us dt + us_per_day ≤ to_us nxt →
  is_Some (sub nxt (timedelta_seconds 1)).
Proof.
  intros Vd Vn Hle. apply add_is_Some.
  pose proof (to_us_range _ Vd). pose proof (to_us_range _ Vn).
  unfold timedelta_seconds, us_per_day, us_per_hour, us_per_second in *. lia.
Qed.

Lemma monthly_body_total y m st :
  1 ≤ m ≤ 12 → is_Some (monthly_body now y m st).
Proof.
  intros Hm. unfold monthly_body.
  destruct (check_invalid_date now y m 1 0) eqn:C; [eauto |].
  apply check_invalid_date_false in C as (dt & Hdt & Old). rewrite Hdt, bind_Some_eq.
  pose proof (datetime_new_valid _ _ _ _ _ Hdt) as V.
  assert (y ≤ year now) as Hy.
  { apply (datetime_new_year_le now y m 1 0 dt); auto.
    unfold timedelta_seconds, us_per_second in Old. lia. }
  pose proof Hdt as Hdt'. apply datetime_new_Some in Hdt' as (Vd & _ & _).
  apply valid_date_spec in Vd as (Hy1 & _ & _).
  replace (if 12 <? m + 1 then (y + 1, 1) else (y, m + 1)) with (month_after y m)
    by reflexivity.
  destruct (month_after y m) as [ny nm] eqn:Hma.
  assert (∃ nxt, datetime_new ny nm 1 0 = Some nxt) as [nxt Hn].
  { eexists. apply datetime_new_Some. split; [| eauto with lia].
    apply valid_date_spec. unfold month_after in Hma.
    destruct (12 <? m + 1) eqn:L; injection Hma as <- <-.
    - unfold days_in_month. simpl. lia.
    - apply Z.ltb_ge in L.
      pose proof (month_length_pos (is_leap y) (m + 1) ltac:(lia)).
      unfold days_in_month. lia. }
  rewrite Hn, bind_Some_eq.
  assert (to_us nxt = month_start y (m + 1)) as Hnxt.
  { apply month_after_start; [lia | lia |]. by rewrite Hma. }
  pose proof (month_start_gap y m Hm) as Hgap.
  pose proof (datetime_new_to_us _ _ _ _ _ Hdt) as Hus.
  fold (day_start y m 1) in Hus. fold (month_start y m) in Hus.
  destruct (end_of_period_total nxt dt) as [e ->]; rewrite ?bind_Some_eq; auto.
  - by apply (datetime_new_valid ny nm 1 0).
  - unfold us_per_day, us_per_hour, us_per_second in *. lia.
  - destruct (clip_total (Some now) e st) as [[e' st1] ->]; rewrite ?bind_Some_eq; eauto.
Qed.

Lemma yearly_body_total y st : is_Some (yearly_body now y st).
Proof.
  unfold yearly_body.
  destruct (check_invalid_date now y 1 1 0) eqn:C; [eauto |].
  apply check_invalid_date_false in C as (dt & Hdt & Old). rewrite Hdt, bind_Some_eq.
  pose proof (datetime_new_valid _ _ _ _ _ Hdt) as V.
  assert (y ≤ year now) as Hy.
  { apply (datetime_new_year_le now y 1 1 0 dt); auto.
    unfold timedelta_seconds, us_per_second in Old. lia. }
  pose proof Hdt as Hdt'. apply datetime_new_Some in Hdt' as (Vd & _ & _).
  apply valid_date_spec in Vd as (Hy1 & _ & _).
  assert (∃ nxt, datetime_new (y + 1) 1 1 0 = Some nxt) as [nxt Hn].
  { eexists. apply datetime_new_Some. split; [| eauto with lia].
    apply valid_date_spec. unfold days_in_month. simpl. lia. }
  rewrite Hn, bind_Some_eq.
  pose proof (year_start_new _ _ Hdt) as Hus.
  pose proof (year_start_new _ _ Hn) as Hnxt.
  pose proof (year_start_gap y ltac:(lia)) as Hgap.
  destruct (end_of_period_total nxt dt) as [e ->]; rewrite ?bind_Some_eq; auto.
  - by apply (datetime_new_valid (y + 1) 1 1 0).
  - unfold us_per_day, us_per_hour, us_per_second in *. lia.
  - destruct (clip_total (Some now) e st) as [[e' st1] ->]; rewrite ?bind_Some_eq; eauto.
Qed.

Lemma weekly_body_total i s :
  weekly_inv_state now s → is_Some (weekly_body now i s).
Proof.
  destruct s as [start st]. intros (V & M & _). simpl in *.
  pose proof (midnight_new start V M) as Hnew.
  destruct (check_invalid_date now _ _ _ 0) eqn:C; [eauto |].
  apply check_invalid_date_false in C as (dt & Hdt & Old).
  assert (dt = start) as -> by congruence.
  destruct (add_total start (timedelta_days 7)) as [e ->]; rewrite ?bind_Some_eq; auto.
  - unfold timedelta_days, us_per_day, us_per_hour, us_per_second. lia.
  - unfold timedelta_seconds, us_per_second in Old. lia.
  - destruct (clip_total (Some now) e st) as [[e' st1] ->]; rewrite ?bind_Some_eq; eauto.
Qed.

Lemma weekly_loop_total xs s :
  weekly_inv_state now s → is_Some (for_each (weekly_body now) xs s).
Proof.
  revert s. induction xs as [| x xs IH]; intros s Hs; simpl; [eauto |].
  destruct (weekly_body_total x s Hs) as [r Hr]. rewrite Hr.
  pose proof (weekly_body_step now now_valid x s r Hs Hr) as Hstep.
  destruct r as [s' | s']; [by apply IH | eauto].
Qed.

Lemma get_periods_dt_total time_range start_year stop_year :
  time_range ∈ granularities →
  (time_range = "weekly"%string → 1 ≤ start_year ≤ 9999) →
  is_Some (get_periods_dt now time_range start_year stop_year).
Proof.
  intros Htr Hsy. unfold granularities in Htr.
  repeat (apply elem_of_cons in Htr as [-> | Htr]);
    [.. | by apply elem_of_nil in Htr];
    unfold get_periods_dt, branch; simpl.
  - destruct (for_each_is_Some (λ year, inner (for_each (λ month, inner (
      for_each (λ day, inner (for_each (hourly_body now year month day)
        (range 0 (23 + 1)))) (range 1 (31 + 1)))) (range 1 (12 + 1))))
      (range start_year (stop_year + 1))) with (s := mk_locals [] false) as [st H].
    { intros y s _. apply inner_is_Some, for_each_is_Some.
      intros m s1 _. apply inner_is_Some, for_each_is_Some.
      intros d s2 _. apply inner_is_Some, for_each_is_Some.
      intros h s3 _. apply hourly_body_total. }
    unfold hourly. rewrite H. simpl. eauto.
  - destruct (for_each_is_Some (λ year, inner (for_each (λ month, inner (
      for_each (daily_body now year month) (range 1 (31 + 1))))
      (range 1 (12 + 1)))) (range start_year (stop_year + 1)))
      with (s := mk_locals [] false) as [st H].
    { intros y s _. apply inner_is_Some, for_each_is_Some.
      intros m s1 _. apply inner_is_Some, for_each_is_Some.
      intros d s2 _. apply daily_body_total. }
    unfold daily. rewrite H. simpl. eauto.
  - unfold weekly.
    assert (∃ dt, datetime_new start_year 1 1 0 = Some dt) as [dt Hdt].
    { specialize (Hsy eq_refl).
      eexists. apply datetime_new_Some. split; [| eauto with lia].
      apply valid_date_spec. unfold days_in_month. simpl. lia. }
    rewrite Hdt, bind_Some_eq.
    destruct (weekly_loop_total
                (range_step 1 (get_number_of_days start_year stop_year) 7)
                (dt, mk_locals [] false)) as [s' ->]; rewrite ?bind_Some_eq; eauto.
    split; [by apply (datetime_new_valid start_year 1 1 0) |]. split.
    + apply datetime_new_Some in Hdt as (_ & _ & ->). repeat split.
    + apply inv_empty.
  - destruct (for_each_is_Some (λ year, inner (
      for_each (monthly_body now year) (range 1 (12 + 1))))
      (range start_year (stop_year + 1))) with (s := mk_locals [] false) as [st H].
    { intros y s _. apply inner_is_Some, for_each_is_Some.
      intros m s1 Hm%elem_of_range. apply monthly_body_total. lia. }
    unfold monthly. rewrite H. simpl. eauto.
  - destruct (for_each_is_Some (yearly_body now)
      (range start_year (stop_year + 1))) with (s := mk_locals [] false) as [st H].
    { intros y s _. apply yearly_body_total. }
    unfold yearly. rewrite H. simpl. eauto.
Qed.
End total.

End TotalFacts.

(** ** The properties of the period generator *)

Import Calendar Utils Spec Claims.
Import CalendarFacts UtilsFacts PeriodFacts GeneratorFacts TotalFacts.



Lemma in_granularities (time_range : string) :
  bool_decide (time_range ∈ granularities) = true → time_range ∈ granularities.
Proof. apply bool_decide_eq_true_1. Qed.






Lemma sub_second_fields nxt e :
  midnight nxt → sub nxt (timedelta_seconds 1) = Some e →
  hour e = 23 ∧ minute e = 59 ∧ second e = 59 ∧ microsecond e = 0.
Proof.
  intros M Hs. pose proof (midnight_to_us nxt M) as Hm.
  unfold sub in Hs. rewrite (add_Some_eq _ _ _ Hs).
  unfold of_us. destruct (ord2ymd _) as [[y m] d]. simpl.
  assert ((to_us nxt + - timedelta_seconds 1) mod us_per_day = 86399000000) as ->.
  { unfold timedelta_seconds, us_per_day, us_per_hour, us_per_second in *. divmod. }
  repeat split; reflexivity.
Qed.

Lemma datetime_new_midnight y m d dt : datetime_new y m d 0 = Some dt → midnight dt.
Proof. intros (_ & _ & ->)%datetime_new_Some. repeat split. Qed.

Lemma datetime_new_fields y m d h dt :
  datetime_new y m d h = Some dt → year dt = y ∧ month dt = m ∧ day dt = d.
Proof. intros (_ & _ & ->)%datetime_new_Some. repeat split. Qed.

Lemma end_before_next time_range start nxt e :
  next_period time_range start = Some nxt →
  datetime_new (year nxt) (month nxt) (day nxt) 0 = Some nxt →
  sub nxt (timedelta_seconds 1) = Some e →
  ends_before_next time_range (start, e).
Proof.
  intros Hn Hmid Hs. simpl.
  destruct (sub_second_fields nxt e) as (Hh & Hm & Hsec & _); auto.
  { by apply (datetime_new_midnight _ _ _ _ Hmid). }
  repeat split; auto. exists nxt. split; [exact Hn |].
  apply sub_Some in Hs as [_ E]. symmetry.
  apply instant_shift. simpl. unfold timedelta_seconds in *. lia.
Qed.

(** Nothing covers the second at which a window of a chained list with a
    gap of a second ends. *)
Lemma chained_uncovered now (l : list window) w1 w :
  Forall (wf now) l → chained (timedelta_seconds 1) l →
  w1 ∈ l → w ∈ l → ¬ covers w (instant (snd w1)).
Proof.
  intros Hwf Hch [i Hi]%list_elem_of_lookup_1 [j Hj]%list_elem_of_lookup_1 [Hlo Hhi].
  assert (0 ≤ timedelta_seconds 1) as Hg by (unfold timedelta_seconds, us_per_second; lia).
  destruct (Nat.lt_trichotomy i j) as [Hlt | [-> | Hgt]].
  - replace j with (i + S (j - i - 1))%nat in Hj by lia.
    pose proof (chained_far now _ l Hg Hwf Hch _ _ _ _ Hi Hj) as Hle.
    assert (instant (fst w) = instant (snd w1) + 1 + (to_us (fst w) - to_us (snd w1)
              - timedelta_seconds 1) / us_per_second) as E.
    { unfold instant, timedelta_seconds, us_per_second in *. divmod. }
    assert (0 ≤ (to_us (fst w) - to_us (snd w1) - timedelta_seconds 1) / us_per_second)
      by (apply Z.div_pos; unfold us_per_second; lia).
    lia.
  - assert (w = w1) as -> by congruence. lia.
  - replace i with (j + S (i - j - 1))%nat in Hi by lia.
    pose proof (chained_far now _ l Hg Hwf Hch _ _ _ _ Hj Hi) as Hle.
    rewrite Forall_forall in Hwf.
    pose proof (wf_start_lt_end now w1 (Hwf w1 ltac:(by eapply list_elem_of_lookup_2))).
    assert (instant (snd w) ≤ instant (fst w1)) by (apply instant_mono; lia).
    lia.
Qed.

(** C10: a monthly or yearly window that is not clipped to [now] ends at
    23:59:59, one second before the first instant of the next period; so the
    next window starts a second after it ends, and the second at which a
    window ends is covered by no window.  An hourly, daily or weekly window
    ends where the next one starts. *)
Theorem period_ends now time_range start_year stop_year all_periods :
  valid_datetime now = true →
  get_periods_dt now time_range start_year stop_year = Some all_periods →
  (time_range ∈ ["monthly"; "yearly"]%string →
   Forall (λ w, snd w = now ∨ ends_before_next time_range w) (concat all_periods) ∧
   adjacent (λ w1 w2, instant (fst w2) = instant (snd w1) + 1) (concat all_periods) ∧
   ∀ w1 w, w1 ∈ concat all_periods → w ∈ concat all_periods →
           ¬ covers w (instant (snd w1))) ∧
  (time_range ∈ ["hourly"; "daily"; "weekly"]%string →
   adjacent (λ w1 w2, instant (fst w2) = instant (snd w1)) (concat all_periods)).
Proof.
  intros Hnow Hrun. split; intros Htr.
  - assert (time_range ∈ granularities ∧ gap_of time_range = timedelta_seconds 1)
      as [Hg Hgap].
    { apply elem_of_cons in Htr as [-> | Htr];
        [| apply elem_of_cons in Htr as [-> | Htr]; [| by apply elem_of_nil in Htr]];
        (split; [apply in_granularities |]; reflexivity). }
    destruct (get_periods_dt_inv _ _ _ _ _ Hnow Hg Hrun)
      as (F & st & -> & [Hwf Hsh Hch _ _]).
    rewrite Hgap in Hch. split; [| split].
    + eapply Forall_impl; [exact Hsh |]. intros [s e] Hw.
      apply elem_of_cons in Htr as [-> | Htr];
        [| apply elem_of_cons in Htr as [-> | Htr]; [| by apply elem_of_nil in Htr]].
      * destruct Hw as (y & m & nxt & Hs & Hn & [He | He]); [right | by left].
        simpl in *. destruct (datetime_new_fields _ _ _ _ _ Hs) as (Ey & Em & _).
        apply (end_before_next "monthly" s nxt e); auto.
        -- unfold next_period. simpl. by rewrite Ey, Em.
        -- destruct (datetime_new_fields _ _ _ _ _ Hn) as (-> & -> & ->). exact Hn.
      * destruct Hw as (y & nxt & Hs & Hn & [He | He]); [right | by left].
        simpl in *. destruct (datetime_new_fields _ _ _ _ _ Hs) as (Ey & _ & _).
        apply (end_before_next "yearly" s nxt e); auto.
        -- unfold next_period. simpl. by rewrite Ey.
        -- destruct (datetime_new_fields _ _ _ _ _ Hn) as (-> & -> & ->). exact Hn.
    + intros i w1 w2 H1 H2. apply instant_shift. apply (Hch i w1 w2 H1 H2).
    + intros w1 w. by apply (chained_uncovered now).
  - assert (time_range ∈ granularities ∧ gap_of time_range = 0) as [Hg Hgap].
    { repeat (apply elem_of_cons in Htr as [-> | Htr]);
        [.. | by apply elem_of_nil in Htr];
        (split; [apply in_granularities |]; reflexivity). }
    destruct (get_periods_dt_inv _ _ _ _ _ Hnow Hg Hrun)
      as (F & st & -> & [Hwf Hsh Hch _ _]).
    rewrite Hgap in Hch.
    intros i w1 w2 H1 H2. apply instant_eq. rewrite (Hch i w1 w2 H1 H2). lia.
Qed.

Lemma period_ends_witness :
  ∃ all_periods,
    get_periods_dt a_now "monthly" 2021 2022 = Some all_periods ∧
    Forall (λ w, snd w = a_now ∨ ends_before_next "monthly" w) (concat all_periods) ∧
    adjacent (λ w1 w2, instant (fst w2) = instant (snd w1) + 1) (concat all_periods) ∧
    ∀ w1 w, w1 ∈ concat all_periods → w ∈ concat all_periods →
            ¬ covers w (instant (snd w1)).
Proof.
  eexists. split; [vm_compute; reflexivity |].
  apply (period_ends a_now "monthly" 2021 2022).
  - reflexivity.
  - vm_compute. reflexivity.
  - apply (bool_decide_eq_true_1 _). reflexivity.
Defined.

(** The windows as they are printed. *)
Example weekly_windows :
  get_periods a_now "weekly" 2022 2022 =
  Some [[("2022-01-01T00:00:00Z", "2022-01-08T00:00:00Z");
         ("2022-01-08T00:00:00Z", "2022-01-15T00:00:00Z");
         ("2022-01-15T00:00:00Z", "2022-01-20T10:30:15Z")]]%string.
Proof. vm_compute. reflexivity. Qed.

Example yearly_windows :
  get_periods a_now "yearly" 2020 2023 =
  Some [[("2020-01-01T00:00:00Z", "2020-12-31T23:59:59Z");
         ("2021-01-01T00:00:00Z", "2021-12-31T23:59:59Z");
         ("2022-01-01T00:00:00Z", "2022-01-20T10:30:15Z")]]%string.
Proof. vm_compute. reflexivity. Qed.

Example last_daily_window :
  (λ all_periods, last (concat all_periods)) <$> get_periods a_now "daily" 2022 2022 =
  Some (Some ("2022-01-20T00:00:00Z", "2022-01-20T09:30:15Z")%string).
Proof. vm_compute. reflexivity. Qed.

(** ** The fetch loop *)

Module SamplerFacts.
Import Calendar Utils Sampler FetchClaims.

(** *** Strings and the scan *)

#[local] Arguments String.append : simpl nomatch.

Lemma length_append (a b : string) :
  String.length (a ++ b) = (String.length a + String.length b)%nat.
Proof. induction a as [| c a IH]; simpl; [reflexivity | by rewrite IH]. Qed.

Lemma substring_all (b : string) : substring 0 (String.length b) b = b.
Proof. induction b as [| c b IH]; simpl; [reflexivity | by rewrite IH]. Qed.

Lemma substring_append (a b : string) :
  substring (String.length a) (String.length b) (a ++ b) = b.
Proof. induction a as [| c a IH]; simpl; [apply substring_all | exact IH]. Qed.

Lemma endswith_append (a b : string) : endswith (a ++ b) b = true.
Proof.
  unfold endswith. rewrite length_append.
  replace (String.length a + String.length b - String.length b)%nat
    with (String.length a) by lia.
  rewrite substring_append, String.eqb_refl, andb_true_r.
  apply Nat.leb_le. lia.
Qed.

Lemma append_assoc (a b c : string) : ((a ++ b) ++ c = a ++ (b ++ c))%string.
Proof. induction a as [| x a IH]; simpl; [reflexivity | by rewrite IH]. Qed.

Lemma response_fn_suffix start_time end_time :
  endswith (response_fn start_time end_time) response_suffix = true.
Proof.
  unfold response_fn.
  rewrite <- (append_assoc "_" (remove_colons end_time) response_suffix).
  rewrite <- append_assoc. apply endswith_append.
Qed.

Lemma collected_iff (files : directory) fn :
  endswith fn response_suffix = true →
  fn ∈ responses_collected files ↔ is_Some (files !! fn).
Proof.
  intros E. unfold responses_collected. rewrite elem_of_filter, elem_of_dom. tauto.
Qed.

(** *** What a trace shows *)

Lemma requests_app t1 t2 : requests (t1 ++ t2) = requests t1 ++ requests t2.
Proof. apply omap_app. Qed.

Lemma printed_app t1 t2 : printed (t1 ++ t2) = printed t1 ++ printed t2.
Proof. apply omap_app. Qed.

Lemma failures_app t1 t2 : failures (t1 ++ t2) = (failures t1 + failures t2)%nat.
Proof. unfold failures. by rewrite omap_app, length_app. Qed.

(** *** One attempt *)

Lemma on_exception_spec retry s e st0 st s' st' :
  sleep_duration st = sleep_duration st0 →
  trace st = trace st0 ++ [Request s e] →
  on_exception retry st = (s', st') → attempted s e retry st0 s' st'.
Proof.
  intros Hs Ht. unfold on_exception.
  destruct (sleepable (inject_Z retry)); intros [= <- <-].
  - apply attempt_retry; simpl; [by rewrite Hs | reflexivity |].
    rewrite Ht, <- !app_assoc. reflexivity.
  - apply attempt_crash; simpl; [exact Hs |].
    rewrite Ht, <- !app_assoc. reflexivity.
Qed.

Lemma try_body_spec retry s e fn a st s' st' :
  try_body retry s e fn a st = (s', st') → attempted s e retry st s' st'.
Proof.
  unfold try_body.
  destruct (remote a) as [| r]; [by apply on_exception_spec |].
  destruct (result_count r) as [n |]; [| by apply on_exception_spec].
  destruct (storage a) as [| | k]; try by apply on_exception_spec.
  simpl. destruct (sleepable (sleep_duration st)).
  - intros [= <- <-]. apply attempt_ok; simpl; auto.
    rewrite <- !app_assoc. reflexivity.
  - by apply on_exception_spec.
Qed.


Lemma attempted_requests s e retry st s' st' :
  attempted s e retry st s' st' →
  requests (trace st') = requests (trace st) ++ [(s, e)] ∧
  printed (trace st') = printed (trace st).
Proof.
  intros [st1 _ _ Ht | st1 _ _ Ht | st1 _ Ht]; rewrite Ht, requests_app, printed_app;
    simpl; by rewrite app_nil_r.
Qed.

Lemma attempted_failures s e retry st s' st' :
  attempted s e retry st s' st' →
  failures (trace st') =
  (failures (trace st) + if s' is Finished then 0 else 1)%nat.
Proof.
  intros [st1 _ _ Ht | st1 _ _ Ht | st1 _ Ht]; rewrite Ht, failures_app; reflexivity.
Qed.

Lemma grown_refl st : grown st st.
Proof.
  split; [lia |]. rewrite Nat.sub_diag.
  change (inject_Z (Z.of_nat 0)) with 0%Q. lra.
Qed.

Lemma grown_trans st1 st2 st3 : grown st1 st2 → grown st2 st3 → grown st1 st3.
Proof.
  intros [L1 E1] [L2 E2]. split; [lia |].
  replace (failures (trace st3) - failures (trace st1))%nat
    with ((failures (trace st2) - failures (trace st1)) +
          (failures (trace st3) - failures (trace st2)))%nat by lia.
  rewrite Nat2Z.inj_add, inject_Z_plus. rewrite E2, E1. ring.
Qed.

Lemma attempted_grown s e retry st s' st' :
  attempted s e retry st s' st' → s' ≠ Crashed → grown st st'.
Proof.
  intros H Hs. pose proof (attempted_failures _ _ _ _ _ _ H) as Hf.
  destruct H as [st1 Hsl _ _ | st1 Hsl _ _ | st1 _ _]; [| | done].
  - split; [lia |]. rewrite Hf, Hsl.
    replace (failures (trace st) + 0 - failures (trace st))%nat with 0%nat by lia.
    change (inject_Z (Z.of_nat 0)) with 0%Q. lra.
  - split; [lia |]. rewrite Hf, Hsl.
    replace (failures (trace st) + 1 - failures (trace st))%nat with 1%nat by lia.
    change (inject_Z (Z.of_nat 1)) with 1%Q. lra.
Qed.

Lemma attempted_sleep_le s e retry st s' st' :
  attempted s e retry st s' st' → (sleep_duration st <= sleep_duration st')%Q.
Proof. intros [st1 -> _ _ | st1 -> _ _ | st1 -> _]; lra. Qed.

(** *** The retry loop on one window *)

Lemma while_true_cons retry s e fn a attempts st :
  while_true retry s e fn (a :: attempts) st =
  match try_body retry s e fn a st with
  | (Running, st') => while_true retry s e fn attempts st'
  | (s', st') => (s', attempts, st')
  end.
Proof. reflexivity. Qed.

Lemma while_true_spec retry s e fn attempts st s' rest st' :
  while_true retry s e fn attempts st = (s', rest, st') →
  (∃ k : nat,
     requests (trace st') = requests (trace st) ++ replicate k (s, e) ∧
     (s' = Finished → (0 < k)%nat) ∧ (k = 0%nat → s' = Running ∧ st' = st)) ∧
  printed (trace st') = printed (trace st) ∧
  (sleep_duration st <= sleep_duration st')%Q ∧
  (s' ≠ Crashed → grown st st') ∧
  (s' = Finished →
   n_requests_until_fail st' =
   if decide (failures (trace st') = failures (trace st))
   then n_requests_until_fail st + 1 else 1).
Proof.
  revert st. induction attempts as [| a attempts IH]; intros st.
  - simpl. intros [= <- <- <-]. split; [| split; [| split; [| split]]].
    + exists 0%nat. simpl. rewrite app_nil_r. split; [done |]. split; [done | lia || auto].
    + reflexivity.
    + lra.
    + intros _. apply grown_refl.
    + discriminate.
  - rewrite while_true_cons.
    destruct (try_body retry s e fn a st) as [s1 st1] eqn:Hb.
    apply try_body_spec in Hb.
    pose proof (attempted_requests _ _ _ _ _ _ Hb) as [Hreq Hpr].
    pose proof (attempted_failures _ _ _ _ _ _ Hb) as Hf.
    pose proof (attempted_sleep_le _ _ _ _ _ _ Hb) as Hle.
    destruct s1.
    + intros [= <- <- <-]. split; [| split; [| split; [| split]]].
      * exists 1%nat. simpl. split; [exact Hreq |]. split; [lia | discriminate].
      * exact Hpr.
      * exact Hle.
      * intros _. eapply attempted_grown; [exact Hb | discriminate].
      * intros _. rewrite decide_True by lia. by inversion Hb.
    + intros Hrun. destruct (IH st1 Hrun) as ((k & Hk & Hpos & _) & Hp & Hl & Hg & Hn).
      assert (grown st st1) as Hg1
        by (eapply attempted_grown; [exact Hb | discriminate]).
      split; [| split; [| split; [| split]]].
      * exists (S k). rewrite Hk, Hreq, <- app_assoc. simpl.
        split; [reflexivity |]. split; [lia | discriminate].
      * by rewrite Hp.
      * lra.
      * intros Hs. exact (grown_trans st st1 st' Hg1 (Hg Hs)).
      * intros Hs. rewrite (Hn Hs).
        destruct (Hg ltac:(by rewrite Hs)) as [Hmono _].
        assert (n_requests_until_fail st1 = 0) as Hzero by (by inversion Hb).
        rewrite Hzero.
        rewrite (decide_False (P := failures (trace st') = failures (trace st))) by lia.
        by destruct (decide _).
    + intros [= <- <- <-]. split; [| split; [| split; [| split]]].
      * exists 1%nat. simpl. split; [exact Hreq |]. split; [lia | discriminate].
      * exact Hpr.
      * exact Hle.
      * done.
      * discriminate.
Qed.


(** *** The loop over the windows *)

Lemma to_fetch_skip collected w ws :
  fn_of w ∈ collected →
  to_fetch collected (w :: ws) = to_fetch collected ws ∧
  found_lines collected (w :: ws) = found_line (fn_of w) :: found_lines collected ws.
Proof.
  intros H. unfold found_lines, to_fetch, to_skip.
  rewrite !filter_cons. rewrite decide_False by (intros N; by apply N).
  by rewrite decide_True.
Qed.

Lemma to_fetch_keep collected w ws :
  fn_of w ∉ collected →
  to_fetch collected (w :: ws) = w :: to_fetch collected ws ∧
  found_lines collected (w :: ws) = found_lines collected ws.
Proof.
  intros H. unfold found_lines, to_fetch, to_skip.
  rewrite !filter_cons. rewrite decide_True by done. by rewrite decide_False.
Qed.

Lemma log_trace ev st : trace (log ev st) = trace st ++ [ev].
Proof. reflexivity. Qed.

Lemma grown_log_print line st : grown st (log (Print line) st).
Proof.
  unfold grown. rewrite log_trace, failures_app. simpl.
  replace (failures (trace st) + failures [Print line] - failures (trace st))%nat
    with 0%nat by (unfold failures; simpl; lia).
  change (inject_Z (Z.of_nat 0)) with 0%Q. split; [lia | lra].
Qed.

Lemma for_windows_spec retry collected ws attempts st s' rest st' :
  for_windows retry collected ws attempts st = (s', rest, st') →
  resumed collected ws st s' st'.
Proof.
  revert attempts st. induction ws as [| [s e] ws IH]; intros attempts st.
  - simpl. intros [= <- <- <-]. split.
    + exists []. simpl. rewrite app_nil_r. repeat split; auto.
    + exists []. rewrite app_nil_r. repeat split; auto.
    + lra.
    + intros _. apply grown_refl.
  - simpl. destruct (decide (response_fn s e ∈ collected)) as [Hin | Hout].
    + intros Hrun. destruct (IH _ _ Hrun) as [(ks & Hpos & Hlen & Hreq & Hfin)
        (ls & Hpr & Hpre & Hall) Hsl Hgr].
      destruct (to_fetch_skip collected (s, e) ws Hin) as [Hf Hl].
      rewrite log_trace, requests_app, printed_app in *. simpl in *.
      rewrite app_nil_r in Hreq. split; rewrite ?Hf, ?Hl.
      * exists ks. auto.
      * exists (found_line (response_fn s e) :: ls). rewrite Hpr, <- app_assoc.
        split; [reflexivity |]. split; [by apply prefix_cons |].
        intros Hs. by rewrite (Hall Hs).
      * exact Hsl.
      * intros Hs. apply (grown_trans st (log (Print (found_line (response_fn s e))) st));
          [apply grown_log_print | by apply Hgr].
    + destruct (to_fetch_keep collected (s, e) ws Hout) as [Hf Hl].
      destruct (while_true retry s e (response_fn s e) attempts st)
        as [[s1 rest1] st1] eqn:Hw.
      destruct (while_true_spec _ _ _ _ _ _ _ _ _ Hw)
        as ((k & Hk & Hkpos & Hk0) & Hp1 & Hsl1 & Hg1 & _).
      destruct s1.
      * intros Hrun. destruct (IH _ _ Hrun) as [(ks & Hpos & Hlen & Hreq & Hfin)
          (ls & Hpr & Hpre & Hall) Hsl Hgr].
        split; rewrite ?Hf, ?Hl.
        -- exists (k :: ks). split; [constructor; auto |]. split; [simpl; lia |].
           split; [| intros Hs; simpl; by rewrite (Hfin Hs)].
           rewrite Hreq, Hk, <- app_assoc. reflexivity.
        -- exists ls. rewrite Hpr, Hp1. auto.
        -- lra.
        -- intros Hs. apply (grown_trans st st1); auto.
      * intros [= <- <- <-]. split; rewrite ?Hf, ?Hl.
        -- destruct k as [| k].
           ++ exists []. simpl in *. rewrite app_nil_r in *.
              repeat split; auto; [lia | discriminate].
           ++ exists [S k]. split; [constructor; [lia | constructor] |].
              split; [simpl; lia |]. split; [| discriminate].
              rewrite Hk. unfold tries. simpl. by rewrite app_nil_r.
        -- exists []. rewrite app_nil_r. split; [exact Hp1 |].
           split; [apply prefix_nil | discriminate].
        -- exact Hsl1.
        -- exact Hg1.
      * intros [= <- <- <-]. split; rewrite ?Hf, ?Hl.
        -- destruct k as [| k].
           ++ destruct (Hk0 eq_refl) as [? _]. discriminate.
           ++ exists [S k]. split; [constructor; [lia | constructor] |].
              split; [simpl; lia |]. split; [| discriminate].
              rewrite Hk. unfold tries. simpl. by rewrite app_nil_r.
        -- exists []. rewrite app_nil_r. split; [exact Hp1 |].
           split; [apply prefix_nil | discriminate].
        -- exact Hsl1.
        -- done.
Qed.

Lemma for_windows_app retry collected ws1 ws2 attempts st :
  for_windows retry collected (ws1 ++ ws2) attempts st =
  match for_windows retry collected ws1 attempts st with
  | (Finished, attempts', st') => for_windows retry collected ws2 attempts' st'
  | other => other
  end.
Proof.
  revert attempts st. induction ws1 as [| [s e] ws1 IH]; intros attempts st;
    [reflexivity |].
  simpl. destruct (decide _); [apply IH |].
  destruct (while_true _ _ _ _ _ _) as [[[] a1] st1]; auto.
Qed.

Lemma for_periods_concat retry collected all_periods attempts st :
  for_periods retry collected all_periods attempts st =
  for_windows retry collected (concat all_periods) attempts st.
Proof.
  revert attempts st. induction all_periods as [| ws ps IH]; intros attempts st;
    [reflexivity |].
  simpl. rewrite for_windows_app.
  destruct (for_windows retry collected ws attempts st) as [[[] a1] st1]; auto.
Qed.


(** A run whose attempts all succeed, and has one for each window to
    fetch, finishes. *)
Lemma try_body_succeeds retry s e fn a st :
  succeeds a → (0 <= sleep_duration st)%Q →
  ∃ st', try_body retry s e fn a st = (Finished, st') ∧
         sleep_duration st' = sleep_duration st.
Proof.
  intros (r & n & Hr & Hn & Hd) Hs. unfold try_body. rewrite Hr, Hn, Hd. simpl.
  unfold sleepable. replace (Qle_bool 0 (sleep_duration st)) with true
    by (symmetry; by apply Qle_bool_iff).
  eauto.
Qed.

Lemma fetch_finishes retry collected ws attempts st :
  Forall succeeds attempts → (0 <= sleep_duration st)%Q →
  (length (to_fetch collected ws) ≤ length attempts)%nat →
  ∃ rest st', for_windows retry collected ws attempts st = (Finished, rest, st').
Proof.
  revert attempts st. induction ws as [| [s e] ws IH]; intros attempts st Hok Hs Hlen.
  - simpl. eauto.
  - simpl. destruct (decide (response_fn s e ∈ collected)) as [Hin | Hout].
    + apply IH; auto.
      by rewrite (proj1 (to_fetch_skip collected (s, e) ws Hin)) in Hlen.
    + rewrite (proj1 (to_fetch_keep collected (s, e) ws Hout)) in Hlen.
      destruct attempts as [| a attempts]; [simpl in Hlen; lia |].
      apply Forall_cons in Hok as [Ha Hok].
      destruct (try_body_succeeds retry s e (response_fn s e) a st Ha Hs)
        as (st1 & Hb & Hs1).
      rewrite while_true_cons, Hb. apply IH; auto.
      * by rewrite Hs1.
      * simpl in Hlen. lia.
Qed.

End SamplerFacts.

(** ** The properties of the query, the store and the fetch loop *)

Import Calendar Utils Sampler FetchClaims Claims SamplerFacts.

(** C1, as the specification has it, fails: after three failures and one
    success on the same window the counter is 1, not 0. *)
Lemma success_does_not_reset_counter :
  three_failures_then_success.1.1 = Finished ∧
  n_requests_until_fail three_failures_then_success.2 ≠ 0.
Proof. vm_compute. split; [reflexivity | discriminate]. Qed.

(** C1, amended: [n_requests_until_fail] counts the successful requests
    since the last failure.  A success adds 1 to it, a failure sets it to 0;
    so when a window succeeds after one or more failures the counter is 1. *)
Theorem counter_counts_successes retry_duration start_time end_time response_fn :
  (∀ a st st',
     try_body retry_duration start_time end_time response_fn a st = (Finished, st') →
     n_requests_until_fail st' = n_requests_until_fail st + 1) ∧
  (∀ a st st',
     try_body retry_duration start_time end_time response_fn a st = (Running, st') →
     n_requests_until_fail st' = 0) ∧
  (∀ attempts st rest st',
     while_true retry_duration start_time end_time response_fn attempts st
       = (Finished, rest, st') →
     (failures (trace st) < failures (trace st'))%nat →
     n_requests_until_fail st' = 1).
Proof.
  split; [| split].
  - intros a st st' H%try_body_spec. by inversion H.
  - intros a st st' H%try_body_spec. by inversion H.
  - intros attempts st rest st' H Hf.
    destruct (while_true_spec _ _ _ _ _ _ _ _ _ H) as (_ & _ & _ & _ & Hn).
    rewrite (Hn eq_refl). by rewrite decide_False by lia.
Qed.

Lemma counter_counts_successes_witness :
  n_requests_until_fail three_failures_then_success.2 = 1.
Proof.
  destruct (counter_counts_successes 61 a_start a_end a_fn) as (_ & _ & H).
  apply (H [failure; failure; failure; success] fresh []).
  - vm_compute. reflexivity.
  - vm_compute. lia.
Defined.

(** C2, as the specification has it, fails on its first example: with no
    stop words the result starts with the separator. *)
Lemma build_query_no_stop_words_not_bare :
  build_query [] None None None None None "opt" ≠ "opt"%string.
Proof. vm_compute. discriminate. Qed.

(** C2, amended: with no stop words, no language and no place the query is
    a space followed by the options, [" opt"] for the options ["opt"]; with
    the stop words a and b, the language filter [lang:en], no place and the
    options ["opt"] it is [("a" OR "b") lang:en opt]. *)
Theorem build_query_examples :
  (∀ query_options,
     build_query [] None None None None None query_options
     = (" " ++ query_options)%string) ∧
  build_query [] None None None None None "opt" = " opt"%string ∧
  build_query ["a"; "b"]%string (Some "lang:en"%string) None None None None "opt"
  = ("(" ++ dquote ++ "a" ++ dquote ++ " OR " ++ dquote ++ "b" ++ dquote ++
     ") lang:en opt")%string.
Proof. repeat split. Qed.

(** C5: when the query is longer than 1024 characters the run prints the
    message and ends: nothing is requested and the directory is as it was. *)
Theorem too_long_aborts now a files attempts :
  (1024 < String.length (query_string a))%nat →
  ∃ st', main now a files attempts = (Finished, st') ∧
         trace st' = [Print too_long] ∧
         requests (trace st') = [] ∧
         dir st' = files.
Proof.
  intros Hlen. unfold main.
  replace (1024 <? String.length (query_string a))%nat with true
    by (symmetry; by apply Nat.ltb_lt).
  eexists. split; [reflexivity |]. repeat split.
Qed.

Lemma too_long_aborts_witness :
  ∃ st', main a_now long_args ∅ [success] = (Finished, st') ∧
         trace st' = [Print too_long] ∧
         requests (trace st') = [] ∧
         dir st' = ∅.
Proof. apply (too_long_aborts a_now long_args ∅ [success]). vm_compute. lia. Defined.

(** C6: a run that starts on a directory [files] goes through the windows
    of [get_periods] in their order; it skips, printing a line for each, the
    windows whose file name is in [files] at the start, and requests the
    others, each one or more times in a row, until the attempts supplied are
    used up; a run that finishes has skipped all the former and requested
    all the latter. *)
Theorem fetch_resumes now a files attempts all_periods s' st' :
  (String.length (query_string a) ≤ 1024)%nat →
  get_periods now (time_range a) (start_year a) (stop_year a) = Some all_periods →
  main now a files attempts = (s', st') →
  let ws := concat all_periods in
  let collected := responses_collected files in
  (∀ w, fn_of w = (remove_colons w.1 ++ "_" ++ remove_colons w.2 ++ ".response.json")%string
        ∧ (fn_of w ∈ collected ↔ is_Some (files !! fn_of w))) ∧
  (∃ ks : list nat,
     Forall (λ k, 0 < k)%nat ks ∧
     (length ks ≤ length (to_fetch collected ws))%nat ∧
     requests (trace st') = tries ks (to_fetch collected ws) ∧
     (s' = Finished → length ks = length (to_fetch collected ws))) ∧
  printed (trace st') `prefix_of` found_lines collected ws ∧
  (s' = Finished → printed (trace st') = found_lines collected ws).
Proof.
  intros Hlen Hps Hmain ws collected. split.
  { intros [s e]. split; [reflexivity |].
    apply collected_iff, response_fn_suffix. }
  unfold main in Hmain.
  replace (1024 <? String.length (query_string a))%nat with false in Hmain
    by (symmetry; apply Nat.ltb_ge; lia).
  rewrite Hps in Hmain. rewrite for_periods_concat in Hmain.
  fold ws collected in Hmain.
  destruct (for_windows _ _ _ _ _) as [[s1 rest] st1] eqn:Hrun.
  injection Hmain as <- <-.
  destruct (for_windows_spec _ _ _ _ _ _ _ _ Hrun)
    as [(ks & Hpos & Hlen' & Hreq & Hfin) (ls & Hpr & Hpre & Hall) _ _].
  simpl in Hreq, Hpr. split; [| split].
  - exists ks. auto.
  - by rewrite Hpr.
  - intros Hs. by rewrite Hpr, (Hall Hs).
Qed.

Lemma fetch_resumes_witness :
  ∃ all_periods s' st',
    get_periods a_now "weekly" 2022 2022 = Some all_periods ∧
    main a_now short_args a_directory [failure; success; success] = (s', st') ∧
    (∃ ks : list nat,
       Forall (λ k, 0 < k)%nat ks ∧
       (length ks ≤ length (to_fetch (responses_collected a_directory)
                                      (concat all_periods)))%nat ∧
       requests (trace st')
       = tries ks (to_fetch (responses_collected a_directory) (concat all_periods)) ∧
       (s' = Finished →
        length ks = length (to_fetch (responses_collected a_directory)
                                     (concat all_periods)))) ∧
    printed (trace st')
      `prefix_of` found_lines (responses_collected a_directory) (concat all_periods).
Proof.
  eexists _, _, _.
  split; [vm_compute; reflexivity |]. split; [vm_compute; reflexivity |].
  refine (let H := fetch_resumes a_now short_args a_directory [failure; success; success]
                     _ _ _ _ _ _ in _).
  - destruct H as (_ & Hreq & Hpre & _). split; [exact Hreq | exact Hpre].
  Unshelve.
  + vm_compute. lia.
  + vm_compute. reflexivity.
  + vm_compute. reflexivity.
Defined.

(** C7: a failure after which the loop goes on makes the sleep between
    requests strictly longer, by a fiftieth of a second at most; over a whole
    run the sleep never decreases; so a window that succeeds after one or
    more failures leaves the sleep strictly longer than it was before the
    first of them.  The pause after a failure and the sleep stay within
    10^8 seconds: there [time.sleep] takes them and the float sum of the
    source grows as the exact sum does. *)
Theorem sleep_duration_grows retry_duration collected :
  retry_duration ≤ 100000000 →
  (∀ s e fn a st st',
     (- inject_Z 100000000 <= sleep_duration st)%Q →
     (sleep_duration st <= inject_Z 100000000)%Q →
     try_body retry_duration s e fn a st = (Running, st') →
     (sleep_duration st < sleep_duration st')%Q ∧
     (sleep_duration st' <= sleep_duration st + (1 # 50))%Q) ∧
  (∀ all_periods attempts st s' rest st',
     (0 <= sleep_duration st)%Q →
     (sleep_duration st' <= inject_Z 100000000)%Q →
     for_periods retry_duration collected all_periods attempts st = (s', rest, st') →
     (sleep_duration st <= sleep_duration st')%Q) ∧
  (∀ s e fn attempts st rest st',
     (0 <= sleep_duration st)%Q →
     (sleep_duration st' <= inject_Z 100000000)%Q →
     while_true retry_duration s e fn attempts st = (Finished, rest, st') →
     (failures (trace st) < failures (trace st'))%nat →
     (sleep_duration st < sleep_duration st')%Q).
Proof.
  intros _. split; [| split].
  - intros s e fn a st st' _ _ H%try_body_spec. inversion H as [| ? E |].
    rewrite E. split; lra.
  - intros ps attempts st s' rest st' _ _ H. rewrite for_periods_concat in H.
    by destruct (for_windows_spec _ _ _ _ _ _ _ _ H) as [_ _ Hle _].
  - intros s e fn attempts st rest st' _ _ H Hf.
    destruct (while_true_spec _ _ _ _ _ _ _ _ _ H) as (_ & _ & _ & Hg & _).
    destruct (Hg ltac:(discriminate)) as [_ E].
    assert (1 <= inject_Z (Z.of_nat (failures (trace st') - failures (trace st))))%Q
      as Hone by (change 1%Q with (inject_Z 1); rewrite <- Zle_Qle; lia).
    rewrite E. lra.
Qed.

Lemma sleep_duration_grows_witness :
  (sleep_duration fresh < sleep_duration three_failures_then_success.2)%Q.
Proof.
  destruct (sleep_duration_grows 61 ∅) as (_ & _ & H); [lia |].
  apply (H a_start a_end a_fn [failure; failure; failure; success] fresh []).
  - vm_compute. discriminate.
  - vm_compute. discriminate.
  - vm_compute. reflexivity.
  - vm_compute. lia.
Defined.

(** *** The store *)

Lemma written_lookup fn chunks (d : directory) :
  foldl (λ d chunk, write fn chunk d) d chunks !! fn
  = (λ content, foldl String.append content chunks) <$> d !! fn.
Proof.
  revert d. induction chunks as [| c chunks IH]; intros d; simpl.
  - by destruct (d !! fn).
  - rewrite IH. unfold write. rewrite lookup_alter_eq. by destruct (d !! fn).
Qed.

Lemma written_other fn fn' chunks (d : directory) :
  fn' ≠ fn → foldl (λ d chunk, write fn chunk d) d chunks !! fn' = d !! fn'.
Proof.
  intros Hne. revert d. induction chunks as [| c chunks IH]; intros d; simpl;
    [reflexivity |].
  rewrite IH. unfold write. by rewrite lookup_alter_ne.
Qed.

Lemma persist_upto_lookup k fn chunks (d : directory) :
  persist_upto k fn chunks d !! fn = Some (text_of (take k chunks)).
Proof.
  unfold persist_upto, open_w, text_of. rewrite written_lookup.
  by rewrite lookup_insert_eq.
Qed.

(** C8, as the specification has it, fails: a write cut after its first
    chunk leaves, under the final name, a file that does not hold the
    artifact; the scan of the next run collects it, and that run skips the
    window without a request. *)
Lemma interrupted_write_taken_for_complete :
  let chunks := json_chunks a_start a_end a_response in
  let d := persist_upto 1 a_fn chunks ∅ in
  taken_for_complete d a_fn (text_of chunks) ∧
  requests (trace (for_windows 61 (responses_collected d) [(a_start, a_end)]
                     [success] (mk_run (inject_Z 5) 0 d [])).2) = [].
Proof.
  intros chunks d. split; [split |].
  - apply collected_iff; [apply response_fn_suffix |].
    unfold d. rewrite persist_upto_lookup. eauto.
  - unfold d. rewrite persist_upto_lookup. vm_compute. discriminate.
  - assert (a_fn ∈ responses_collected d) as Hin.
    { apply collected_iff; [apply response_fn_suffix |].
      unfold d. rewrite persist_upto_lookup. eauto. }
    simpl. fold a_fn. by rewrite decide_True.
Qed.

(** C8, amended: [persist] writes to the final name itself.  From the
    moment the file is opened, and after every chunk, the name is among
    those that a scan collects and the file holds the chunks written so far;
    it holds the whole artifact once [persist] has run to its end.  No other
    file is touched. *)
Theorem persist_in_place k fn chunks (d : directory) :
  endswith fn response_suffix = true →
  fn ∈ responses_collected (persist_upto k fn chunks d) ∧
  persist_upto k fn chunks d !! fn = Some (text_of (take k chunks)) ∧
  persist fn chunks d !! fn = Some (text_of chunks) ∧
  ∀ fn', fn' ≠ fn → persist_upto k fn chunks d !! fn' = d !! fn'.
Proof.
  intros Hfn. split; [| split; [| split]].
  - apply collected_iff; [exact Hfn |]. rewrite persist_upto_lookup. eauto.
  - apply persist_upto_lookup.
  - unfold persist. rewrite persist_upto_lookup. by rewrite firstn_all.
  - intros fn' Hne. unfold persist_upto, open_w. rewrite written_other by done.
    by rewrite lookup_insert_ne.
Qed.

Lemma persist_in_place_witness :
  a_fn ∈ responses_collected
           (persist_upto 1 a_fn (json_chunks a_start a_end a_response) ∅) ∧
  persist_upto 1 a_fn (json_chunks a_start a_end a_response) ∅ !! a_fn
  = Some (text_of (take 1 (json_chunks a_start a_end a_response))) ∧
  persist a_fn (json_chunks a_start a_end a_response) ∅ !! a_fn
  = Some (text_of (json_chunks a_start a_end a_response)).
Proof.
  destruct (persist_in_place 1 a_fn (json_chunks a_start a_end a_response) ∅)
    as (H1 & H2 & H3 & _).
  - vm_compute. reflexivity.
  - exact (conj H1 (conj H2 H3)).
Defined.

(** ** Coverage: what the generator leaves out and what it covers *)

Module CoverageFacts.
Import Calendar Utils Spec Coverage.
Import CalendarFacts UtilsFacts PeriodFacts GeneratorFacts TotalFacts.

(** *** The number of days *)

Lemma days_of_year y :
  foldr Z.add 0 (days_in_month y <$> range 1 13) =
  days_before_year (y + 1) - days_before_year y.
Proof.
  rewrite days_before_year_succ.
  change (range 1 13) with [1; 2; 3; 4; 5; 6; 7; 8; 9; 10; 11; 12].
  unfold days_in_month. simpl. destruct (is_leap y); lia.
Qed.

Lemma get_number_of_days_eq start_year stop_year :
  start_year ≤ stop_year + 1 →
  get_number_of_days start_year stop_year =
  days_before_year (stop_year + 1) - days_before_year start_year.
Proof.
  intros Hle. unfold get_number_of_days.
  assert (∀ (n : nat) a acc, 
            foldl (λ total_days year,
                     total_days + foldr Z.add 0 (days_in_month year <$> range 1 13))
                  acc (range a (a + Z.of_nat n))
            = acc + days_before_year (a + Z.of_nat n) - days_before_year a) as H.
  { induction n as [| n IH]; intros a acc.
    - rewrite (range_nil a (a + Z.of_nat 0)) by lia. simpl.
      replace (a + Z.of_nat 0) with a by lia. lia.
    - rewrite (range_cons a (a + Z.of_nat (S n))) by lia. cbn [foldl].
      replace (a + Z.of_nat (S n)) with (a + 1 + Z.of_nat n) by lia. rewrite IH, days_of_year. lia. }
  specialize (H (Z.to_nat (stop_year + 1 - start_year)) start_year 0).
  replace (start_year + Z.of_nat (Z.to_nat (stop_year + 1 - start_year)))
    with (stop_year + 1)
    in H by lia.
  rewrite H. lia.
Qed.

Lemma get_number_of_days_empty start_year stop_year :
  stop_year < start_year → get_number_of_days start_year stop_year = 0.
Proof.
  intros H. unfold get_number_of_days.
  by rewrite (range_nil start_year (stop_year + 1)) by lia.
Qed.


(** *** The shape of the result *)

Lemma branch_other time_range name loop st :
  time_range ≠ name → branch time_range name loop st = Some st.
Proof.
  intros H. unfold branch. by rewrite (proj2 (String.eqb_neq time_range name)).
Qed.

Lemma branch_idle time_range name loop st :
  loop st = Some st → branch time_range name loop st = Some st.
Proof. intros H. unfold branch. by destruct (String.eqb _ _). Qed.

Lemma get_periods_dt_locals now time_range start_year stop_year ps :
  get_periods_dt now time_range start_year stop_year = Some ps →
  ∃ st, ps = if 0 <? Z.of_nat (length (day_periods st))
             then [day_periods st] else [].
Proof.
  unfold get_periods_dt. intros H.
  repeat (apply bind_Some in H as (? & _ & H)).
  injection H as <-. eauto.
Qed.

(** *** A range of years that has not begun *)

Lemma new_year_Some y :
  1 ≤ y ≤ 9999 → datetime_new y 1 1 0 = Some (new_year y).
Proof.
  intros Hy. apply datetime_new_Some. split; [| split; [lia | reflexivity]].
  apply valid_date_spec. unfold days_in_month. simpl. lia.
Qed.

Lemma new_year_to_us y : 1 ≤ y ≤ 9999 → to_us (new_year y) = year_start y.
Proof. intros Hy. apply year_start_new. by apply new_year_Some. Qed.

Lemma candidate_after_new_year y0 y m d h dt :
  1 ≤ y0 ≤ y → datetime_new y m d h = Some dt → year_start y0 ≤ to_us dt.
Proof.
  intros Hy Hdt. rewrite (datetime_new_to_us _ _ _ _ _ Hdt).
  apply datetime_new_Some in Hdt as (V & Hh & _).
  pose proof (ymd2ord_bounds _ _ _ V) as B.
  apply valid_date_spec in V as (Hy' & _).
  pose proof (days_before_year_mono y0 y ltac:(lia)) as M.
  unfold year_start. replace (Z.min (Z.max y0 1) 10000) with y0 by lia.
  unfold us_per_day, us_per_hour, us_per_second. lia.
Qed.


Section future.
Context (now : datetime) (start_year stop_year : Z).
Hypothesis start_valid : 1 ≤ start_year ≤ 9999.
Hypothesis too_recent : check_invalid_date now start_year 1 1 0 = true.





End future.

(** *** The loops only append *)

Lemma grows_refl st : grows st st.
Proof. unfold grows. reflexivity. Qed.

Lemma grows_trans st1 st2 st3 : grows st1 st2 → grows st2 st3 → grows st1 st3.
Proof. unfold grows. apply transitivity. Qed.

Lemma for_each_rel {A S : Type} (R : S → S → Prop)
    (body : A → S → option (flow S)) :
  (∀ s, R s s) → (∀ s1 s2 s3, R s1 s2 → R s2 s3 → R s1 s3) →
  (∀ x s r, body x s = Some r → R s (state_of r)) →
  ∀ xs s s', for_each body xs s = Some s' → R s s'.
Proof.
  intros Hrefl Htrans Hbody. induction xs as [| x xs IH]; intros s s'; simpl.
  - intros [= <-]. apply Hrefl.
  - destruct (body x s) as [r |] eqn:Hr; [| discriminate].
    apply Hbody in Hr. destruct r as [s1 | s1]; simpl in Hr.
    + intros H. eapply Htrans; [exact Hr | by apply IH].
    + by intros [= <-].
Qed.

(** The first iteration of a loop, and the rest of it. *)
Lemma for_each_first {A S : Type} (R : S → S → Prop)
    (body : A → S → option (flow S)) x xs s s' :
  (∀ s, R s s) → (∀ s1 s2 s3, R s1 s2 → R s2 s3 → R s1 s3) →
  (∀ x s r, body x s = Some r → R s (state_of r)) →
  for_each body (x :: xs) s = Some s' →
  ∃ r, body x s = Some r ∧ R (state_of r) s'.
Proof.
  intros Hrefl Htrans Hbody. simpl.
  destruct (body x s) as [r |] eqn:Hr; [| discriminate].
  intros H. exists r. split; [reflexivity |]. destruct r as [s1 | s1]; simpl.
  - by apply (for_each_rel R body Hrefl Htrans Hbody xs).
  - injection H as <-. apply Hrefl.
Qed.

Lemma inner_grows (loop : locals → option locals) s r :
  (∀ s s', loop s = Some s' → grows s s') →
  inner loop s = Some r → grows s (state_of r).
Proof. intros H (s' & -> & Hl)%inner_Some. simpl. by apply H. Qed.

Lemma clip_day_periods now clipped e st e' st1 :
  clip now clipped e st = Some (e', st1) → day_periods st1 = day_periods st.
Proof. intros [(_ & -> & _) | (_ & -> & _)]%clip_Some; reflexivity. Qed.

Lemma state_of_leave st : state_of (leave st) = st.
Proof. unfold leave. by destruct (stop st). Qed.

(** What one candidate does to the list: nothing when it is refused, and
    otherwise one window that starts with it. *)
Lemma hourly_body_appends now y m d h st r :
  hourly_body now y m d h st = Some r →
  if check_invalid_date now y m d h then r = Next st
  else ∃ e, day_periods (state_of r)
            = day_periods st ++ [(mk_datetime y m d h 0 0 0, e)].
Proof.
  unfold hourly_body. destruct (check_invalid_date now y m d h) eqn:C.
  - by intros [= <-].
  - apply check_invalid_date_false in C as (dt & Hdt & _).
    rewrite Hdt, bind_Some_eq.
    destruct (add dt _) as [e |];
      [rewrite bind_Some_eq | rewrite bind_None_eq; discriminate].
    intros [= <-]. apply datetime_new_Some in Hdt as (_ & _ & ->). simpl. eauto.
Qed.

Lemma daily_body_appends now y m d st r :
  daily_body now y m d st = Some r →
  if check_invalid_date now y m d 0 then r = Next st
  else ∃ e, day_periods (state_of r)
            = day_periods st ++ [(mk_datetime y m d 0 0 0 0, e)].
Proof.
  unfold daily_body. destruct (check_invalid_date now y m d 0) eqn:C.
  - by intros [= <-].
  - apply check_invalid_date_false in C as (dt & Hdt & _).
    rewrite Hdt, bind_Some_eq.
    destruct (add dt _) as [e |];
      [rewrite bind_Some_eq | rewrite bind_None_eq; discriminate].
    destruct (clip now _ e st) as [[e' st1] |] eqn:Hc;
      [rewrite bind_Some_eq | rewrite bind_None_eq; discriminate].
    intros [= <-]. apply datetime_new_Some in Hdt as (_ & _ & ->).
    rewrite state_of_leave. simpl. rewrite (clip_day_periods _ _ _ _ _ _ Hc). eauto.
Qed.

Lemma monthly_body_appends now y m st r :
  monthly_body now y m st = Some r →
  if check_invalid_date now y m 1 0 then r = Next st
  else ∃ e, day_periods (state_of r)
            = day_periods st ++ [(mk_datetime y m 1 0 0 0 0, e)].
Proof.
  unfold monthly_body. destruct (check_invalid_date now y m 1 0) eqn:C.
  - by intros [= <-].
  - apply check_invalid_date_false in C as (dt & Hdt & _).
    rewrite Hdt, bind_Some_eq.
    destruct (if 12 <? m + 1 then _ else _) as [ny nm].
    destruct (datetime_new ny nm 1 0) as [nxt |];
      [rewrite bind_Some_eq | rewrite bind_None_eq; discriminate].
    destruct (sub nxt _) as [e |];
      [rewrite bind_Some_eq | rewrite bind_None_eq; discriminate].
    destruct (clip now _ e st) as [[e' st1] |] eqn:Hc;
      [rewrite bind_Some_eq | rewrite bind_None_eq; discriminate].
    intros [= <-]. apply datetime_new_Some in Hdt as (_ & _ & ->).
    rewrite state_of_leave. simpl. rewrite (clip_day_periods _ _ _ _ _ _ Hc). eauto.
Qed.

Lemma yearly_body_appends now y st r :
  yearly_body now y st = Some r →
  if check_invalid_date now y 1 1 0 then r = Next st
  else ∃ e, day_periods (state_of r)
            = day_periods st ++ [(mk_datetime y 1 1 0 0 0 0, e)].
Proof.
  unfold yearly_body. destruct (check_invalid_date now y 1 1 0) eqn:C.
  - by intros [= <-].
  - apply check_invalid_date_false in C as (dt & Hdt & _).
    rewrite Hdt, bind_Some_eq.
    destruct (datetime_new (y + 1) 1 1 0) as [nxt |];
      [rewrite bind_Some_eq | rewrite bind_None_eq; discriminate].
    destruct (sub nxt _) as [e |];
      [rewrite bind_Some_eq | rewrite bind_None_eq; discriminate].
    destruct (clip now _ e st) as [[e' st1] |] eqn:Hc;
      [rewrite bind_Some_eq | rewrite bind_None_eq; discriminate].
    intros [= <-]. apply datetime_new_Some in Hdt as (_ & _ & ->).
    rewrite state_of_leave. simpl. rewrite (clip_day_periods _ _ _ _ _ _ Hc). eauto.
Qed.


Lemma appends_grows (c : bool) st (r : flow locals) (start : datetime) :
  (if c then r = Next st
   else ∃ e, day_periods (state_of r) = day_periods st ++ [(start, e)]) →
  grows st (state_of r).
Proof.
  destruct c.
  - intros ->. apply grows_refl.
  - intros [e H]. unfold grows. rewrite H. by apply prefix_app_r.
Qed.

Lemma hourly_body_grows now y m d h st r :
  hourly_body now y m d h st = Some r → grows st (state_of r).
Proof. intros H%hourly_body_appends. by eapply appends_grows. Qed.

Lemma daily_body_grows now y m d st r :
  daily_body now y m d st = Some r → grows st (state_of r).
Proof. intros H%daily_body_appends. by eapply appends_grows. Qed.

Lemma monthly_body_grows now y m st r :
  monthly_body now y m st = Some r → grows st (state_of r).
Proof. intros H%monthly_body_appends. by eapply appends_grows. Qed.

Lemma yearly_body_grows now y st r :
  yearly_body now y st = Some r → grows st (state_of r).
Proof. intros H%yearly_body_appends. by eapply appends_grows. Qed.


Lemma loop_grows {A : Type} (body : A → locals → option (flow locals)) xs s s' :
  (∀ x s r, body x s = Some r → grows s (state_of r)) →
  for_each body xs s = Some s' → grows s s'.
Proof. intros H. apply (for_each_rel grows body grows_refl grows_trans H). Qed.

Lemma loop_first {A : Type} (body : A → locals → option (flow locals)) x xs s s' :
  (∀ x s r, body x s = Some r → grows s (state_of r)) →
  for_each body (x :: xs) s = Some s' →
  ∃ r, body x s = Some r ∧ grows (state_of r) s'.
Proof. intros H. apply (for_each_first grows body x xs s s' grows_refl grows_trans H). Qed.

Lemma inner_first (loop : locals → option locals) s r s' :
  inner loop s = Some r → grows (state_of r) s' →
  ∃ s1, loop s = Some s1 ∧ grows s1 s'.
Proof. intros (s1 & -> & H)%inner_Some G. eauto. Qed.

Lemma grows_first st st' w :
  grows st st' → day_periods st = [w] → ∃ ws, day_periods st' = w :: ws.
Proof. unfold grows. intros [k ->] ->. simpl. eauto. Qed.


Section nesting.
Context (now : datetime).

Lemma hourly_day_grows y m d s r :
  inner (for_each (hourly_body now y m d) (range 0 (23 + 1))) s = Some r →
  grows s (state_of r).
Proof.
  apply inner_grows. intros s1 s2. apply loop_grows.
  intros h. apply hourly_body_grows.
Qed.

Lemma hourly_month_grows y m s r :
  inner (for_each (λ day, inner (
    for_each (hourly_body now y m day) (range 0 (23 + 1))))
    (range 1 (31 + 1))) s = Some r →
  grows s (state_of r).
Proof.
  apply inner_grows. intros s1 s2. apply loop_grows.
  intros d. apply hourly_day_grows.
Qed.

Lemma hourly_year_grows y s r :
  inner (for_each (λ month, inner (
    for_each (λ day, inner (
      for_each (hourly_body now y month day) (range 0 (23 + 1))))
    (range 1 (31 + 1))))
  (range 1 (12 + 1))) s = Some r →
  grows s (state_of r).
Proof.
  apply inner_grows. intros s1 s2. apply loop_grows.
  intros m. apply hourly_month_grows.
Qed.

Lemma daily_month_grows y m s r :
  inner (for_each (daily_body now y m) (range 1 (31 + 1))) s = Some r →
  grows s (state_of r).
Proof.
  apply inner_grows. intros s1 s2. apply loop_grows.
  intros d. apply daily_body_grows.
Qed.

Lemma daily_year_grows y s r :
  inner (for_each (λ month, inner (
    for_each (daily_body now y month) (range 1 (31 + 1))))
  (range 1 (12 + 1))) s = Some r →
  grows s (state_of r).
Proof.
  apply inner_grows. intros s1 s2. apply loop_grows.
  intros m. apply daily_month_grows.
Qed.

Lemma monthly_year_grows y s r :
  inner (for_each (monthly_body now y) (range 1 (12 + 1))) s = Some r →
  grows s (state_of r).
Proof.
  apply inner_grows. intros s1 s2. apply loop_grows.
  intros m. apply monthly_body_grows.
Qed.
End nesting.

(** *** The first window *)

Section first.
Context (now : datetime) (start_year stop_year : Z).
Hypothesis nonempty : start_year ≤ stop_year.
Hypothesis old_enough : check_invalid_date now start_year 1 1 0 = false.

Lemma hourly_first st :
  hourly now start_year stop_year (mk_locals [] false) = Some st →
  ∃ e ws, day_periods st = (new_year start_year, e) :: ws.
Proof.
  unfold hourly. rewrite (range_cons start_year (stop_year + 1)) by lia.
  intros (r1 & H1 & G1)%loop_first; [| intros y; apply hourly_year_grows].
  destruct (inner_first _ _ _ _ H1 G1) as (s1 & H1' & G1').
  rewrite (range_cons 1 (12 + 1)) in H1' by lia.
  apply loop_first in H1' as (r2 & H2 & G2); [| intros m; apply hourly_month_grows].
  destruct (inner_first _ _ _ _ H2 G2) as (s2 & H2' & G2').
  rewrite (range_cons 1 (31 + 1)) in H2' by lia.
  apply loop_first in H2' as (r3 & H3 & G3); [| intros d; apply hourly_day_grows].
  destruct (inner_first _ _ _ _ H3 G3) as (s3 & H3' & G3').
  rewrite (range_cons 0 (23 + 1)) in H3' by lia.
  apply loop_first in H3' as (r4 & H4 & G4); [| intros h; apply hourly_body_grows].
  apply hourly_body_appends in H4. rewrite old_enough in H4.
  destruct H4 as [e He]. simpl in He. exists e.
  apply (grows_first (state_of r4)); [| exact He].
  eauto using grows_trans.
Qed.

Lemma daily_first st :
  daily now start_year stop_year (mk_locals [] false) = Some st →
  ∃ e ws, day_periods st = (new_year start_year, e) :: ws.
Proof.
  unfold daily. rewrite (range_cons start_year (stop_year + 1)) by lia.
  intros (r1 & H1 & G1)%loop_first; [| intros y; apply daily_year_grows].
  destruct (inner_first _ _ _ _ H1 G1) as (s1 & H1' & G1').
  rewrite (range_cons 1 (12 + 1)) in H1' by lia.
  apply loop_first in H1' as (r2 & H2 & G2); [| intros m; apply daily_month_grows].
  destruct (inner_first _ _ _ _ H2 G2) as (s2 & H2' & G2').
  rewrite (range_cons 1 (31 + 1)) in H2' by lia.
  apply loop_first in H2' as (r3 & H3 & G3); [| intros d; apply daily_body_grows].
  apply daily_body_appends in H3. rewrite old_enough in H3.
  destruct H3 as [e He]. simpl in He. exists e.
  apply (grows_first (state_of r3)); [| exact He].
  eauto using grows_trans.
Qed.

Lemma monthly_first st :
  monthly now start_year stop_year (mk_locals [] false) = Some st →
  ∃ e ws, day_periods st = (new_year start_year, e) :: ws.
Proof.
  unfold monthly. rewrite (range_cons start_year (stop_year + 1)) by lia.
  intros (r1 & H1 & G1)%loop_first; [| intros y; apply monthly_year_grows].
  destruct (inner_first _ _ _ _ H1 G1) as (s1 & H1' & G1').
  rewrite (range_cons 1 (12 + 1)) in H1' by lia.
  apply loop_first in H1' as (r2 & H2 & G2); [| intros m; apply monthly_body_grows].
  apply monthly_body_appends in H2. rewrite old_enough in H2.
  destruct H2 as [e He]. simpl in He. exists e.
  apply (grows_first (state_of r2)); [| exact He].
  eauto using grows_trans.
Qed.

Lemma yearly_first st :
  yearly now start_year stop_year (mk_locals [] false) = Some st →
  ∃ e ws, day_periods st = (new_year start_year, e) :: ws.
Proof.
  unfold yearly. rewrite (range_cons start_year (stop_year + 1)) by lia.
  intros (r1 & H1 & G1)%loop_first; [| intros y; apply yearly_body_grows].
  apply yearly_body_appends in H1. rewrite old_enough in H1.
  destruct H1 as [e He]. simpl in He. exists e.
  by apply (grows_first (state_of r1)).
Qed.



End first.


(** *** The generator as one loop *)

Lemma get_periods_dt_loop now time_range start_year stop_year :
  get_periods_dt now time_range start_year stop_year =
  st ← loop_of now time_range start_year stop_year (mk_locals [] false);
  Some (if 0 <? Z.of_nat (length (day_periods st))
        then [day_periods st] else []).
Proof.
  unfold get_periods_dt, loop_of, branch.
  destruct (String.eqb_spec time_range "hourly") as [-> | _].
  { simpl. by destruct (hourly _ _ _ _). }
  destruct (String.eqb_spec time_range "daily") as [-> | _].
  { simpl. by destruct (daily _ _ _ _). }
  destruct (String.eqb_spec time_range "weekly") as [-> | _].
  { simpl. by destruct (weekly _ _ _ _). }
  destruct (String.eqb_spec time_range "monthly") as [-> | _].
  { simpl. by destruct (monthly _ _ _ _). }
  destruct (String.eqb_spec time_range "yearly") as [-> | _].
  { simpl. by destruct (yearly _ _ _ _). }
  reflexivity.
Qed.

Lemma one_group (l : list window) w ws :
  l = w :: ws → (if 0 <? Z.of_nat (length l) then [l] else []) = [l].
Proof. intros ->. reflexivity. Qed.


(** *** A range of years that lies in the past *)

Lemma chained_tail gap (w : window) ws : chained gap (w :: ws) → chained gap ws.
Proof. intros H i a b Ha Hb. by apply (H (S i)). Qed.

Lemma tiles_length len a b ws :
  tiles 0 a b ws → all_long len ws → b - a = len * Z.of_nat (length ws).
Proof.
  revert a. induction ws as [| w ws IH];
    intros a ((w0 & Hh & Ha) & Hch & (wl & Hl & Hb)) Hlen; [discriminate |].
  simpl in Hh. injection Hh as <-. apply Forall_cons in Hlen as [Hw Hlen].
  destruct ws as [| w' ws'].
  - simpl in Hl. injection Hl as <-. simpl. lia.
  - assert (to_us (fst w') = to_us (snd w) + 0) as E
      by (by apply (Hch 0%nat)).
    specialize (IH (to_us (fst w'))).
    rewrite length_cons, Nat2Z.inj_succ.
    rewrite Z.mul_succ_r, <- IH; [lia | | exact Hlen].
    split; [by exists w' |]. split; [by apply (chained_tail 0 w) |].
    exists wl. split; [| exact Hb]. by rewrite last_cons_cons in Hl.
Qed.

Lemma chained_end_le now gap (l : list window) w wl :
  0 ≤ gap → Forall (wf now) l → chained gap l →
  w ∈ l → last l = Some wl → to_us (snd w) ≤ to_us (snd wl).
Proof.
  intros Hg Hwf Hch [i Hi]%list_elem_of_lookup_1 Hl.
  rewrite last_lookup in Hl.
  pose proof (lookup_lt_Some _ _ _ Hi) as Hlt.
  destruct (decide (i = pred (length l))) as [-> | Hne].
  - rewrite Hi in Hl. injection Hl as <-. lia.
  - replace (pred (length l)) with (i + S (pred (length l) - i - 1))%nat in Hl by lia.
    pose proof (chained_far now gap l Hg Hwf Hch _ _ _ _ Hi Hl) as Hle.
    rewrite Forall_forall in Hwf.
    destruct (Hwf wl) as (_ & _ & _ & _ & Hlen & _).
    { by eapply list_elem_of_lookup_2. }
    unfold us_per_second in *. lia.
Qed.

Section past.
Context (now : datetime) (start_year stop_year : Z).
Hypothesis now_valid : valid_datetime now = true.
Hypothesis years : 1 ≤ start_year ≤ stop_year.
Hypothesis over : check_invalid_date now (stop_year + 1) 1 1 0 = false.

Lemma over_live : ¬ dead now (year_start (stop_year + 1)).
Proof.
  pose proof over as C.
  apply check_invalid_date_false in C as (dt & Hdt & Old).
  rewrite <- (year_start_new _ _ Hdt). unfold dead. lia.
Qed.

Lemma stop_year_valid : stop_year + 1 ≤ 9999.
Proof.
  pose proof over as C.
  apply check_invalid_date_false in C as (dt & Hdt & _).
  apply datetime_new_Some in Hdt as (V & _).
  apply valid_date_spec in V as (Hy & _). lia.
Qed.

Lemma begun : check_invalid_date now start_year 1 1 0 = false.
Proof.
  pose proof stop_year_valid as Hs. pose proof over_live as L.
  apply check_invalid_date_false. exists (new_year start_year).
  split; [apply new_year_Some; lia |].
  rewrite new_year_to_us by lia.
  pose proof (year_start_mono start_year (stop_year + 1) ltac:(lia)).
  unfold dead in L. lia.
Qed.

Lemma past_tiles shape gap st :
  inv shape gap now (year_start (stop_year + 1)) st →
  (∃ e ws, day_periods st = (new_year start_year, e) :: ws) →
  tiles gap (to_us (new_year start_year)) (to_us (new_year (stop_year + 1)))
        (day_periods st).
Proof.
  pose proof stop_year_valid as Hs.
  intros [_ _ Hch Hlast _] (e & ws & E). split; [| split].
  - rewrite E. eexists. split; reflexivity.
  - exact Hch.
  - rewrite E in *. destruct (last_is_Some ((new_year start_year, e) :: ws)) as [_ [wl Hl]];
      [done |].
    exists wl. split; [exact Hl |].
    destruct (Hlast wl Hl) as [H | H]; [| by apply over_live in H].
    rewrite H. symmetry. apply new_year_to_us. lia.
Qed.

Lemma span_days :
  to_us (new_year (stop_year + 1)) - to_us (new_year start_year)
  = get_number_of_days start_year stop_year * us_per_day.
Proof.
  pose proof stop_year_valid as Hs.
  rewrite !new_year_to_us by lia. rewrite get_number_of_days_eq by lia.
  unfold year_start.
  replace (Z.min (Z.max (stop_year + 1) 1) 10000) with (stop_year + 1) by lia.
  replace (Z.min (Z.max start_year 1) 10000) with start_year by lia.
  lia.
Qed.

Lemma hourly_past st :
  hourly now start_year stop_year (mk_locals [] false) = Some st →
  tiles 0 (to_us (new_year start_year)) (to_us (new_year (stop_year + 1)))
        (day_periods st) ∧
  all_long (timedelta_hours 1) (day_periods st).
Proof.
  intros Hrun.
  pose proof (hourly_frontier now start_year stop_year st ltac:(lia) Hrun) as Hi.
  split.
  - apply (past_tiles hour_shape 0 st Hi).
    apply (hourly_first now start_year stop_year); [lia | apply begun | exact Hrun].
  - eapply Forall_impl; [exact (inv_shape _ _ _ _ _ Hi) |].
    intros w (y & m & d & h & _ & Ha). by apply add_Some in Ha as [_ ->].
Qed.

Lemma daily_past st :
  daily now start_year stop_year (mk_locals [] false) = Some st →
  tiles 0 (to_us (new_year start_year)) (to_us (new_year (stop_year + 1)))
        (day_periods st) ∧
  all_long (timedelta_days 1) (day_periods st).
Proof.
  intros Hrun.
  pose proof (daily_frontier now now_valid start_year stop_year st ltac:(lia) Hrun)
    as Hi.
  assert (tiles 0 (to_us (new_year start_year)) (to_us (new_year (stop_year + 1)))
            (day_periods st)) as Ht.
  { apply (past_tiles (day_shape now) 0 st Hi).
    apply (daily_first now start_year stop_year); [lia | apply begun | exact Hrun]. }
  split; [exact Ht |].
  destruct Ht as (_ & _ & (wl & Hl & Hend)).
  pose proof stop_year_valid as Hs. pose proof over_live as L.
  rewrite new_year_to_us in Hend by lia.
  pose proof (inv_wf _ _ _ _ _ Hi) as Hwf.
  pose proof (inv_shape _ _ _ _ _ Hi) as Hsh.
  apply Forall_forall. intros w Hw.
  rewrite Forall_forall in Hsh. destruct (Hsh w Hw) as (y & m & d & _ & [Ha | Hc]).
  - by apply add_Some in Ha as [_ ->].
  - exfalso. apply sub_Some in Hc as [_ Hc].
    pose proof (chained_end_le now 0 (day_periods st) w wl ltac:(lia) Hwf
                  (inv_chained _ _ _ _ _ Hi) Hw Hl) as Hle.
    unfold dead, timedelta_seconds, timedelta_hours, us_per_hour, us_per_second in *.
    lia.
Qed.

Lemma monthly_past st :
  monthly now start_year stop_year (mk_locals [] false) = Some st →
  tiles (timedelta_seconds 1) (to_us (new_year start_year))
        (to_us (new_year (stop_year + 1))) (day_periods st).
Proof.
  intros Hrun.
  pose proof (monthly_frontier now now_valid start_year stop_year st ltac:(lia) Hrun)
    as Hi.
  apply (past_tiles (month_shape now) _ st Hi).
  apply (monthly_first now start_year stop_year); [lia | apply begun | exact Hrun].
Qed.

Lemma yearly_past st :
  yearly now start_year stop_year (mk_locals [] false) = Some st →
  tiles (timedelta_seconds 1) (to_us (new_year start_year))
        (to_us (new_year (stop_year + 1))) (day_periods st).
Proof.
  intros Hrun.
  pose proof (yearly_frontier now now_valid start_year stop_year st ltac:(lia) Hrun)
    as Hi.
  apply (past_tiles (year_shape now) _ st Hi).
  apply (yearly_first now start_year stop_year); [lia | apply begun | exact Hrun].
Qed.
End past.


(** *** Weeks that lie in the past *)

Section weeks.
Context (now : datetime) (start_year : Z).
Hypothesis now_valid : valid_datetime now = true.

Lemma weekly_body_past i start st :
  valid_datetime start = true → midnight start → stop st = false →
  to_us start + timedelta_days 7 ≤ to_us now →
  ∃ e, add start (timedelta_days 7) = Some e ∧
       weekly_body now i (start, st) = Some (Next (e, append st (start, e))).
Proof.
  intros V M Hstop Hpast.
  pose proof (to_us_range _ V) as Rs. pose proof (to_us_range _ now_valid) as Rn.
  assert (0 ≤ timedelta_days 7) as Hpos
    by (unfold timedelta_days, us_per_day, us_per_hour, us_per_second; lia).
  destruct (add_is_Some start (timedelta_days 7) ltac:(lia)) as [e He].
  exists e. split; [exact He |].
  pose proof (add_Some _ _ _ He) as [Ve Ee].
  unfold weekly_body.
  replace (check_invalid_date now (year start) (month start) (day start) 0)
    with false; cycle 1.
  { symmetry. apply check_invalid_date_false. exists start.
    split; [by apply midnight_new |].
    unfold timedelta_days, timedelta_seconds, us_per_day, us_per_hour,
      us_per_second in *. lia. }
  rewrite He, bind_Some_eq.
  replace (clip now (Some now) e st) with (Some (e, st)); cycle 1.
  { unfold clip, diff.
    replace (to_us now - to_us e <? 0) with false; [reflexivity |].
    symmetry. apply Z.ltb_ge. lia. }
  rewrite bind_Some_eq. simpl. by rewrite Hstop.
Qed.

Lemma weekly_loop_past xs : ∀ (k : nat) start st,
  valid_datetime start = true → midnight start → stop st = false →
  to_us start = to_us (new_year start_year) + timedelta_days (7 * Z.of_nat k) →
  length (day_periods st) = k →
  (∀ i w, day_periods st !! i = Some w → week_from start_year i w) →
  to_us (new_year start_year) + timedelta_days (7 * Z.of_nat (k + length xs))
    ≤ to_us now →
  ∃ s', for_each (weekly_body now) xs (start, st) = Some s' ∧
        length (day_periods s'.2) = (k + length xs)%nat ∧
        ∀ i w, day_periods s'.2 !! i = Some w → week_from start_year i w.
Proof.
  induction xs as [| x xs IH]; intros k start st V M Hstop Hs Hlen Hw Hpast.
  - exists (start, st). simpl. rewrite Nat.add_0_r. auto.
  - destruct (weekly_body_past x start st V M Hstop) as (e & He & Hb).
    { rewrite Hs. simpl length in Hpast.
      unfold timedelta_days, us_per_day, us_per_hour, us_per_second in *. lia. }
    pose proof (add_Some _ _ _ He) as [Ve Ee].
    cbn [for_each]. rewrite Hb.
    destruct (IH (S k) e (append st (start, e))) as (s' & Hrun & Hlen' & Hw'); auto.
    + rewrite (add_Some_eq _ _ _ He). apply of_us_midnight.
      pose proof (midnight_to_us start M).
      unfold timedelta_days, us_per_day, us_per_hour, us_per_second in *. divmod.
    + rewrite Ee, Hs. unfold timedelta_days. lia.
    + simpl. rewrite length_app. simpl. lia.
    + intros i w. simpl. intros Hi.
      apply lookup_app_Some in Hi as [Hi | [Hge Hi]]; [by apply Hw |].
      apply list_lookup_singleton_Some in Hi as [Hi <-].
      assert (i = k) as -> by lia.
      split; simpl; [exact Hs |]. rewrite Ee, Hs. unfold timedelta_days. lia.
    + simpl length in Hpast.
      replace (S k + length xs)%nat with (k + S (length xs))%nat by lia. exact Hpast.
    + exists s'. split; [exact Hrun |]. split; [| exact Hw'].
      rewrite Hlen'. simpl. lia.
Qed.
End weeks.

Lemma range_step_length a b step :
  0 < step → a ≤ b →
  Z.of_nat (length (range_step a b step)) = (b - a + step - 1) / step.
Proof.
  intros Hs Hab. unfold range_step. rewrite length_fmap, length_seqZ.
  apply Z2Nat.id. apply Z.div_pos; lia.
Qed.


(** *** Which windows are cut at [now] *)

Lemma shape_whole now time_range (w : window) :
  time_range ∈ granularities →
  shape_of now time_range w →
  to_us (snd w) + timedelta_seconds (90 * 60) ≤ to_us now →
  whole time_range w.
Proof.
  intros Htr Hsh Hold. unfold granularities in Htr.
  assert (∀ e, to_us e + timedelta_seconds (90 * 60) ≤ to_us now → e ≠ now) as Hne.
  { intros e He ->. unfold timedelta_seconds, us_per_second in He. lia. }
  repeat (apply elem_of_cons in Htr as [-> | Htr]);
    [.. | by apply elem_of_nil in Htr]; unfold shape_of, whole in *;
    simpl in Hsh; simpl.
  - by destruct Hsh as (y & m & d & h & _ & Ha).
  - destruct Hsh as (y & m & d & _ & [Ha | Hc]); [done | exfalso].
    apply sub_Some in Hc as [_ Hc].
    unfold timedelta_seconds, timedelta_hours, us_per_hour, us_per_second in *. lia.
  - destruct Hsh as [Ha | Hc]; [done |]. by apply Hne in Hold.
  - destruct Hsh as (y & m & nxt & Hs & Hn & [He | He]); [| by apply Hne in Hold].
    exists nxt. split; [| done]. unfold Claims.next_period. simpl.
    apply datetime_new_Some in Hs as (_ & _ & ->). exact Hn.
  - destruct Hsh as (y & nxt & Hs & Hn & [He | He]); [| by apply Hne in Hold].
    exists nxt. split; [| done]. unfold Claims.next_period. simpl.
    apply datetime_new_Some in Hs as (_ & _ & ->). exact Hn.
Qed.

Lemma not_last_whole now time_range (l : list window) i w w' :
  time_range ∈ granularities →
  Forall (wf now) l → Forall (shape_of now time_range) l →
  chained (gap_of time_range) l →
  l !! i = Some w → l !! S i = Some w' → whole time_range w.
Proof.
  intros Htr Hwf Hsh Hch Hi Hi'.
  rewrite Forall_forall in Hwf, Hsh.
  apply (shape_whole now); [done | |].
  - apply Hsh. by eapply list_elem_of_lookup_2.
  - destruct (Hwf w') as (_ & _ & _ & Hold & _); [by eapply list_elem_of_lookup_2 |].
    pose proof (Hch i w w' Hi Hi') as E. cbv beta in E.
    pose proof (gap_of_nonneg time_range). lia.
Qed.

(** *** The names of the granularities *)

Lemma get_periods_unknown now time_range start_year stop_year :
  time_range ∉ granularities →
  get_periods now time_range start_year stop_year = Some [].
Proof.
  intros H. unfold get_periods. rewrite get_periods_dt_loop. unfold loop_of.
  unfold granularities in H. rewrite !not_elem_of_cons in H.
  destruct H as (H1 & H2 & H3 & H4 & H5 & _).
  apply String.eqb_neq in H1, H2, H3, H4, H5.
  by rewrite H1, H2, H3, H4, H5.
Qed.



(** *** No accepted candidate is left out *)

Lemma month_offset_mono leap m m' :
  1 ≤ m → m ≤ m' → m' ≤ 13 → month_offset leap m ≤ month_offset leap m'.
Proof.
  intros H1 Hle H13.
  assert (∀ k : nat, m + Z.of_nat k ≤ 13 →
            month_offset leap m ≤ month_offset leap (m + Z.of_nat k)) as H.
  { induction k as [| k IH]; intros Hk.
    - replace (m + Z.of_nat 0) with m by lia. lia.
    - replace (m + Z.of_nat (S k)) with (m + Z.of_nat k + 1) by lia.
      rewrite month_offset_succ by lia.
      pose proof (month_length_pos leap (m + Z.of_nat k) ltac:(lia)).
      specialize (IH ltac:(lia)). lia. }
  specialize (H (Z.to_nat (m' - m)) ltac:(lia)).
  by replace (m + Z.of_nat (Z.to_nat (m' - m))) with m' in H by lia.
Qed.

Lemma ymd2ord_inj y m d y' m' d' :
  valid_date y m d = true → valid_date y' m' d' = true →
  ymd2ord y m d = ymd2ord y' m' d' → y = y' ∧ m = m' ∧ d = d'.
Proof.
  intros V V' E.
  pose proof (ymd2ord_bounds _ _ _ V) as B.
  pose proof (ymd2ord_bounds _ _ _ V') as B'.
  assert (y = y') as <-.
  { destruct (Z.lt_trichotomy y y') as [H | [H | H]]; [| done |].
    - pose proof (days_before_year_mono (y + 1) y' ltac:(lia)). lia.
    - pose proof (days_before_year_mono (y' + 1) y ltac:(lia)). lia. }
  split; [reflexivity |].
  apply valid_date_spec in V as (_ & Hm & Hd).
  apply valid_date_spec in V' as (_ & Hm' & Hd').
  unfold ymd2ord, days_before_month, days_in_month in *.
  assert (m = m') as <-.
  { destruct (Z.lt_trichotomy m m') as [H | [H | H]]; [| done |].
    - pose proof (month_offset_mono (is_leap y) (m + 1) m' ltac:(lia) ltac:(lia)
                    ltac:(lia)) as M.
      rewrite month_offset_succ in M by lia. lia.
    - pose proof (month_offset_mono (is_leap y) (m' + 1) m ltac:(lia) ltac:(lia)
                    ltac:(lia)) as M.
      rewrite month_offset_succ in M by lia. lia. }
  split; [reflexivity | lia].
Qed.

Lemma gathered_empty cand now lo st : gathered cand now lo lo st.
Proof. intros y m d h dt _ _ H. lia. Qed.

Lemma gathered_dead cand now lo F F' st :
  dead now F → gathered cand now lo F st → gathered cand now lo F' st.
Proof.
  intros Hd Hg y m d h dt Hc Hdt Hr C.
  destruct (decide (to_us dt < F)) as [Hlt | Hge].
  - apply (Hg y m d h dt); auto. lia.
  - rewrite (check_invalid_date_dead now y m d h dt Hdt) in C; [done |].
    unfold dead in *. lia.
Qed.

Section gathering.
Context (shape : window → Prop) (gap : Z) (cand : Z → Z → Z → Prop)
        (now : datetime) (lo : Z).

Lemma gathering_stopped F F' st :
  stopped st →
  inv shape gap now F st ∧ gathered cand now lo F st → F ≤ F' →
  inv shape gap now F' st ∧ gathered cand now lo F' st.
Proof.
  intros Hs [Hi Hg] HF. split; [by apply (inv_stopped shape gap now F) |].
  apply (gathered_dead cand now lo F); [| done].
  by apply (inv_stop _ _ _ _ _ Hi).
Qed.

(** One candidate, the only one between the frontier and the next. *)
Lemma step_gathers F F' st r :
  gathered cand now lo F st →
  step (inv shape gap now) stopped F' r →
  grows st (state_of r) →
  (∀ y m d h dt, cand m d h → datetime_new y m d h = Some dt →
     F ≤ to_us dt < F' → check_invalid_date now y m d h = false →
     ∃ e, (dt, e) ∈ day_periods (state_of r)) →
  step (λ F s, inv shape gap now F s ∧ gathered cand now lo F s) stopped F' r.
Proof.
  intros Hg Hs Hgr Hnew.
  assert (gathered cand now lo F' (state_of r)) as Hg'.
  { intros y m d h dt Hc Hdt Hr C.
    destruct (decide (to_us dt < F)) as [Hlt | Hge].
    - destruct (Hg y m d h dt) as [e He]; auto; [lia |].
      exists e. destruct Hgr as [k ->]. apply elem_of_app. by left.
    - apply (Hnew y m d h dt); auto. lia. }
  destruct r as [s' | s']; simpl in *; [done |].
  destruct Hs as [Hi Hst]. done.
Qed.

(** A body that is idle between two frontiers with no candidate. *)
Lemma gathers_appended st (r : flow locals) dt (c : bool) :
  (if c then r = Next st
   else ∃ e, day_periods (state_of r) = day_periods st ++ [(dt, e)]) →
  c = false → ∃ e, (dt, e) ∈ day_periods (state_of r).
Proof.
  intros H ->. destruct H as [e ->]. exists e. apply elem_of_app. right. by left.
Qed.
End gathering.


(** The candidates between one frontier and the next. *)
Lemma candidate_on_day y m d y' m' d' h' dt' :
  valid_date y m d = true → datetime_new y' m' d' h' = Some dt' →
  day_start y m d ≤ to_us dt' < day_start y m d + us_per_day →
  y' = y ∧ m' = m ∧ d' = d.
Proof.
  intros V Hdt. rewrite (datetime_new_to_us _ _ _ _ _ Hdt).
  apply datetime_new_Some in Hdt as (V' & Hh & _).
  unfold day_start. intros Hr.
  assert (ymd2ord y' m' d' = ymd2ord y m d) as E
    by (unfold us_per_day, us_per_hour, us_per_second in Hr; lia).
  by apply ymd2ord_inj in E as (-> & -> & ->).
Qed.

Lemma candidate_in_month y m y' m' d' h' dt' :
  1 ≤ y ≤ 9999 → 1 ≤ m ≤ 12 → datetime_new y' m' d' h' = Some dt' →
  month_start y m ≤ to_us dt' < month_start y (m + 1) →
  y' = y ∧ m' = m.
Proof.
  intros Hy Hm Hdt. rewrite month_start_succ by done.
  rewrite (datetime_new_to_us _ _ _ _ _ Hdt).
  apply datetime_new_Some in Hdt as (V' & Hh & _).
  pose proof (month_length_pos (is_leap y) m Hm) as Hlen.
  fold (days_in_month y m) in Hlen.
  unfold month_start, day_start. intros Hr.
  set (d0 := ymd2ord y' m' d' - ymd2ord y m 1 + 1).
  assert (1 ≤ d0 ≤ days_in_month y m) as Hd0.
  { unfold d0, ymd2ord, us_per_day, us_per_hour, us_per_second in *. lia. }
  assert (ymd2ord y' m' d' = ymd2ord y m d0) as E by (unfold d0, ymd2ord; lia).
  apply ymd2ord_inj in E as (-> & -> & _); [done | done |].
  apply valid_date_spec. lia.
Qed.

Lemma candidate_in_year y y' m' d' h' dt' :
  1 ≤ y ≤ 9999 → datetime_new y' m' d' h' = Some dt' →
  year_start y ≤ to_us dt' < year_start (y + 1) → y' = y.
Proof.
  intros Hy Hdt. rewrite (datetime_new_to_us _ _ _ _ _ Hdt).
  apply datetime_new_Some in Hdt as (V' & Hh & _).
  pose proof (ymd2ord_bounds _ _ _ V') as B.
  unfold year_start.
  replace (Z.min (Z.max y 1) 10000) with y by lia.
  replace (Z.min (Z.max (y + 1) 1) 10000) with (y + 1) by lia.
  intros Hr.
  assert (days_before_year y < ymd2ord y' m' d' ≤ days_before_year (y + 1)) as B'
    by (unfold us_per_day, us_per_hour, us_per_second in Hr; lia).
  destruct (Z.lt_trichotomy y' y) as [H | [H | H]]; [| done |].
  - pose proof (days_before_year_mono (y' + 1) y ltac:(lia)). lia.
  - pose proof (days_before_year_mono (y + 1) y' ltac:(lia)). lia.
Qed.

Section gather.
Context (now : datetime) (lo : Z) (cand : Z → Z → Z → Prop).
Hypothesis now_valid : valid_datetime now = true.

Lemma hourly_body_gathers y m d h st r :
  valid_date y m d = true → 0 ≤ h ≤ 23 →
  inv hour_shape 0 now (day_start y m d + h * us_per_hour) st ∧
  gathered cand now lo (day_start y m d + h * us_per_hour) st →
  hourly_body now y m d h st = Some r →
  step (λ F s, inv hour_shape 0 now F s ∧ gathered cand now lo F s) stopped
       (day_start y m d + (h + 1) * us_per_hour) r.
Proof.
  intros V Hh [Hi Hg] Hr.
  apply (step_gathers hour_shape 0 cand now lo
           (day_start y m d + h * us_per_hour) _ st r Hg).
  - exact (hourly_body_step now y m d h st r V Hh Hi Hr).
  - by apply hourly_body_grows in Hr.
  - intros y' m' d' h' dt' _ Hdt Hrange C.
    destruct (candidate_on_day y m d y' m' d' h' dt' V Hdt) as (-> & -> & ->).
    { unfold us_per_day, us_per_hour, us_per_second in *. lia. }
    assert (h' = h) as ->.
    { rewrite (datetime_new_to_us _ _ _ _ _ Hdt) in Hrange.
      unfold day_start, us_per_hour, us_per_second in Hrange. lia. }
    apply datetime_new_Some in Hdt as (_ & _ & ->).
    apply hourly_body_appends in Hr. by apply (gathers_appended st r _ _ Hr).
Qed.

Lemma hourly_gathers start_year stop_year st :
  start_year ≤ stop_year + 1 → lo = year_start start_year →
  hourly now start_year stop_year (mk_locals [] false) = Some st →
  gathered cand now lo (year_start (stop_year + 1)) st.
Proof.
  intros Hle Hlo Hrun. unfold hourly in Hrun.
  pose (P' := λ F s, inv hour_shape 0 now F s ∧
                     gathered cand now lo F s).
  assert (∀ F F' s, stopped s → P' F s → F ≤ F' → P' F' s) as Hdead
    by (intros F F' s; apply gathering_stopped).
  assert (gathered cand now lo (year_start start_year) (mk_locals [] false))
    as Hinit by (rewrite <- Hlo; apply gathered_empty).
  refine (proj2 (years_loop P' stopped Hdead _ start_year (stop_year + 1) Hle
                   _ _ _ st (conj (inv_empty _ _ _ _) Hinit) Hrun)).
  - intros y s r Hy HP (s' & -> & Hr)%inner_Some. simpl.
    refine (months_loop P' stopped Hdead _ y Hy _ s s' HP Hr).
    intros m s1 r1 Hm HP1 (s1' & -> & Hr1)%inner_Some. simpl.
    refine (days_loop P' stopped Hdead _ y m Hy Hm _ _ s1 s1' HP1 Hr1).
    + intros d s2 r2 Hd HP2 (s2' & -> & Hr2)%inner_Some. simpl.
      assert (valid_date y m d = true) as V by (apply valid_date_spec; lia).
      set (f := λ h, day_start y m d + h * us_per_hour).
      replace (day_start y m (d + 1)) with (f (23 + 1))
        by (unfold f, day_start, ymd2ord, us_per_day; lia).
      assert (P' (f 0) s2) as HP0 by (unfold f; by rewrite Z.add_0_r).
      refine (for_each_range P' stopped Hdead _ f 0 (23 + 1) ltac:(lia)
                _ _ s2 s2' HP0 Hr2).
      * intros h Hh. unfold f, us_per_hour, us_per_second. lia.
      * intros h s3 r3 Hh HP3 Hr3.
        apply (hourly_body_gathers y m d h s3); auto. lia.
    + intros d s2 Hd. unfold inner. rewrite for_each_idle; [reflexivity |].
      intros h _. apply hourly_body_idle. by apply valid_date_late.
  - intros y s Hy. unfold inner. rewrite for_each_idle; [reflexivity |].
    intros m _. unfold inner. rewrite for_each_idle; [reflexivity |].
    intros d _. unfold inner. rewrite for_each_idle; [reflexivity |].
    intros h _. apply hourly_body_idle. by apply valid_date_outside.
Qed.

Lemma daily_body_gathers y m d st r :
  (∀ m d h, cand m d h → h = 0) →
  valid_date y m d = true →
  inv (day_shape now) 0 now (day_start y m d) st ∧
  gathered cand now lo (day_start y m d) st →
  daily_body now y m d st = Some r →
  step (λ F s, inv (day_shape now) 0 now F s ∧ gathered cand now lo F s) stopped
       (day_start y m (d + 1)) r.
Proof.
  intros Hc V [Hi Hg] Hr.
  apply (step_gathers (day_shape now) 0 cand now lo (day_start y m d) _ st r Hg).
  - exact (daily_body_step now now_valid y m d st r V Hi Hr).
  - by apply daily_body_grows in Hr.
  - intros y' m' d' h' dt' Hcand Hdt Hrange C.
    apply Hc in Hcand as ->.
    destruct (candidate_on_day y m d y' m' d' 0 dt' V Hdt) as (-> & -> & ->).
    { unfold day_start, ymd2ord in *. lia. }
    apply datetime_new_Some in Hdt as (_ & _ & ->).
    apply daily_body_appends in Hr. by apply (gathers_appended st r _ _ Hr).
Qed.

Lemma daily_gathers start_year stop_year st :
  (∀ m d h, cand m d h → h = 0) →
  start_year ≤ stop_year + 1 → lo = year_start start_year →
  daily now start_year stop_year (mk_locals [] false) = Some st →
  gathered cand now lo (year_start (stop_year + 1)) st.
Proof.
  intros Hc Hle Hlo Hrun. unfold daily in Hrun.
  pose (P' := λ F s, inv (day_shape now) 0 now F s ∧
                     gathered cand now lo F s).
  assert (∀ F F' s, stopped s → P' F s → F ≤ F' → P' F' s) as Hdead
    by (intros F F' s; apply gathering_stopped).
  assert (gathered cand now lo (year_start start_year) (mk_locals [] false))
    as Hinit by (rewrite <- Hlo; apply gathered_empty).
  refine (proj2 (years_loop P' stopped Hdead _ start_year (stop_year + 1) Hle
                   _ _ _ st (conj (inv_empty _ _ _ _) Hinit) Hrun)).
  - intros y s r Hy HP (s' & -> & Hr)%inner_Some. simpl.
    refine (months_loop P' stopped Hdead _ y Hy _ s s' HP Hr).
    intros m s1 r1 Hm HP1 (s1' & -> & Hr1)%inner_Some. simpl.
    refine (days_loop P' stopped Hdead _ y m Hy Hm _ _ s1 s1' HP1 Hr1).
    + intros d s2 r2 Hd HP2 Hr2.
      apply (daily_body_gathers y m d s2); auto. apply valid_date_spec. lia.
    + intros d s2 Hd. apply daily_body_idle. by apply valid_date_late.
  - intros y s Hy. unfold inner. rewrite for_each_idle; [reflexivity |].
    intros m _. unfold inner. rewrite for_each_idle; [reflexivity |].
    intros d _. apply daily_body_idle. by apply valid_date_outside.
Qed.

Lemma monthly_body_gathers y m st r :
  (∀ m d h, cand m d h → d = 1 ∧ h = 0) →
  1 ≤ y ≤ 9999 → 1 ≤ m ≤ 12 →
  inv (month_shape now) (timedelta_seconds 1) now (month_start y m) st ∧
  gathered cand now lo (month_start y m) st →
  monthly_body now y m st = Some r →
  step (λ F s, inv (month_shape now) (timedelta_seconds 1) now F s ∧
               gathered cand now lo F s) stopped
       (month_start y (m + 1)) r.
Proof.
  intros Hc Hy Hm [Hi Hg] Hr.
  apply (step_gathers (month_shape now) _ cand now lo (month_start y m) _ st r Hg).
  - exact (monthly_body_step now now_valid y m st r Hy Hm Hi Hr).
  - by apply monthly_body_grows in Hr.
  - intros y' m' d' h' dt' Hcand Hdt Hrange C.
    apply Hc in Hcand as [-> ->].
    destruct (candidate_in_month y m y' m' 1 0 dt' Hy Hm Hdt Hrange) as (-> & ->).
    apply datetime_new_Some in Hdt as (_ & _ & ->).
    apply monthly_body_appends in Hr. by apply (gathers_appended st r _ _ Hr).
Qed.

Lemma monthly_gathers start_year stop_year st :
  (∀ m d h, cand m d h → d = 1 ∧ h = 0) →
  start_year ≤ stop_year + 1 → lo = year_start start_year →
  monthly now start_year stop_year (mk_locals [] false) = Some st →
  gathered cand now lo (year_start (stop_year + 1)) st.
Proof.
  intros Hc Hle Hlo Hrun. unfold monthly in Hrun.
  pose (P' := λ F s, inv (month_shape now) (timedelta_seconds 1) now F s ∧
                     gathered cand now lo F s).
  assert (∀ F F' s, stopped s → P' F s → F ≤ F' → P' F' s) as Hdead
    by (intros F F' s; apply gathering_stopped).
  assert (gathered cand now lo (year_start start_year) (mk_locals [] false))
    as Hinit by (rewrite <- Hlo; apply gathered_empty).
  refine (proj2 (years_loop P' stopped Hdead _ start_year (stop_year + 1) Hle
                   _ _ _ st (conj (inv_empty _ _ _ _) Hinit) Hrun)).
  - intros y s r Hy HP (s' & -> & Hr)%inner_Some. simpl.
    refine (months_loop P' stopped Hdead _ y Hy _ s s' HP Hr).
    intros m s1 r1 Hm HP1 Hr1. by apply (monthly_body_gathers y m s1).
  - intros y s Hy. unfold inner. rewrite for_each_idle; [reflexivity |].
    intros m _. by apply monthly_body_idle.
Qed.

Lemma yearly_body_gathers y st r :
  (∀ m d h, cand m d h → m = 1 ∧ d = 1 ∧ h = 0) →
  1 ≤ y ≤ 9999 →
  inv (year_shape now) (timedelta_seconds 1) now (year_start y) st ∧
  gathered cand now lo (year_start y) st →
  yearly_body now y st = Some r →
  step (λ F s, inv (year_shape now) (timedelta_seconds 1) now F s ∧
               gathered cand now lo F s) stopped
       (year_start (y + 1)) r.
Proof.
  intros Hc Hy [Hi Hg] Hr.
  apply (step_gathers (year_shape now) _ cand now lo (year_start y) _ st r Hg).
  - exact (yearly_body_step now now_valid y st r Hy Hi Hr).
  - by apply yearly_body_grows in Hr.
  - intros y' m' d' h' dt' Hcand Hdt Hrange C.
    apply Hc in Hcand as (-> & -> & ->).
    destruct (candidate_in_year y y' 1 1 0 dt' Hy Hdt Hrange).
    apply datetime_new_Some in Hdt as (_ & _ & ->).
    apply yearly_body_appends in Hr. by apply (gathers_appended st r _ _ Hr).
Qed.

Lemma yearly_gathers start_year stop_year st :
  (∀ m d h, cand m d h → m = 1 ∧ d = 1 ∧ h = 0) →
  start_year ≤ stop_year + 1 → lo = year_start start_year →
  yearly now start_year stop_year (mk_locals [] false) = Some st →
  gathered cand now lo (year_start (stop_year + 1)) st.
Proof.
  intros Hc Hle Hlo Hrun. unfold yearly in Hrun.
  pose (P' := λ F s, inv (year_shape now) (timedelta_seconds 1) now F s ∧
                     gathered cand now lo F s).
  assert (∀ F F' s, stopped s → P' F s → F ≤ F' → P' F' s) as Hdead
    by (intros F F' s; apply gathering_stopped).
  assert (gathered cand now lo (year_start start_year) (mk_locals [] false))
    as Hinit by (rewrite <- Hlo; apply gathered_empty).
  refine (proj2 (years_loop P' stopped Hdead _ start_year (stop_year + 1) Hle
                   _ _ _ st (conj (inv_empty _ _ _ _) Hinit) Hrun)).
  - intros y s r Hy HP Hr. by apply (yearly_body_gathers y s).
  - intros y s Hy. unfold yearly_body.
    rewrite check_invalid_date_invalid; [done | by apply valid_date_outside].
Qed.
End gather.

(** A candidate of the years from [start_year] to [stop_year] lies between
    the first frontier and the last. *)
Lemma candidate_in_range start_year stop_year y m d h dt :
  1 ≤ start_year → start_year ≤ y ≤ stop_year →
  datetime_new y m d h = Some dt →
  year_start start_year ≤ to_us dt < year_start (stop_year + 1).
Proof.
  intros Hs Hy Hdt.
  split; [apply (candidate_after_new_year start_year y m d h dt); [lia | done] |].
  rewrite (datetime_new_to_us _ _ _ _ _ Hdt).
  apply datetime_new_Some in Hdt as (V & Hh & _).
  pose proof (ymd2ord_bounds _ _ _ V) as B.
  apply valid_date_spec in V as (Hy' & _).
  pose proof (year_start_mono (y + 1) (stop_year + 1) ltac:(lia)) as M.
  unfold year_start in M at 1.
  replace (Z.min (Z.max (y + 1) 1) 10000) with (y + 1) in M by lia.
  unfold us_per_day, us_per_hour, us_per_second in *. lia.
Qed.

Lemma loop_of_gathers now time_range start_year stop_year st :
  valid_datetime now = true →
  time_range ∈ ["hourly"; "daily"; "monthly"; "yearly"]%string →
  start_year ≤ stop_year + 1 →
  loop_of now time_range start_year stop_year (mk_locals [] false) = Some st →
  gathered (candidate time_range) now (year_start start_year)
           (year_start (stop_year + 1)) st.
Proof.
  intros Hnow Htr Hle.
  repeat (apply elem_of_cons in Htr as [-> | Htr]);
    [.. | by apply elem_of_nil in Htr]; unfold loop_of; simpl.
  - by apply hourly_gathers.
  - apply daily_gathers; auto.
  - apply monthly_gathers; auto.
  - apply yearly_gathers; auto.
Qed.


(** *** The years of the windows *)

Section years.
Context (now : datetime) (Q : window → Prop).

Lemma loop_forall {A : Type} (body : A → locals → option (flow locals)) xs :
  (∀ x s r, x ∈ xs → Forall Q (day_periods s) → body x s = Some r →
     Forall Q (day_periods (state_of r))) →
  ∀ s s', Forall Q (day_periods s) → for_each body xs s = Some s' →
          Forall Q (day_periods s').
Proof.
  intros Hbody s s'.
  apply (for_each_inv (λ s, Forall Q (day_periods s))
           (λ s, Forall Q (day_periods s)) body xs); [done |].
  intros x s1 r Hx Hs Hr. specialize (Hbody x s1 r Hx Hs Hr). by destruct r.
Qed.

Lemma inner_forall (loop : locals → option locals) s r :
  (∀ s', loop s = Some s' → Forall Q (day_periods s')) →
  inner loop s = Some r → Forall Q (day_periods (state_of r)).
Proof. intros H (s' & -> & Hl)%inner_Some. simpl. by apply H. Qed.

Lemma appended_forall (c : bool) st (r : flow locals) (start : datetime) :
  (if c then r = Next st
   else ∃ e, day_periods (state_of r) = day_periods st ++ [(start, e)]) →
  (∀ e, Q (start, e)) →
  Forall Q (day_periods st) → Forall Q (day_periods (state_of r)).
Proof.
  intros H HQ Hst. destruct c.
  - by subst r.
  - destruct H as [e ->]. apply Forall_app. split; [done |]. by constructor.
Qed.
End years.

Lemma loop_of_years now time_range start_year stop_year st :
  time_range ∈ ["hourly"; "daily"; "monthly"; "yearly"]%string →
  loop_of now time_range start_year stop_year (mk_locals [] false) = Some st →
  Forall (λ w, start_year ≤ year (fst w) ≤ stop_year) (day_periods st).
Proof.
  intros Htr.
  set (Q := λ w : window, start_year ≤ year (fst w) ≤ stop_year).
  assert (Forall Q (day_periods (mk_locals [] false))) as H0 by constructor.
  repeat (apply elem_of_cons in Htr as [-> | Htr]);
    [.. | by apply elem_of_nil in Htr]; unfold loop_of; simpl; revert H0;
    generalize (mk_locals [] false); intros s0 H0.
  - unfold hourly. apply (loop_forall Q); [| done].
    intros y s r Hy%elem_of_range Hs. apply inner_forall. intros s'.
    apply (loop_forall Q); [| done].
    intros m s1 r1 _ Hs1. apply inner_forall. intros s1'.
    apply (loop_forall Q); [| done].
    intros d s2 r2 _ Hs2. apply inner_forall. intros s2'.
    apply (loop_forall Q); [| done].
    intros h s3 r3 _ Hs3 Hr%hourly_body_appends.
    apply (appended_forall Q _ s3 r3 _ Hr); [| done]. intros e. unfold Q. simpl. lia.
  - unfold daily. apply (loop_forall Q); [| done].
    intros y s r Hy%elem_of_range Hs. apply inner_forall. intros s'.
    apply (loop_forall Q); [| done].
    intros m s1 r1 _ Hs1. apply inner_forall. intros s1'.
    apply (loop_forall Q); [| done].
    intros d s2 r2 _ Hs2 Hr%daily_body_appends.
    apply (appended_forall Q _ s2 r2 _ Hr); [| done]. intros e. unfold Q. simpl. lia.
  - unfold monthly. apply (loop_forall Q); [| done].
    intros y s r Hy%elem_of_range Hs. apply inner_forall. intros s'.
    apply (loop_forall Q); [| done].
    intros m s1 r1 _ Hs1 Hr%monthly_body_appends.
    apply (appended_forall Q _ s1 r1 _ Hr); [| done]. intros e. unfold Q. simpl. lia.
  - unfold yearly. apply (loop_forall Q); [| done].
    intros y s r Hy%elem_of_range Hs Hr%yearly_body_appends.
    apply (appended_forall Q _ s r _ Hr); [| done]. intros e. unfold Q. simpl. lia.
Qed.

End CoverageFacts.

(** ** Further properties of the period generator *)

Import Calendar Utils Spec Claims Coverage.
Import CalendarFacts UtilsFacts PeriodFacts GeneratorFacts TotalFacts CoverageFacts.

(** X1: [get_number_of_days] counts the days from the first of January of
    [start_year] to the first of January of the year after [stop_year]. *)
Theorem get_number_of_days_span start_year stop_year :
  2006 ≤ start_year → start_year ≤ stop_year → stop_year ≤ 9998 →
  get_number_of_days start_year stop_year
  = ymd2ord (stop_year + 1) 1 1 - ymd2ord start_year 1 1.
Proof.
  intros _ Hle _. rewrite get_number_of_days_eq by lia.
  unfold ymd2ord, days_before_month. simpl. lia.
Qed.

Lemma get_number_of_days_span_witness :
  get_number_of_days 2020 2021 = ymd2ord 2022 1 1 - ymd2ord 2020 1 1.
Proof. apply (get_number_of_days_span 2020 2021); lia. Defined.

(** X2: a name that is none of the five granularities selects no branch of
    [get_periods]: the result is the empty list, and no exception. *)
Theorem unknown_time_range now time_range start_year stop_year :
  time_range ∉ granularities →
  get_periods now time_range start_year stop_year = Some [].
Proof. apply get_periods_unknown. Qed.

Lemma unknown_time_range_witness :
  get_periods a_now "minutely" 2021 2022 = Some [].
Proof.
  apply (unknown_time_range a_now "minutely" 2021 2022).
  apply (bool_decide_eq_true_1 _). vm_compute. reflexivity.
Defined.

(** X3: the list that [get_periods] returns is empty or holds one group of
    windows, which is not empty. *)
Theorem get_periods_one_group now time_range start_year stop_year all_periods :
  get_periods now time_range start_year stop_year = Some all_periods →
  all_periods = [] ∨ ∃ w ws, all_periods = [w :: ws].
Proof.
  unfold get_periods. intros H. apply fmap_Some in H as (ps & H & ->).
  apply get_periods_dt_locals in H as [st ->].
  destruct (day_periods st) as [| w ws]; simpl; eauto.
Qed.

Lemma get_periods_one_group_witness :
  ∃ all_periods, get_periods a_now "yearly" 2021 2022 = Some all_periods ∧
    (all_periods = [] ∨ ∃ w ws, all_periods = [w :: ws]).
Proof.
  eexists. split; [vm_compute; reflexivity |].
  apply (get_periods_one_group a_now "yearly" 2021 2022). vm_compute. reflexivity.
Defined.

(** X4: the weekly branch builds the first of January of [start_year] before
    its loop: a [start_year] that is no year of the calendar makes
    [get_periods] raise. *)
Theorem weekly_start_year_raises now start_year stop_year :
  ¬ 1 ≤ start_year ≤ 9999 →
  get_periods now "weekly" start_year stop_year = None.
Proof.
  intros Hy. unfold get_periods. rewrite get_periods_dt_loop.
  unfold loop_of. simpl. unfold weekly.
  replace (datetime_new start_year 1 1 0) with (@None datetime); [reflexivity |].
  symmetry. apply datetime_new_None. left. by apply valid_date_outside.
Qed.

Lemma weekly_start_year_raises_witness :
  get_periods a_now "weekly" 10000 10000 = None.
Proof. apply (weekly_start_year_raises a_now 10000 10000). lia. Defined.





(** X7: when the first hour of the year after [stop_year] is itself accepted by
    [check_invalid_date], the whole range of years lies in the past, and the
    hourly, daily, monthly and yearly windows tile it: the first window
    starts with the first of January of [start_year], each next window
    starts where the one before it ends (a second later for months and
    years), and the last window ends with the first of January of the year
    after [stop_year] (a second before it for months and years). *)
Theorem past_years_tiled now time_range start_year stop_year :
  valid_datetime now = true → year now ≤ 9998 →
  time_range ∈ ["hourly"; "daily"; "monthly"; "yearly"]%string →
  2006 ≤ start_year ≤ stop_year →
  check_invalid_date now (stop_year + 1) 1 1 0 = false →
  ∃ ws, get_periods_dt now time_range start_year stop_year = Some [ws] ∧
        tiles (gap_of time_range) (to_us (new_year start_year))
              (to_us (new_year (stop_year + 1))) ws.
Proof.
  intros Hnow Hearly Htr Hy' C. assert (1 ≤ start_year ≤ stop_year) as Hy by lia.
  assert (time_range ∈ granularities) as Hg.
  { repeat (apply elem_of_cons in Htr as [-> | Htr]);
      [.. | by apply elem_of_nil in Htr]; apply in_granularities; reflexivity. }
  destruct (get_periods_dt_total now Hnow Hearly time_range start_year stop_year Hg)
    as [ps Hps]; [intros _; pose proof (stop_year_valid now stop_year C); lia |].
  rewrite get_periods_dt_loop in Hps |- *.
  apply bind_Some in Hps as (st & Hst & _). rewrite Hst, bind_Some_eq.
  exists (day_periods st).
  assert (tiles (gap_of time_range) (to_us (new_year start_year))
            (to_us (new_year (stop_year + 1))) (day_periods st)) as Ht.
  { repeat (apply elem_of_cons in Htr as [-> | Htr]);
      [.. | by apply elem_of_nil in Htr]; unfold loop_of in Hst; simpl in Hst.
    - exact (proj1 (hourly_past now start_year stop_year Hy C st Hst)).
    - exact (proj1 (daily_past now start_year stop_year Hnow Hy C st Hst)).
    - exact (monthly_past now start_year stop_year Hnow Hy C st Hst).
    - exact (yearly_past now start_year stop_year Hnow Hy C st Hst). }
  split; [| exact Ht].
  destruct Ht as ((w & Hw & _) & _). destruct (day_periods st); [discriminate | done].
Qed.

Lemma past_years_tiled_witness :
  ∃ ws, get_periods_dt a_now "yearly" 2020 2021 = Some [ws] ∧
        tiles (gap_of "yearly") (to_us (new_year 2020)) (to_us (new_year 2022)) ws.
Proof.
  apply (past_years_tiled a_now "yearly" 2020 2021).
  - reflexivity.
  - simpl. lia.
  - apply (bool_decide_eq_true_1 _). vm_compute. reflexivity.
  - lia.
  - vm_compute. reflexivity.
Defined.

(** X8: over a range of years that lies in the past there is one daily window
    for each day that [get_number_of_days] counts and one hourly window for
    each hour of these days; every daily window is a day long and every
    hourly window an hour. *)
Theorem past_years_counted now start_year stop_year :
  valid_datetime now = true → year now ≤ 9998 →
  2006 ≤ start_year ≤ stop_year →
  check_invalid_date now (stop_year + 1) 1 1 0 = false →
  (∃ ws, get_periods_dt now "daily" start_year stop_year = Some [ws] ∧
         all_long (timedelta_days 1) ws ∧
         Z.of_nat (length ws) = get_number_of_days start_year stop_year) ∧
  (∃ ws, get_periods_dt now "hourly" start_year stop_year = Some [ws] ∧
         all_long (timedelta_hours 1) ws ∧
         Z.of_nat (length ws) = 24 * get_number_of_days start_year stop_year).
Proof.
  intros Hnow Hearly Hy' C. assert (1 ≤ start_year ≤ stop_year) as Hy by lia.
  pose proof (span_days now start_year stop_year Hy C) as Hspan.
  split.
  - destruct (get_periods_dt_total now Hnow Hearly "daily" start_year stop_year)
      as [ps Hps]; [apply in_granularities; reflexivity | discriminate |].
    rewrite get_periods_dt_loop in Hps |- *.
    apply bind_Some in Hps as (st & Hst & _). rewrite Hst, bind_Some_eq.
    unfold loop_of in Hst. simpl in Hst.
    destruct (daily_past now start_year stop_year Hnow Hy C st Hst) as [Ht Hl].
    exists (day_periods st). split; [| split; [exact Hl |]].
    + destruct Ht as ((w & Hw & _) & _).
      destruct (day_periods st); [discriminate | done].
    + pose proof (tiles_length _ _ _ _ Ht Hl) as E.
      unfold timedelta_days, us_per_day, us_per_hour, us_per_second in *. lia.
  - destruct (get_periods_dt_total now Hnow Hearly "hourly" start_year stop_year)
      as [ps Hps]; [apply in_granularities; reflexivity | discriminate |].
    rewrite get_periods_dt_loop in Hps |- *.
    apply bind_Some in Hps as (st & Hst & _). rewrite Hst, bind_Some_eq.
    unfold loop_of in Hst. simpl in Hst.
    destruct (hourly_past now start_year stop_year Hy C st Hst) as [Ht Hl].
    exists (day_periods st). split; [| split; [exact Hl |]].
    + destruct Ht as ((w & Hw & _) & _).
      destruct (day_periods st); [discriminate | done].
    + pose proof (tiles_length _ _ _ _ Ht Hl) as E.
      unfold timedelta_hours, us_per_day, us_per_hour, us_per_second in *. lia.
Qed.

Lemma past_years_counted_witness :
  ∃ ws, get_periods_dt a_now "daily" 2020 2021 = Some [ws] ∧
        all_long (timedelta_days 1) ws ∧
        Z.of_nat (length ws) = get_number_of_days 2020 2021.
Proof.
  apply (past_years_counted a_now 2020 2021).
  - reflexivity.
  - simpl. lia.
  - lia.
  - vm_compute. reflexivity.
Defined.

(** X9: the weekly windows do not follow the calendar.  Over a range of years
    that lies in the past (the sixth of January after it is accepted by
    [check_invalid_date]) the [i]-th window is the [i]-th stretch of seven
    days counted from the first of January of [start_year], and their
    number is that of the days of the range, less one, over seven, rounded
    up: the last window ends up to a day before, or up to five days after,
    the end of [stop_year]. *)
Theorem weekly_past_years now start_year stop_year :
  valid_datetime now = true →
  2006 ≤ start_year ≤ stop_year →
  check_invalid_date now (stop_year + 1) 1 6 0 = false →
  ∃ ws, get_periods_dt now "weekly" start_year stop_year = Some [ws] ∧
        Z.of_nat (length ws) = (get_number_of_days start_year stop_year + 5) / 7 ∧
        (∀ i w, ws !! i = Some w → week_from start_year i w) ∧
        get_number_of_days start_year stop_year - 1
          ≤ 7 * Z.of_nat (length ws)
          ≤ get_number_of_days start_year stop_year + 5.
Proof.
  intros Hnow Hy' C. assert (1 ≤ start_year ≤ stop_year) as Hy by lia.
  apply check_invalid_date_false in C as (dt & Hdt & Old).
  pose proof (datetime_new_to_us _ _ _ _ _ Hdt) as Hus.
  apply datetime_new_Some in Hdt as (V & _ & _).
  apply valid_date_spec in V as (Hs & _).
  set (N := get_number_of_days start_year stop_year).
  assert (N = days_before_year (stop_year + 1) - days_before_year start_year) as HN
    by (apply get_number_of_days_eq; lia).
  assert (365 ≤ N) as Hbig.
  { pose proof (days_before_year_mono (start_year + 1) (stop_year + 1) ltac:(lia)) as M.
    rewrite days_before_year_succ in M. destruct (is_leap start_year); lia. }
  pose proof (range_step_length 1 N 7 ltac:(lia) ltac:(lia)) as Hlen.
  replace ((N - 1 + 7 - 1) / 7) with ((N + 5) / 7) in Hlen by (f_equal; lia).
  assert (to_us (new_year start_year)
          = (days_before_year start_year + 1) * us_per_day) as HF0.
  { rewrite new_year_to_us by lia. unfold year_start.
    by replace (Z.min (Z.max start_year 1) 10000) with start_year by lia. }
  destruct (weekly_loop_past now start_year Hnow (range_step 1 N 7) 0
              (new_year start_year) (mk_locals [] false))
    as ([start' st'] & Hrun & Hl & Hw).
  - apply (datetime_new_valid start_year 1 1 0). apply new_year_Some. lia.
  - repeat split.
  - reflexivity.
  - unfold timedelta_days. simpl. lia.
  - reflexivity.
  - intros i w. simpl. by rewrite lookup_nil.
  - simpl. rewrite Hlen, HF0.
    unfold ymd2ord, days_before_month in Hus. simpl in Hus.
    unfold timedelta_days, timedelta_seconds, us_per_day, us_per_hour,
      us_per_second in *.
    assert (7 * ((N + 5) / 7) ≤ N + 5) by divmod. lia.
  - simpl in Hl, Hw. rewrite get_periods_dt_loop. unfold loop_of. simpl.
    unfold weekly. rewrite (new_year_Some start_year) by lia. rewrite bind_Some_eq.
    fold N. rewrite Hrun. simpl.
    assert (Z.of_nat (length (day_periods st')) = (N + 5) / 7) as Hcount
      by (rewrite Hl; exact Hlen).
    exists (day_periods st'). split; [| split; [exact Hcount | split; [exact Hw |]]].
    + destruct (day_periods st'); [| reflexivity].
      simpl in Hcount. exfalso. revert Hcount. divmod.
    + rewrite Hcount. divmod.
Qed.

Lemma weekly_past_years_witness :
  ∃ ws, get_periods_dt a_now "weekly" 2021 2021 = Some [ws] ∧
        Z.of_nat (length ws) = (get_number_of_days 2021 2021 + 5) / 7 ∧
        (∀ i w, ws !! i = Some w → week_from 2021 i w) ∧
        get_number_of_days 2021 2021 - 1
          ≤ 7 * Z.of_nat (length ws)
          ≤ get_number_of_days 2021 2021 + 5.
Proof.
  apply (weekly_past_years a_now 2021 2021).
  - reflexivity.
  - lia.
  - vm_compute. reflexivity.
Defined.

(** X10: only the last window of [get_periods] can be cut at [now]: a window
    that another one follows spans its whole hour, day, stretch of seven
    days, month or year. *)
Theorem only_last_window_cut now time_range start_year stop_year all_periods i w w' :
  valid_datetime now = true → time_range ∈ granularities →
  get_periods_dt now time_range start_year stop_year = Some all_periods →
  concat all_periods !! i = Some w → concat all_periods !! S i = Some w' →
  whole time_range w.
Proof.
  intros Hnow Htr Hrun Hi Hi'.
  destruct (get_periods_dt_inv _ _ _ _ _ Hnow Htr Hrun)
    as (F & st & E & [Hwf Hsh Hch _ _]).
  rewrite E in Hi, Hi'. by apply (not_last_whole now time_range (day_periods st) i w w').
Qed.

Lemma only_last_window_cut_witness :
  whole "weekly" (mk_datetime 2022 1 1 0 0 0 0, mk_datetime 2022 1 8 0 0 0 0).
Proof.
  eapply (only_last_window_cut a_now "weekly" 2022 2022 _ 0%nat).
  - reflexivity.
  - apply in_granularities. reflexivity.
  - vm_compute. reflexivity.
  - reflexivity.
  - reflexivity.
Defined.

(** X11: no candidate that [check_invalid_date] accepts is left out, whatever
    the [break]s of the loops: over the years from [start_year] to
    [stop_year], every hour (every first hour of a day, of a month, of a
    year, for the other granularities that follow the calendar) that
    [check_invalid_date] accepts is the start of a window of
    [get_periods]. *)
Theorem accepted_candidates_emitted now time_range start_year stop_year
    all_periods y m d h :
  valid_datetime now = true →
  time_range ∈ ["hourly"; "daily"; "monthly"; "yearly"]%string →
  get_periods_dt now time_range start_year stop_year = Some all_periods →
  2006 ≤ start_year → start_year ≤ y ≤ stop_year →
  candidate time_range m d h →
  check_invalid_date now y m d h = false →
  ∃ end_time, (mk_datetime y m d h 0 0 0, end_time) ∈ concat all_periods.
Proof.
  intros Hnow Htr Hrun Hs' Hy Hc C. assert (1 ≤ start_year) as Hs by lia.
  rewrite get_periods_dt_loop in Hrun.
  apply bind_Some in Hrun as (st & Hst & [= <-]).
  rewrite concat_periods.
  pose proof (loop_of_gathers now time_range start_year stop_year st Hnow Htr
                ltac:(lia) Hst) as Hg.
  pose proof C as C'. apply check_invalid_date_false in C' as (dt & Hdt & _).
  destruct (Hg y m d h dt Hc Hdt) as [e He]; [| done |].
  - by apply (candidate_in_range start_year stop_year y m d h).
  - exists e. by apply datetime_new_Some in Hdt as (_ & _ & ->).
Qed.

Lemma accepted_candidates_emitted_witness :
  ∃ all_periods,
    get_periods_dt a_now "daily" 2021 2022 = Some all_periods ∧
    ∃ end_time, (mk_datetime 2022 1 19 0 0 0 0, end_time) ∈ concat all_periods.
Proof.
  eexists. split; [vm_compute; reflexivity |].
  apply (accepted_candidates_emitted a_now "daily" 2021 2022 _ 2022 1 19 0).
  - reflexivity.
  - apply (bool_decide_eq_true_1 _). reflexivity.
  - vm_compute. reflexivity.
  - lia.
  - lia.
  - reflexivity.
  - vm_compute. reflexivity.
Defined.

(** X24: no hourly, daily, monthly or yearly window starts outside the
    years asked for: the year of the start of every window of [get_periods]
    lies between [start_year] and [stop_year]. *)
Theorem windows_within_years now time_range start_year stop_year all_periods :
  time_range ∈ ["hourly"; "daily"; "monthly"; "yearly"]%string →
  get_periods_dt now time_range start_year stop_year = Some all_periods →
  Forall (λ w, start_year ≤ year (fst w) ≤ stop_year) (concat all_periods).
Proof.
  intros Htr Hrun. rewrite get_periods_dt_loop in Hrun.
  apply bind_Some in Hrun as (st & Hst & [= <-]).
  rewrite concat_periods. by apply (loop_of_years now time_range).
Qed.

Lemma windows_within_years_witness :
  ∃ all_periods,
    get_periods_dt a_now "monthly" 2021 2022 = Some all_periods ∧
    Forall (λ w, 2021 ≤ year (fst w) ≤ 2022) (concat all_periods).
Proof.
  eexists. split; [vm_compute; reflexivity |].
  apply (windows_within_years a_now "monthly" 2021 2022).
  - apply (bool_decide_eq_true_1 _). reflexivity.
  - vm_compute. reflexivity.
Defined.

(** X25: an hourly window is never cut at [now]: every one of them, the
    last included, ends exactly one hour after it starts. *)
Theorem hourly_windows_whole now start_year stop_year all_periods :
  valid_datetime now = true →
  get_periods_dt now "hourly" start_year stop_year = Some all_periods →
  Forall (λ w, whole "hourly" w ∧ to_us (snd w) = to_us (fst w) + timedelta_hours 1)
         (concat all_periods).
Proof.
  intros Hnow Hrun.
  destruct (get_periods_dt_inv now "hourly" _ _ _ Hnow
              ltac:(apply in_granularities; reflexivity) Hrun)
    as (F & st & -> & [_ Hsh _ _ _]).
  eapply Forall_impl; [exact Hsh |].
  intros w (y & m & d & h & _ & Ha). split; [exact Ha |].
  by apply add_Some in Ha as [_ ->].
Qed.

Lemma hourly_windows_whole_witness :
  ∃ all_periods,
    get_periods_dt a_now "hourly" 2022 2022 = Some all_periods ∧
    Forall (λ w, whole "hourly" w ∧ to_us (snd w) = to_us (fst w) + timedelta_hours 1)
           (concat all_periods).
Proof.
  eexists. split; [vm_compute; reflexivity |].
  apply (hourly_windows_whole a_now 2022 2022).
  - reflexivity.
  - vm_compute. reflexivity.
Defined.

(** ** The query in closed form, the directory and the names of the files *)

Module ResumeFacts.
Import Calendar Utils Sampler FetchClaims Resume Validators.
Import CalendarFacts UtilsFacts GeneratorFacts SamplerFacts.

#[local] Arguments String.append : simpl nomatch.

(** *** The query in closed form *)

Lemma append_nil_r (a : string) : (a ++ "")%string = a.
Proof. induction a as [| c a IH]; simpl; [reflexivity | by rewrite IH]. Qed.

Lemma quote_loop (total : nat) ws : ∀ (k : nat) (acc : string),
  (k + length ws)%nat = total →
  foldl (λ stop_word_string '(n, word),
           if (n + 1 <? total)%nat
           then ((stop_word_string ++ dquote ++ word ++ dquote) ++ " OR ")%string
           else (stop_word_string ++ dquote ++ word ++ dquote)%string)
        acc (imap (λ i, pair (k + i)%nat) ws)
  = (acc ++ join " OR " (quoted <$> ws))%string.
Proof.
  induction ws as [| w ws IH]; intros k acc Hk.
  - simpl. by rewrite append_nil_r.
  - rewrite imap_cons. cbn [foldl]. rewrite Nat.add_0_r.
    rewrite (imap_ext _ (λ i, pair (S k + i)%nat) ws)
      by (intros i x _; simpl; f_equal; lia).
    rewrite IH by (simpl in Hk; lia).
    fold (quoted w). destruct ws as [| w' ws'].
    + simpl in Hk. replace (k + 1 <? total)%nat with false
        by (symmetry; apply Nat.ltb_ge; lia).
      simpl. by rewrite append_nil_r.
    + simpl in Hk. replace (k + 1 <? total)%nat with true
        by (symmetry; apply Nat.ltb_lt; lia).
      cbn [fmap list_fmap join]. by rewrite !append_assoc.
Qed.

Lemma filter_step (f : option string) (e : string) :
  (if truthy f then (e ++ str f ++ " ")%string else e)
  = (e ++ filters [f])%string.
Proof.
  unfold filters. cbn [foldr]. destruct (truthy f); by rewrite ?append_nil_r.
Qed.

Lemma filters_cons f fs : filters (f :: fs) = (filters [f] ++ filters fs)%string.
Proof.
  unfold filters. cbn [foldr]. destruct (truthy f); [| reflexivity].
  by rewrite append_nil_r, !append_assoc.
Qed.

Lemma build_query_closed stop_words lang place country point_radius coords
    query_options :
  build_query stop_words lang place country point_radius coords query_options
  = ((if stop_words is [] then " "
      else "(" ++ join " OR " (quoted <$> stop_words) ++ ") ") ++
     filters [lang; place; country; point_radius; coords] ++ query_options)%string.
Proof.
  unfold build_query.
  rewrite (filters_cons lang), (filters_cons place), (filters_cons country),
    (filters_cons point_radius).
  destruct stop_words as [| w ws]; cbv beta iota zeta.
  - cbn [imap foldl]. rewrite !filter_step. by rewrite !append_assoc.
  - set (l := w :: ws). rewrite !filter_step.
    rewrite (imap_ext pair (λ i, pair (0 + i)%nat) l) by done.
    rewrite (quote_loop (length l) l 0 "(") by done.
    by rewrite !append_assoc.
Qed.

(** *** Its length *)

Lemma join_quoted_length ws :
  (6 * length ws ≤ String.length (join " OR " (quoted <$> ws)) + 4)%nat.
Proof.
  induction ws as [| w ws IH]; [simpl; lia |].
  assert (2 ≤ String.length (quoted w))%nat as Hq.
  { unfold quoted. rewrite !length_append. simpl. lia. }
  destruct ws as [| w' ws'].
  - cbn [fmap list_fmap join length]. lia.
  - cbn [fmap list_fmap join] in *. rewrite !length_append.
    change (String.length " OR ") with 4%nat.
    cbn [length] in *. lia.
Qed.

Lemma build_query_length stop_words lang place country point_radius coords
    query_options :
  (6 * length stop_words
   ≤ String.length (build_query stop_words lang place country point_radius
                                coords query_options) + 1)%nat.
Proof.
  rewrite build_query_closed. destruct stop_words as [| w ws]; [simpl; lia |].
  pose proof (join_quoted_length (w :: ws)) as H.
  cbv iota. rewrite !length_append.
  change (String.length "(") with 1%nat. change (String.length ") ") with 2%nat.
  cbn [length] in *. lia.
Qed.


(** *** What a run does to the directory *)

Lemma persist_upto_other k fn fn' chunks (d : directory) :
  fn' ≠ fn → persist_upto k fn chunks d !! fn' = d !! fn'.
Proof.
  intros Hne. unfold persist_upto, open_w. rewrite written_other by done.
  by rewrite lookup_insert_ne.
Qed.

Lemma persist_lookup fn chunks (d : directory) :
  persist fn chunks d !! fn = Some (text_of chunks).
Proof. unfold persist. by rewrite persist_upto_lookup, firstn_all. Qed.

Lemma persist_upto_keeps k fn chunks (d : directory) fn' :
  is_Some (d !! fn') → is_Some (persist_upto k fn chunks d !! fn').
Proof.
  intros H. destruct (decide (fn' = fn)) as [-> | Hne].
  - rewrite persist_upto_lookup. eauto.
  - by rewrite persist_upto_other.
Qed.

Lemma on_exception_dir retry st s' st' :
  on_exception retry st = (s', st') → dir st' = dir st ∧ s' ≠ Finished.
Proof.
  unfold on_exception. destruct (sleepable _); by intros [= <- <-].
Qed.

(** One attempt writes under the name of its window only, removes nothing,
    and when it succeeds the file holds the whole dump. *)
Lemma try_body_dir retry s e fn a st s' st' :
  try_body retry s e fn a st = (s', st') →
  (∀ fn', fn' ≠ fn → dir st' !! fn' = dir st !! fn') ∧
  (∀ fn', is_Some (dir st !! fn') → is_Some (dir st' !! fn')) ∧
  (s' = Finished →
   ∃ r, dir st' !! fn = Some (text_of (json_chunks s e r))).
Proof.
  unfold try_body.
  destruct (remote a) as [| r].
  { intros [-> Hs]%on_exception_dir. simpl. repeat split; auto. done. }
  destruct (result_count r) as [n |]; cycle 1.
  { intros [-> Hs]%on_exception_dir. simpl. repeat split; auto. done. }
  destruct (storage a) as [| | k].
  - simpl. destruct (sleepable (sleep_duration st)).
    + intros [= <- <-]. simpl. split; [| split].
      * intros fn' Hne. unfold persist. by apply persist_upto_other.
      * intros fn'. apply persist_upto_keeps.
      * intros _. exists r. apply persist_lookup.
    + intros [-> Hs]%on_exception_dir. simpl. split; [| split; [| done]].
      * intros fn' Hne. unfold persist. by apply persist_upto_other.
      * intros fn'. apply persist_upto_keeps.
  - intros [-> Hs]%on_exception_dir. simpl. repeat split; auto. done.
  - intros [-> Hs]%on_exception_dir. simpl. split; [| split; [| done]].
    + intros fn' Hne. by apply persist_upto_other.
    + intros fn'. apply persist_upto_keeps.
Qed.

Lemma while_true_dir retry s e fn attempts st s' rest st' :
  while_true retry s e fn attempts st = (s', rest, st') →
  (∀ fn', fn' ≠ fn → dir st' !! fn' = dir st !! fn') ∧
  (∀ fn', is_Some (dir st !! fn') → is_Some (dir st' !! fn')) ∧
  (s' = Finished →
   ∃ r, dir st' !! fn = Some (text_of (json_chunks s e r))).
Proof.
  revert st. induction attempts as [| a attempts IH]; intros st.
  - simpl. intros [= <- <- <-]. repeat split; auto; discriminate.
  - rewrite while_true_cons.
    destruct (try_body retry s e fn a st) as [s1 st1] eqn:Hb.
    apply try_body_dir in Hb as (Hf & Hk & Hc).
    destruct s1.
    + intros [= <- <- <-]. auto.
    + intros (Hf' & Hk' & Hc')%IH. split; [| split; [| exact Hc']].
      * intros fn' Hne. rewrite Hf' by done. by apply Hf.
      * intros fn' H. by apply Hk', Hk.
    + intros [= <- <- <-]. repeat split; auto; discriminate.
Qed.

Lemma elem_of_to_fetch collected ws w :
  w ∈ to_fetch collected ws ↔ w ∈ ws ∧ fn_of w ∉ collected.
Proof. unfold to_fetch. rewrite list_elem_of_filter. tauto. Qed.

(** The loop over the windows writes under the names of the windows that
    it has to fetch only, and removes nothing; when it finishes the file of
    each of them is there. *)
Lemma for_windows_dir retry collected ws attempts st s' rest st' :
  for_windows retry collected ws attempts st = (s', rest, st') →
  (∀ fn, fn ∉ fn_of <$> to_fetch collected ws → dir st' !! fn = dir st !! fn) ∧
  (∀ fn, is_Some (dir st !! fn) → is_Some (dir st' !! fn)) ∧
  (s' = Finished →
   ∀ w, w ∈ to_fetch collected ws → is_Some (dir st' !! fn_of w)).
Proof.
  revert attempts st. induction ws as [| [s e] ws IH]; intros attempts st.
  - simpl. intros [= <- <- <-]. repeat split; auto.
    intros _ w Hw. by apply elem_of_nil in Hw.
  - simpl. destruct (decide (response_fn s e ∈ collected)) as [Hin | Hout].
    + rewrite (proj1 (to_fetch_skip collected (s, e) ws Hin)).
      intros H%IH. exact H.
    + rewrite (proj1 (to_fetch_keep collected (s, e) ws Hout)).
      destruct (while_true retry s e (response_fn s e) attempts st)
        as [[s1 rest1] st1] eqn:Hw.
      apply while_true_dir in Hw as (Hf & Hk & Hc).
      rewrite fmap_cons.
      destruct s1.
      * intros (Hf' & Hk' & Hc')%IH. split; [| split].
        -- intros fn Hfn. apply not_elem_of_cons in Hfn as [Hne Hfn].
           rewrite Hf' by done. by apply Hf.
        -- intros fn H. by apply Hk', Hk.
        -- intros Hs w Hw. apply elem_of_cons in Hw as [-> | Hw].
           ++ apply Hk'. change (fn_of (s, e)) with (response_fn s e).
              destruct (Hc eq_refl) as [r ->]. eauto.
           ++ by apply Hc'.
      * intros [= <- <- <-]. split; [| split; [exact Hk | discriminate]].
        intros fn Hfn. apply not_elem_of_cons in Hfn as [Hne Hfn]. by apply Hf.
      * intros [= <- <- <-]. split; [| split; [exact Hk | discriminate]].
        intros fn Hfn. apply not_elem_of_cons in Hfn as [Hne Hfn]. by apply Hf.
Qed.

(** With distinct file names, the file of each window fetched holds, at the
    end, the whole dump of a response to it. *)
Lemma for_windows_complete retry collected ws attempts st rest st' :
  NoDup (fn_of <$> to_fetch collected ws) →
  for_windows retry collected ws attempts st = (Finished, rest, st') →
  ∀ w, w ∈ to_fetch collected ws → complete (dir st') w.
Proof.
  revert attempts st. induction ws as [| [s e] ws IH]; intros attempts st.
  - intros _ _ w Hw. by apply elem_of_nil in Hw.
  - simpl. destruct (decide (response_fn s e ∈ collected)) as [Hin | Hout].
    + rewrite (proj1 (to_fetch_skip collected (s, e) ws Hin)). apply IH.
    + rewrite (proj1 (to_fetch_keep collected (s, e) ws Hout)).
      rewrite fmap_cons. intros [Hnew Hnd]%NoDup_cons.
      destruct (while_true retry s e (response_fn s e) attempts st)
        as [[s1 rest1] st1] eqn:Hw.
      apply while_true_dir in Hw as (_ & _ & Hc).
      destruct s1; [| discriminate | discriminate].
      intros Hrun w Hw. apply elem_of_cons in Hw as [-> | Hw].
      * destruct (Hc eq_refl) as [r Hr]. exists r.
        apply for_windows_dir in Hrun as (Hf & _).
        change (fn_of (s, e)) with (response_fn s e) in *. by rewrite Hf.
      * by apply (IH _ _ Hnd Hrun).
Qed.

(** A loop over windows that are all collected requests nothing. *)
Lemma for_windows_collected retry collected ws attempts st :
  (∀ w, w ∈ ws → fn_of w ∈ collected) →
  ∃ st', for_windows retry collected ws attempts st = (Finished, attempts, st') ∧
         requests (trace st') = requests (trace st) ∧ dir st' = dir st.
Proof.
  revert st. induction ws as [| [s e] ws IH]; intros st Hall.
  - simpl. eauto.
  - simpl. rewrite decide_True by (apply (Hall (s, e)); left).
    destruct (IH (log (Print (found_line (response_fn s e))) st)) as (st' & -> & Hr & Hd).
    { intros w Hw. apply Hall. by right. }
    exists st'. split; [reflexivity |]. split; [| exact Hd].
    rewrite Hr, log_trace, requests_app. simpl. by rewrite app_nil_r.
Qed.

(** *** Crashes *)


Lemma on_exception_crash retry st :
  retry < 0 → (on_exception retry st).1 = Crashed.
Proof.
  intros H. unfold on_exception.
  replace (sleepable (inject_Z retry)) with false; [reflexivity |].
  symmetry. apply not_true_is_false. intros L. apply Qle_bool_iff in L.
  change 0%Q with (inject_Z 0) in L. rewrite <- Zle_Qle in L. lia.
Qed.





(** *** The names of the files *)

Lemma digit_char_inj a b : digit_char a = digit_char b → a mod 10 = b mod 10.
Proof.
  unfold digit_char. intros H. apply (f_equal nat_of_ascii) in H.
  pose proof (Z.mod_pos_bound a 10 ltac:(lia)).
  pose proof (Z.mod_pos_bound b 10 ltac:(lia)).
  rewrite nat_ascii_embedding in H; [| lia].
  rewrite nat_ascii_embedding in H; [| lia]. lia.
Qed.

Lemma digit_char_no_colon n : Ascii.eqb (digit_char n) ":" = false.
Proof.
  apply Ascii.eqb_neq. intros H. apply (f_equal nat_of_ascii) in H.
  unfold digit_char in H.
  pose proof (Z.mod_pos_bound n 10 ltac:(lia)).
  rewrite nat_ascii_embedding in H by lia.
  change (nat_of_ascii ":") with 58%nat in H. lia.
Qed.

Lemma two_digits a b :
  0 ≤ a ≤ 99 → 0 ≤ b ≤ 99 →
  (a / 10) mod 10 = (b / 10) mod 10 → a mod 10 = b mod 10 → a = b.
Proof. intros Ha Hb H1 H2. divmod. Qed.

Lemma four_digits a b :
  0 ≤ a ≤ 9999 → 0 ≤ b ≤ 9999 →
  (a / 100 / 10) mod 10 = (b / 100 / 10) mod 10 →
  (a / 100) mod 10 = (b / 100) mod 10 →
  (a / 10) mod 10 = (b / 10) mod 10 → a mod 10 = b mod 10 → a = b.
Proof. intros Ha Hb H1 H2 H3 H4. divmod. Qed.

Lemma remove_colons_app (a b : string) :
  remove_colons (a ++ b) = (remove_colons a ++ remove_colons b)%string.
Proof.
  induction a as [| c a IH]; [reflexivity |].
  cbn [String.append remove_colons]. rewrite IH. by destruct (Ascii.eqb c ":").
Qed.

Lemma remove_colons_pad2 n : remove_colons (pad2 n) = pad2 n.
Proof.
  unfold pad2, digit. fold (digit_char (n / 10)). fold (digit_char n).
  cbn [String.append remove_colons]. by rewrite !digit_char_no_colon.
Qed.

Lemma remove_colons_pad4 n : remove_colons (pad4 n) = pad4 n.
Proof. unfold pad4. by rewrite remove_colons_app, !remove_colons_pad2. Qed.

Lemma remove_colons_strftime dt :
  remove_colons (strftime dt) =
  (pad4 (year dt) ++ "-" ++ pad2 (month dt) ++ "-" ++ pad2 (day dt) ++ "T" ++
   pad2 (hour dt) ++ pad2 (minute dt) ++ pad2 (second dt) ++ "Z")%string.
Proof.
  unfold strftime.
  rewrite !remove_colons_app, remove_colons_pad4, !remove_colons_pad2.
  reflexivity.
Qed.

Lemma pad2_app_digits a b (s s' : string) :
  (pad2 a ++ s = pad2 b ++ s')%string →
  (a / 10) mod 10 = (b / 10) mod 10 ∧ a mod 10 = b mod 10 ∧ s = s'.
Proof.
  unfold pad2, digit.
  fold (digit_char (a / 10)). fold (digit_char a).
  fold (digit_char (b / 10)). fold (digit_char b).
  cbn [String.append]. by intros [= H1%digit_char_inj H2%digit_char_inj ->].
Qed.

Lemma pad2_app_inj a b (s s' : string) :
  0 ≤ a ≤ 99 → 0 ≤ b ≤ 99 →
  (pad2 a ++ s = pad2 b ++ s')%string → a = b ∧ s = s'.
Proof.
  intros Ha Hb (H1 & H2 & ->)%pad2_app_digits.
  split; [by apply two_digits | reflexivity].
Qed.

Lemma pad4_app_inj a b (s s' : string) :
  0 ≤ a ≤ 9999 → 0 ≤ b ≤ 9999 →
  (pad4 a ++ s = pad4 b ++ s')%string → a = b ∧ s = s'.
Proof.
  intros Ha Hb. unfold pad4. rewrite !append_assoc.
  intros (H1 & H2 & (H3 & H4 & ->)%pad2_app_digits)%pad2_app_digits.
  split; [by apply four_digits | reflexivity].
Qed.

Lemma char_app_inj (c : ascii) (s s' : string) :
  (String c EmptyString ++ s = String c EmptyString ++ s')%string → s = s'.
Proof. cbn [String.append]. by intros [= ->]. Qed.

Lemma stamp_inj a b (s s' : string) :
  printable a → printable b →
  (remove_colons (strftime a) ++ s = remove_colons (strftime b) ++ s')%string →
  same_second a b ∧ s = s'.
Proof.
  intros (Ya & Ma & Da & Ha & Mia & Sa) (Yb & Mb & Db & Hb & Mib & Sb).
  rewrite !remove_colons_strftime. rewrite !append_assoc.
  intros [Ey E]%pad4_app_inj; [| done | done].
  apply char_app_inj in E. apply pad2_app_inj in E as [Em E]; [| done | done].
  apply char_app_inj in E. apply pad2_app_inj in E as [Ed E]; [| done | done].
  apply char_app_inj in E. apply pad2_app_inj in E as [Eh E]; [| done | done].
  apply pad2_app_inj in E as [Emi E]; [| done | done].
  apply pad2_app_inj in E as [Es E]; [| done | done].
  apply char_app_inj in E. by repeat split.
Qed.

Lemma response_fn_inj s1 e1 s2 e2 :
  printable s1 → printable e1 → printable s2 → printable e2 →
  response_fn (strftime s1) (strftime e1) = response_fn (strftime s2) (strftime e2) →
  same_second s1 s2 ∧ same_second e1 e2.
Proof.
  intros Hs1 He1 Hs2 He2. unfold response_fn.
  intros [H1 H]%stamp_inj; [| done | done].
  apply char_app_inj in H. apply stamp_inj in H as [H2 _]; done.
Qed.

Lemma valid_printable dt : valid_datetime dt = true → printable dt.
Proof.
  intros (V & Hh & Hm & Hs & _)%valid_datetime_spec.
  apply valid_date_spec in V as (Hy & Hmo & Hd).
  pose proof (month_length_pos (is_leap (year dt)) (month dt) Hmo).
  unfold days_in_month in Hd. unfold printable. lia.
Qed.

Lemma same_second_instant a b :
  valid_datetime a = true → valid_datetime b = true →
  same_second a b → instant a = instant b.
Proof.
  intros (_ & _ & _ & _ & Ha)%valid_datetime_spec
         (_ & _ & _ & _ & Hb)%valid_datetime_spec (Hy & Hm & Hd & Hh & Hmi & Hs).
  unfold instant, to_us. rewrite Hy, Hm, Hd, Hh, Hmi, Hs.
  unfold us_per_second. divmod.
Qed.

Lemma concat_fmap_fmap {A B : Type} (f : A → B) (l : list (list A)) :
  concat (fmap (M := list) (fmap (M := list) f) l) = f <$> concat l.
Proof.
  induction l as [| x l IH]; [reflexivity |].
  rewrite fmap_cons. cbn [concat]. by rewrite fmap_app, IH.
Qed.

(** Windows that are valid and increasing get distinct names. *)
Lemma names_distinct now (l : list window) :
  Forall (Spec.wf now) l → Spec.increasing l →
  NoDup (fn_of <$> (prod_map strftime strftime <$> l)).
Proof.
  intros Hwf Hinc. rewrite <- list_fmap_compose. apply NoDup_alt.
  assert (∀ i j x, (i < j)%nat →
            ((fn_of ∘ prod_map strftime strftime) <$> l) !! i = Some x →
            ((fn_of ∘ prod_map strftime strftime) <$> l) !! j = Some x → False) as Hlt.
  { intros i j x Hij Hi Hj.
    apply list_lookup_fmap_Some in Hi as (w1 & -> & H1).
    apply list_lookup_fmap_Some in Hj as (w2 & E & H2).
    destruct (Hinc i j w1 w2 Hij H1 H2) as [Hs _].
    rewrite Forall_forall in Hwf.
    destruct (Hwf w1) as (V1 & V1' & _); [by eapply list_elem_of_lookup_2 |].
    destruct (Hwf w2) as (V2 & V2' & _); [by eapply list_elem_of_lookup_2 |].
    destruct w1 as [a1 b1], w2 as [a2 b2]. simpl in *.
    unfold fn_of in E. simpl in E.
    apply response_fn_inj in E as [E _]; auto using valid_printable.
    apply same_second_instant in E; auto. lia. }
  intros i j x Hi Hj.
  destruct (Nat.lt_trichotomy i j) as [H | [H | H]]; [| done |]; exfalso; eauto.
Qed.


(** *** The run as a whole *)

Lemma main_cases now a files attempts s' st' :
  main now a files attempts = (s', st') →
  (dir st' = files ∧
   (((1024 < String.length (query_string a))%nat ∧ s' = Finished) ∨
    ((String.length (query_string a) ≤ 1024)%nat ∧ s' = Crashed ∧
     get_periods now (time_range a) (start_year a) (stop_year a) = None))) ∨
  ((String.length (query_string a) ≤ 1024)%nat ∧
   ∃ all_periods rest,
     get_periods now (time_range a) (start_year a) (stop_year a) = Some all_periods ∧
     for_windows (retry_duration a) (responses_collected files) (concat all_periods)
       attempts (mk_run (inject_Z (arg_sleep_duration a)) 0 files [])
     = (s', rest, st')).
Proof.
  unfold main. destruct (1024 <? String.length (query_string a))%nat eqn:L.
  - apply Nat.ltb_lt in L. intros [= <- <-]. left. simpl. auto.
  - apply Nat.ltb_ge in L.
    destruct (get_periods _ _ _ _) as [ps |].
    + rewrite for_periods_concat.
      destruct (for_windows _ _ _ _ _) as [[s1 rest] st1] eqn:Hrun.
      intros [= <- <-]. right. split; [exact L |]. eauto.
    + intros [= <- <-]. left. simpl. auto.
Qed.

Lemma main_short now a files attempts all_periods :
  (String.length (query_string a) ≤ 1024)%nat →
  get_periods now (time_range a) (start_year a) (stop_year a) = Some all_periods →
  main now a files attempts =
  let '(s, _, st') :=
    for_windows (retry_duration a) (responses_collected files) (concat all_periods)
      attempts (mk_run (inject_Z (arg_sleep_duration a)) 0 files []) in
  (s, st').
Proof.
  intros L Hps. unfold main.
  replace (1024 <? String.length (query_string a))%nat with false
    by (symmetry; by apply Nat.ltb_ge).
  by rewrite Hps, for_periods_concat.
Qed.

Lemma get_periods_names now time_range start_year stop_year all_periods :
  valid_datetime now = true → time_range ∈ granularities →
  get_periods now time_range start_year stop_year = Some all_periods →
  NoDup (names all_periods).
Proof.
  intros Hnow Htr. unfold get_periods. intros (ps & Hps & ->)%fmap_Some.
  unfold names. rewrite concat_fmap_fmap.
  destruct (get_periods_dt_inv _ _ _ _ _ Hnow Htr Hps) as (F & st & -> & [Hwf _ Hch _ _]).
  apply (names_distinct now); [exact Hwf |].
  apply (chained_increasing now (Spec.gap_of time_range)); auto using gap_of_nonneg.
Qed.

Lemma to_fetch_names collected ws :
  NoDup (fn_of <$> ws) → NoDup (fn_of <$> to_fetch collected ws).
Proof.
  induction ws as [| w ws IH]; [done |]. rewrite fmap_cons.
  intros [Hnew Hnd]%NoDup_cons. unfold to_fetch. rewrite filter_cons.
  destruct (decide _); [| by apply IH].
  rewrite fmap_cons. apply NoDup_cons. split; [| by apply IH].
  intros (w' & E & Hw')%list_elem_of_fmap. apply Hnew.
  apply list_elem_of_fmap. exists w'. split; [exact E |].
  by apply list_elem_of_filter in Hw' as [_ ?].
Qed.

(** The first failure of a run whose pause after a failure is negative. *)
Lemma for_windows_crash retry collected ws a attempts st :
  retry < 0 → remote a = Refused → to_fetch collected ws ≠ [] →
  (for_windows retry collected ws (a :: attempts) st).1.1 = Crashed.
Proof.
  intros Hr Ha. revert st. induction ws as [| [s e] ws IH]; intros st Hne; [done |].
  simpl. destruct (decide (response_fn s e ∈ collected)) as [Hin | Hout].
  - apply IH. by rewrite (proj1 (to_fetch_skip collected (s, e) ws Hin)) in Hne.
  - unfold try_body. rewrite Ha.
    pose proof (on_exception_crash retry (log (Request s e) st) Hr) as Hc.
    destruct (on_exception retry (log (Request s e) st)) as [s1 st1].
    simpl in Hc. by rewrite Hc.
Qed.

(** *** The validators *)

Lemma geo_validators_raise astring :
  validate_point_radius astring
  = (if (length (inp_loc astring) =? 2)%nat || (length (inp_loc astring) =? 3)%nat
     then Raise TypeError else Raise (SystemExit wrong_point (-1))) ∧
  validate_coords astring
  = (if (length (inp_loc astring) =? 4)%nat
     then Raise TypeError else Raise (SystemExit wrong_box (-1))).
Proof.
  unfold validate_point_radius, validate_coords.
  destruct (inp_loc astring) as [| a [| b [| c [| d [| e l]]]]]; split; reflexivity.
Qed.

Lemma finished_eta (r : status * run) : r.1 = Finished → r = (Finished, r.2).
Proof. destruct r as [s st]. simpl. by intros ->. Qed.

Lemma a_run_finished : a_run = (Finished, a_run.2).
Proof. apply finished_eta. vm_compute. reflexivity. Qed.

End ResumeFacts.

(** ** Further properties of the query, the store and the fetch loop *)

Import Calendar Utils Sampler Spec FetchClaims Claims Resume.
Import CalendarFacts UtilsFacts GeneratorFacts SamplerFacts ResumeFacts.

(** X12: the query that [build_query] returns: the stop words, each between
    double quotes, joined by [OR] inside one pair of parentheses and
    followed by a space (a lone space when there are none); then the
    filters that are set, in the order language, place, country, point and
    radius, bounding box, a space after each; then the options.  No [OR]
    follows the last word. *)
Theorem build_query_joined stop_words lang place country point_radius coords
    query_options :
  build_query stop_words lang place country point_radius coords query_options
  = ((if stop_words is [] then " "
      else "(" ++ join " OR " (quoted <$> stop_words) ++ ") ") ++
     filters [lang; place; country; point_radius; coords] ++ query_options)%string.
Proof. apply build_query_closed. Qed.

(** X13: each stop word costs the query six characters at least: with 171 stop
    words or more the query is longer than 1024 characters whatever the
    words are, and the run ends at the length guard with nothing requested
    and nothing written. *)
Theorem many_stop_words_abort now a files attempts :
  (171 ≤ length (stop_words a))%nat →
  (1024 < String.length (query_string a))%nat ∧
  ∃ st', main now a files attempts = (Finished, st') ∧
         trace st' = [Print too_long] ∧ dir st' = files.
Proof.
  intros Hn.
  assert (1024 < String.length (query_string a))%nat as Hlen.
  { pose proof (build_query_length (stop_words a) (lang a) (place a) (country a)
                  (point_radius a) (coords a) (query_options a)) as H.
    unfold query_string. lia. }
  split; [exact Hlen |]. unfold main.
  replace (1024 <? String.length (query_string a))%nat with true
    by (symmetry; by apply Nat.ltb_lt).
  eexists. split; [reflexivity |]. split; reflexivity.
Qed.

Lemma many_stop_words_abort_witness :
  (1024 < String.length (query_string many_args))%nat ∧
  ∃ st', main a_now many_args ∅ [success] = (Finished, st') ∧
         trace st' = [Print too_long] ∧ dir st' = ∅.
Proof.
  apply (many_stop_words_abort a_now many_args ∅ [success]).
  unfold many_args. cbn [stop_words]. rewrite length_replicate. lia.
Defined.

(** X14: no two windows of [get_periods] are stored under the same file name:
    the names, built from the two printed bounds with the colons removed,
    are pairwise distinct. *)
Theorem window_names_distinct now time_range start_year stop_year all_periods :
  valid_datetime now = true → time_range ∈ granularities →
  2006 ≤ start_year →
  get_periods now time_range start_year stop_year = Some all_periods →
  NoDup (names all_periods).
Proof. intros Hnow Htr _. by apply get_periods_names. Qed.

Lemma window_names_distinct_witness :
  ∃ all_periods, get_periods a_now "monthly" 2021 2022 = Some all_periods ∧
                 NoDup (names all_periods).
Proof.
  eexists. split; [vm_compute; reflexivity |].
  apply (window_names_distinct a_now "monthly" 2021 2022).
  - reflexivity.
  - apply in_granularities. reflexivity.
  - lia.
  - vm_compute. reflexivity.
Defined.

(** X15: a run removes no file and rewrites none that it found collected at its
    start; the only names under which it writes are those of the windows
    that it has to fetch. *)
Theorem run_keeps_files now a files attempts s' st' :
  main now a files attempts = (s', st') →
  dom files ⊆ dom (dir st') ∧
  (∀ fn, fn ∈ responses_collected files → dir st' !! fn = files !! fn) ∧
  (∀ all_periods fn,
     get_periods now (time_range a) (start_year a) (stop_year a) = Some all_periods →
     fn ∉ names all_periods → dir st' !! fn = files !! fn).
Proof.
  intros [(-> & _) | (_ & ps & rest & Hps & Hrun)]%main_cases; [done |].
  apply for_windows_dir in Hrun as (Hf & Hk & _). simpl in Hf, Hk.
  split; [| split].
  - intros fn. rewrite !elem_of_dom. apply Hk.
  - intros fn Hfn. apply Hf.
    intros (w & -> & [_ Hw]%elem_of_to_fetch)%list_elem_of_fmap. done.
  - intros ps' fn Hps' Hfn. assert (ps' = ps) as -> by congruence.
    apply Hf. intros (w & -> & [Hw _]%elem_of_to_fetch)%list_elem_of_fmap.
    apply Hfn. unfold names. apply list_elem_of_fmap. eauto.
Qed.

Lemma run_keeps_files_witness :
  dom a_directory ⊆ dom (dir a_run.2) ∧
  (∀ fn, fn ∈ responses_collected a_directory →
         dir a_run.2 !! fn = a_directory !! fn).
Proof.
  destruct (run_keeps_files a_now yearly_args a_directory
              [failure; success; success] Finished a_run.2 a_run_finished)
    as (H1 & H2 & _).
  exact (conj H1 H2).
Defined.

(** X16: when a run finishes, the file of every window of [get_periods] is in
    the directory under a name that the scan collects: a second run on the
    directory that it leaves requests nothing, writes nothing, and
    finishes. *)
Theorem finished_run_collected now a files attempts st' :
  (String.length (query_string a) ≤ 1024)%nat →
  main now a files attempts = (Finished, st') →
  ∃ all_periods,
    get_periods now (time_range a) (start_year a) (stop_year a) = Some all_periods ∧
    Forall (λ fn, fn ∈ responses_collected (dir st')) (names all_periods) ∧
    ∀ attempts', ∃ st'',
      main now a (dir st') attempts' = (Finished, st'') ∧
      requests (trace st'') = [] ∧ dir st'' = dir st'.
Proof.
  intros L [(_ & [[H _] | (_ & H & _)]) | (_ & ps & rest & Hps & Hrun)]%main_cases;
    [lia | discriminate |].
  apply for_windows_dir in Hrun as (_ & Hk & Hc). simpl in Hk.
  specialize (Hc eq_refl).
  assert (∀ w, w ∈ concat ps → fn_of w ∈ responses_collected (dir st')) as Hall.
  { intros w Hw. apply collected_iff; [destruct w; apply response_fn_suffix |].
    destruct (decide (fn_of w ∈ responses_collected files)) as [Hin | Hout].
    - apply Hk. apply collected_iff in Hin; [done |].
      destruct w; apply response_fn_suffix.
    - apply Hc. by apply elem_of_to_fetch. }
  exists ps. split; [exact Hps |]. split.
  - apply Forall_forall. intros fn (w & -> & Hw)%list_elem_of_fmap. by apply Hall.
  - intros attempts'. rewrite (main_short now a (dir st') attempts' ps L Hps).
    destruct (for_windows_collected (retry_duration a) (responses_collected (dir st'))
                (concat ps) attempts'
                (mk_run (inject_Z (arg_sleep_duration a)) 0 (dir st') []) Hall)
      as (st'' & -> & Hr & Hd).
    exists st''. auto.
Qed.

Lemma finished_run_collected_witness :
  a_run.1 = Finished ∧
  ∀ attempts', ∃ st'',
    main a_now yearly_args (dir a_run.2) attempts' = (Finished, st'') ∧
    requests (trace st'') = [] ∧ dir st'' = dir a_run.2.
Proof.
  destruct (finished_run_collected a_now yearly_args a_directory
              [failure; success; success] a_run.2
              ltac:(vm_compute; lia) a_run_finished)
    as (ps & _ & _ & H).
  split; [vm_compute; reflexivity | exact H].
Defined.

(** X17: when a run finishes, the file of every window that it had to fetch
    holds the whole dump of a response to that window, and the file of
    every window that it found collected is as it was. *)
Theorem finished_run_complete now a files attempts st' :
  valid_datetime now = true → time_range a ∈ granularities →
  2006 ≤ start_year a →
  (String.length (query_string a) ≤ 1024)%nat →
  main now a files attempts = (Finished, st') →
  ∃ all_periods,
    get_periods now (time_range a) (start_year a) (stop_year a) = Some all_periods ∧
    ∀ w, w ∈ concat all_periods →
      if decide (fn_of w ∈ responses_collected files)
      then dir st' !! fn_of w = files !! fn_of w
      else complete (dir st') w.
Proof.
  intros Hnow Htr _ L
    [(_ & [[H _] | (_ & H & _)]) | (_ & ps & rest & Hps & Hrun)]%main_cases;
    [lia | discriminate |].
  exists ps. split; [exact Hps |]. intros w Hw.
  destruct (decide _) as [Hin | Hout].
  - apply for_windows_dir in Hrun as (Hf & _). simpl in Hf. apply Hf.
    intros (w' & E & [_ Hw']%elem_of_to_fetch)%list_elem_of_fmap.
    apply Hw'. by rewrite <- E.
  - apply (for_windows_complete _ _ _ _ _ _ _
             (to_fetch_names _ _ (get_periods_names _ _ _ _ _ Hnow Htr Hps)) Hrun).
    by apply elem_of_to_fetch.
Qed.

Lemma finished_run_complete_witness :
  ∃ all_periods,
    get_periods a_now "yearly" 2020 2021 = Some all_periods ∧
    ∀ w, w ∈ concat all_periods →
      if decide (fn_of w ∈ responses_collected a_directory)
      then dir a_run.2 !! fn_of w = a_directory !! fn_of w
      else complete (dir a_run.2) w.
Proof.
  apply (finished_run_complete a_now yearly_args a_directory
           [failure; success; success] a_run.2).
  - reflexivity.
  - apply in_granularities. reflexivity.
  - simpl. lia.
  - vm_compute. lia.
  - exact a_run_finished.
Defined.



(** X19: with a negative pause after a failure the sleep of the handler raises:
    the first request that the remote refuses ends the run on an
    exception. *)
Theorem negative_retry_crashes now a files attempt attempts all_periods :
  retry_duration a < 0 →
  (String.length (query_string a) ≤ 1024)%nat →
  get_periods now (time_range a) (start_year a) (stop_year a) = Some all_periods →
  to_fetch (responses_collected files) (concat all_periods) ≠ [] →
  remote attempt = Refused →
  (main now a files (attempt :: attempts)).1 = Crashed.
Proof.
  intros Hr L Hps Hne Ha. rewrite (main_short now a files _ all_periods L Hps).
  pose proof (for_windows_crash (retry_duration a) (responses_collected files)
                (concat all_periods) attempt attempts
                (mk_run (inject_Z (arg_sleep_duration a)) 0 files []) Hr Ha Hne) as Hc.
  by destruct (for_windows _ _ _ _ _) as [[s1 rest] st1].
Qed.

Lemma negative_retry_crashes_witness :
  (main a_now hasty_args ∅ [failure; success]).1 = Crashed.
Proof.
  eapply (negative_retry_crashes a_now hasty_args ∅ failure [success]).
  - simpl. lia.
  - vm_compute. lia.
  - vm_compute. reflexivity.
  - vm_compute. discriminate.
  - reflexivity.
Defined.

(** X20: a negative pause between requests makes the sleep after a successful
    write raise: the file holds the whole dump, yet the attempt counts as a
    failure, the window is requested again, and the pause has grown.  The
    pause between requests is no lower than -10^8 seconds and the pause
    after a failure no longer than 10^8 seconds: there [time.sleep] takes
    the one after the failure and the float sum of the source grows. *)
Theorem negative_sleep_repeats retry start_time end_time a st :
  (- inject_Z 100000000 <= sleep_duration st)%Q → (sleep_duration st < 0)%Q →
  0 ≤ retry ≤ 100000000 → succeeds a →
  ∃ st', try_body retry start_time end_time (response_fn start_time end_time) a st
         = (Running, st') ∧
         complete (dir st') (start_time, end_time) ∧
         failures (trace st') = S (failures (trace st)) ∧
         (sleep_duration st < sleep_duration st')%Q.
Proof.
  intros _ Hs [Hr _] (r & n & Ha & Hn & Hd). unfold try_body. rewrite Ha, Hn, Hd.
  cbn [dir set_dir log sleep_duration].
  replace (sleepable (sleep_duration st)) with false; cycle 1.
  { symmetry. apply not_true_is_false. intros H%Qle_bool_iff. lra. }
  unfold on_exception.
  replace (sleepable (inject_Z retry)) with true; cycle 1.
  { symmetry. apply Qle_bool_iff. change 0%Q with (inject_Z 0). by rewrite <- Zle_Qle. }
  eexists. split; [reflexivity |]. simpl. split; [| split].
  - exists r. apply persist_lookup.
  - rewrite !failures_app.
    change (failures [Request start_time end_time]) with 0%nat.
    change (failures [Failed]) with 1%nat.
    change (failures [Sleep (inject_Z retry)]) with 0%nat. lia.
  - lra.
Qed.

Lemma negative_sleep_repeats_witness :
  ∃ st', try_body 61 a_start a_end (response_fn a_start a_end) success
           (mk_run (inject_Z (-1)) 0 ∅ [])
         = (Running, st') ∧
         complete (dir st') (a_start, a_end) ∧
         failures (trace st') = S (failures (trace (mk_run (inject_Z (-1)) 0 ∅ []))) ∧
         (sleep_duration (mk_run (inject_Z (-1)) 0 ∅ []) < sleep_duration st')%Q.
Proof.
  apply (negative_sleep_repeats 61 a_start a_end success (mk_run (inject_Z (-1)) 0 ∅ [])).
  - vm_compute. discriminate.
  - reflexivity.
  - lia.
  - exists a_response, 3. repeat split.
Defined.

(** ** The properties of the validators *)

Import Calendar Utils Sampler Claims Coverage Resume Validators.
Import SamplerFacts CoverageFacts ResumeFacts.

(** X21: [validate_point_radius] and [validate_coords] never return.  The
    elements that they take from the argument are strings, and the
    assertions compare them with numbers: with two or three elements (four
    for [validate_coords]) the first comparison raises [TypeError]; with any
    other number of elements the function prints its message and exits. *)
Theorem geo_validators_never_return astring :
  validate_point_radius astring
  = (if (length (inp_loc astring) =? 2)%nat || (length (inp_loc astring) =? 3)%nat
     then Raise TypeError else Raise (SystemExit wrong_point (-1))) ∧
  validate_coords astring
  = (if (length (inp_loc astring) =? 4)%nat
     then Raise TypeError else Raise (SystemExit wrong_box (-1))).
Proof. apply geo_validators_raise. Qed.

(** X22: the chain over [location_type] returns a query location only for
    [place] and [place_country], and then only with the value given for it;
    [point_radius] and [bounding_box] never get past their validator, so no
    query carries one of these two filters; any other location type sets no
    filter, whatever values are given. *)
Theorem location_filters lt arg_place arg_country arg_point_radius arg_coords
    place country point_radius coords :
  location lt arg_place arg_country arg_point_radius arg_coords
    = Return (place, country, point_radius, coords) →
  point_radius = None ∧ coords = None ∧
  ((lt = Some "place"%string ∧ country = None ∧
    ∃ v, arg_place = Some v ∧ place = Some ("place:" ++ v)%string) ∨
   (lt = Some "place_country"%string ∧ place = None ∧
    ∃ v, arg_country = Some v ∧ country = Some ("place_country:" ++ v)%string) ∨
   ((lt ∉ ([Some "place"; Some "place_country"; Some "point_radius";
            Some "bounding_box"]%string : list (option string))) ∧
    place = None ∧ country = None)).
Proof.
  unfold location.
  destruct (decide (lt = Some "place"%string)) as [-> | H1].
  { destruct arg_place as [v |]; [| discriminate]. intros [= <- <- <- <-].
    split; [done |]. split; [done |]. left. eauto. }
  destruct (decide (lt = Some "place_country"%string)) as [-> | H2].
  { destruct arg_country as [v |]; [| discriminate]. intros [= <- <- <- <-].
    split; [done |]. split; [done |]. right. left. eauto. }
  destruct (decide (lt = Some "point_radius"%string)) as [-> | H3].
  { destruct arg_point_radius as [v |]; [| discriminate].
    cbn [assert_given mbind outcome_bind].
    destruct (geo_validators_raise v) as [-> _].
    by destruct (_ || _). }
  destruct (decide (lt = Some "bounding_box"%string)) as [-> | H4].
  { destruct arg_coords as [v |]; [| discriminate].
    cbn [assert_given mbind outcome_bind].
    destruct (geo_validators_raise v) as [_ ->].
    by destruct (_ =? _)%nat. }
  intros [= <- <- <- <-]. split; [done |]. split; [done |]. right. right.
  split; [| done]. rewrite !not_elem_of_cons. repeat split; auto.
  apply not_elem_of_nil.
Qed.

Lemma location_filters_witness :
  location (Some "place"%string) (Some "Kano"%string) None (Some "1 2 3"%string) None
    = Return (Some "place:Kano"%string, None, None, None) ∧
  ((Some "place"%string = Some "place"%string ∧ @None string = None ∧
    ∃ v, Some "Kano"%string = Some v ∧
         Some "place:Kano"%string = Some ("place:" ++ v)%string) ∨
   (Some "place"%string = Some "place_country"%string ∧
    Some "place:Kano"%string = None ∧
    ∃ v, @None string = Some v ∧ @None string = Some ("place_country:" ++ v)%string) ∨
   ((Some "place"%string
       ∉ ([Some "place"; Some "place_country"; Some "point_radius";
           Some "bounding_box"]%string : list (option string))) ∧
    Some "place:Kano"%string = None ∧ @None string = None)).
Proof.
  split; [reflexivity |].
  apply (location_filters (Some "place"%string) (Some "Kano"%string) None
           (Some "1 2 3"%string) None (Some "place:Kano"%string) None None None).
  reflexivity.
Defined.


